(** * VoiceScribe AI: the audio and transcript pipeline

    A shallow embedding of the audio normalisation, silence gate,
    hallucination filter, keyword corrector and record builder of the
    VoiceScribe client, with the properties of its specification stated
    and settled against it.

    Three variants of the client are embedded, each in a module of its own:
    - [MainApp]: [src/main.js], the first local client;
    - [LocalApp]: the local-Whisper client with the hardened text filter
      ([cleanText], [hasRepetitionLoop], [resampleManually], ...);
    - [GroqApp]: the remote-API client ([filterHallucinations], ...).
    [JS] holds JavaScript strings and the regular expressions of the
    source, [Audio] the numbers and buffers, [Shared] the state and the
    functions that the variants have in common, [Spec] the notions in which
    the properties are stated.

    Around them: [Records] holds the deletion of records, [Worker] the
    text that [src/worker.js] returns, [FirstClient] the result handler of
    [src/main.js], [Api] the handler of the transcription API and [Remote]
    the client that calls it. The properties of the specification come
    first; further properties of the code follow them.

    Strings are JavaScript strings: sequences of UTF-16 code units; letter
    case is that of the case tables of Unicode, which [JS] holds. Samples,
    rates and the numbers computed from them are rationals: the arithmetic
    of the source is IEEE floating point, and the embedding reads [+], [*],
    [/] and the comparisons as exact. An exception is [None]: of a platform
    function, or of a call whose arguments the engine does not accept. *)

From Stdlib Require Import String Ascii DecimalString DecimalPos DecimalN.
From Stdlib Require Import List NArith ZArith QArith Qabs Qround Bool Lia Lqa Arith.
Import ListNotations.
Close Scope Q_scope.

Set Implicit Arguments.

(* ================================================================== *)
(** * JavaScript strings *)
(* ================================================================== *)

Module JS.

(** A string is the list of its UTF-16 code units. *)
Definition unit := N.
Definition str := list unit.

(** ** String literals

    The literals of the source are written here as UTF-8 text and decoded
    to code units, so that the development shows the same text as the
    source. *)

Fixpoint utf8_points (bs : list N) (need : nat) (acc : N) : list N :=
  match bs with
  | [] => []
  | b :: bs' =>
      match need with
      | O =>
          if (b <? 0x80)%N then b :: utf8_points bs' 0 0%N
          else if (b <? 0xE0)%N then utf8_points bs' 1 (N.land b 0x1F)
          else if (b <? 0xF0)%N then utf8_points bs' 2 (N.land b 0x0F)
          else utf8_points bs' 3 (N.land b 0x07)
      | S O => (acc * 64 + N.land b 0x3F)%N :: utf8_points bs' 0 0%N
      | S n => utf8_points bs' n (acc * 64 + N.land b 0x3F)%N
      end
  end.

Definition utf16_of_point (cp : N) : list unit :=
  if (cp <? 0x10000)%N then [cp]
  else
    let v := (cp - 0x10000)%N in
    [(0xD800 + N.shiftr v 10)%N; (0xDC00 + N.land v 0x3FF)%N].

Fixpoint bytes_of_string (s : string) : list N :=
  match s with
  | EmptyString => []
  | String a s' => N_of_ascii a :: bytes_of_string s'
  end.

Definition lit (s : string) : str :=
  flat_map utf16_of_point (utf8_points (bytes_of_string s) 0 0%N).

(** One-character literals. *)
Definition chr (s : string) : unit := hd 0%N (lit s).

(** ** Equality and prefixes *)

Fixpoint eqb (a b : str) : bool :=
  match a, b with
  | [], [] => true
  | x :: a', y :: b' => (x =? y)%N && eqb a' b'
  | _, _ => false
  end.

(** [startsWith p s]: [s.startsWith(p)]. *)
Fixpoint startsWith (p s : str) : bool :=
  match p, s with
  | [], _ => true
  | x :: p', y :: s' => (x =? y)%N && startsWith p' s'
  | _ :: _, [] => false
  end.

(** [includes s w]: [s.includes(w)], a substring test. *)
Fixpoint includes (s w : str) : bool :=
  startsWith w s ||
  match s with
  | [] => false
  | _ :: s' => includes s' w
  end.

(** [substring s a b] for [a <= b]: the code units at positions [a..b). *)
Definition substring (s : str) (a b : nat) : str := firstn (b - a) (skipn a s).

(** ** Character classes of the regular expressions *)

Definition inRange (lo hi c : unit) : bool := ((lo <=? c) && (c <=? hi))%N.

Fixpoint oneOf (cs : list unit) (c : unit) : bool :=
  match cs with
  | [] => false
  | x :: cs' => (x =? c)%N || oneOf cs' c
  end.

(** Line terminators: LF, CR, LS, PS. *)
Definition isLineTerminator (c : unit) : bool :=
  oneOf [0x0A; 0x0D; 0x2028; 0x2029]%N c.

(** [.] without the [s] flag: any code unit except a line terminator. *)
Definition dot (c : unit) : bool := negb (isLineTerminator c).

(** [\s] (and the characters [trim] strips): WhiteSpace and
    LineTerminator of ECMAScript. *)
Definition isSpace (c : unit) : bool :=
  inRange 0x09%N 0x0D%N c
  || oneOf [0x20; 0xA0; 0x1680; 0x2028; 0x2029; 0x202F; 0x205F; 0x3000; 0xFEFF]%N c
  || inRange 0x2000%N 0x200A%N c.

(** [\S]. *)
Definition nonSpace (c : unit) : bool := negb (isSpace c).

(** [\d]. *)
Definition isDigit (c : unit) : bool := inRange 0x30%N 0x39%N c.

(** ** Runs *)

(** The longest prefix of [s] whose code units satisfy [cls], and what
    follows it. *)
Fixpoint span (cls : unit -> bool) (s : str) : str * str :=
  match s with
  | [] => ([], [])
  | c :: s' =>
      if cls c then let (r, t) := span cls s' in (c :: r, t)
      else ([], s)
  end.

Definition dropWhile (cls : unit -> bool) (s : str) : str := snd (span cls s).

Definition dropWhileEnd (cls : unit -> bool) (s : str) : str :=
  rev (dropWhile cls (rev s)).

(** [s.trim()]. *)
Definition trim (s : str) : str := dropWhileEnd isSpace (dropWhile isSpace s).

(** [l.join(sep)]. *)
Fixpoint join (sep : str) (l : list str) : str :=
  match l with
  | [] => []
  | [x] => x
  | x :: l' => x ++ sep ++ join sep l'
  end.

(** [s.split(/[cls]/)]: the separator is one code unit of the class. The
    empty string splits into one empty piece. *)
Fixpoint splitOn (cls : unit -> bool) (s : str) : list str :=
  match s with
  | [] => [[]]
  | c :: s' =>
      if cls c then [] :: splitOn cls s'
      else match splitOn cls s' with
           | p :: ps => (c :: p) :: ps
           | [] => [[c]]
           end
  end.

(** [s.split(/[cls]+/)]: the separator is a maximal run of the class;
    [prevSep] tells that the code unit before [s] belonged to a separator. *)
Fixpoint splitRuns (cls : unit -> bool) (prevSep : bool) (s : str) : list str :=
  match s with
  | [] => [[]]
  | c :: s' =>
      if cls c then
        if prevSep then splitRuns cls true s' else [] :: splitRuns cls true s'
      else match splitRuns cls false s' with
           | p :: ps => (c :: p) :: ps
           | [] => [[c]]
           end
  end.

(** ** Global replacement of runs: [s.replace(/[cls]{n,}/g, repl)], [n >= 1]

    [skip] counts the code units of [s] that still belong to the match
    replaced last. *)
Fixpoint replaceRuns (cls : unit -> bool) (n : nat) (repl : str)
    (skip : nat) (s : str) : str :=
  match s with
  | [] => []
  | c :: s' =>
      match skip with
      | S k => replaceRuns cls n repl k s'
      | O =>
          let run := length (fst (span cls s)) in
          if (n <=? run) && (1 <=? run)
          then repl ++ replaceRuns cls n repl (run - 1) s'
          else c :: replaceRuns cls n repl 0 s'
      end
  end.

(** ** The repetition pattern [/(.{lo,hi})\1{2,}/]

    [copies n p s]: the number of consecutive copies of the phrase [p] at
    the start of [s], counted up to [n]. *)
Fixpoint copies (n : nat) (p s : str) : nat :=
  match n with
  | O => O
  | S n' =>
      if startsWith p s then S (copies n' p (skipn (length p) s)) else O
  end.

(** One attempt of the pattern at the start of [s]. The group is greedy:
    the phrase lengths [lo + d - 1], ..., [lo] are tried in this order, and
    the first one whose phrase is followed by two copies or more wins; the
    back-reference then takes every copy there is. The result is the
    phrase length and the length of the whole match. *)
Fixpoint loopTry (lo d : nat) (s : str) : option (nat * nat) :=
  match d with
  | O => None
  | S d' =>
      let k := lo + d' in
      let p := firstn k s in
      let c := copies (length s) p (skipn k s) in
      if (k <=? length s) && forallb dot p && (2 <=? c)
      then Some (k, k * S c)
      else loopTry lo d' s
  end.

Definition loopAt (lo hi : nat) (s : str) : option (nat * nat) :=
  loopTry lo (S hi - lo) s.

(** [s.match(/(.{lo,hi})\1{2,}/)]: the leftmost position where an attempt
    succeeds, with the phrase length and the match length found there. *)
Fixpoint loopExec (lo hi : nat) (s : str) : option (nat * (nat * nat)) :=
  match loopAt lo hi s with
  | Some m => Some (O, m)
  | None =>
      match s with
      | [] => None
      | _ :: s' =>
          match loopExec lo hi s' with
          | Some (i, m) => Some (S i, m)
          | None => None
          end
      end
  end.

(** [s.replace(/(.{lo,hi})\1{2,}/g, '$1')]. *)
Fixpoint loopReplace (lo hi : nat) (skip : nat) (s : str) : str :=
  match s with
  | [] => []
  | c :: s' =>
      match skip with
      | S k => loopReplace lo hi k s'
      | O =>
          match loopAt lo hi s with
          | Some (k, m) => firstn k s ++ loopReplace lo hi (m - 1) s'
          | None => c :: loopReplace lo hi 0 s'
          end
      end
  end.

(** ** The word repetition pattern [/(\S+)[\s、]+\1([\s、]+\1)+/]  *)

Definition isWordSep (c : unit) : bool := isSpace c || (c =? chr "、")%N.

Definition sepRun (r : str) : nat := length (fst (span isWordSep r)).

(** [[\s、]+\1] at the start of [r], the separator being tried from [j]
    code units down to one: the length of the separator taken. *)
Fixpoint sepThen (p : str) (j : nat) (r : str) : option nat :=
  match j with
  | O => None
  | S j' => if startsWith p (skipn j r) then Some j else sepThen p j' r
  end.

(** The code units taken by the greedy iterations of [([\s、]+\1)] at the
    start of [r]. *)
Fixpoint tailIters (fuel : nat) (p r : str) : nat :=
  match fuel with
  | O => O
  | S f =>
      match sepThen p (sepRun r) r with
      | Some j => (j + length p) + tailIters f p (skipn (j + length p) r)
      | None => O
      end
  end.

(** After the phrase [p]: a separator of at most [j] code units, [p]
    again, and one iteration or more of the group. *)
Fixpoint firstSep (p : str) (j : nat) (r1 : str) : option nat :=
  match j with
  | O => None
  | S j' =>
      let r2 := skipn j r1 in
      if startsWith p r2 then
        let t := tailIters (length r2) p (skipn (length p) r2) in
        if 1 <=? t then Some (j + length p + t) else firstSep p j' r1
      else firstSep p j' r1
  end.

(** The phrase lengths [l], ..., 1 are tried in this order. *)
Fixpoint wordTry (l : nat) (s : str) : option (nat * nat) :=
  match l with
  | O => None
  | S l' =>
      let p := firstn l s in
      let r1 := skipn l s in
      match firstSep p (sepRun r1) r1 with
      | Some m => Some (l, l + m)
      | None => wordTry l' s
      end
  end.

Definition wordRepeatAt (s : str) : option (nat * nat) :=
  wordTry (length (fst (span nonSpace s))) s.

(** [s.replace(/(\S+)[\s、]+\1([\s、]+\1)+/g, '$1')]. *)
Fixpoint wordReplace (skip : nat) (s : str) : str :=
  match s with
  | [] => []
  | c :: s' =>
      match skip with
      | S k => wordReplace k s'
      | O =>
          match wordRepeatAt s with
          | Some (k, m) => firstn k s ++ wordReplace (m - 1) s'
          | None => c :: wordReplace 0 s'
          end
      end
  end.

(** ** Letter case

    The case tables of the engine are those of the Unicode character
    database, here of Unicode 14.0. A row [(lo, hi, step, to)] of a case
    table maps [lo], [lo + step], ... up to [hi] to [to], [to + step], ...;
    what no row maps is left as it is. *)

Fixpoint caseLookup (rows : list (N * N * N * N)) (c : N) : N :=
  match rows with
  | [] => c
  | (lo, hi, step, to) :: rows' =>
      if inRange lo hi c && ((c - lo) mod step =? 0)%N then (to + (c - lo))%N
      else caseLookup rows' c
  end.

Definition inRanges (ranges : list (N * N)) (c : N) : bool :=
  existsb (fun r => inRange (fst r) (snd r) c) ranges.

(** The code units whose upper case is one other code unit. *)
Definition upperCaseTable : list (N * N * N * N) :=
  [
   (0x61, 0x7A, 1, 0x41); (0xB5, 0xB5, 1, 0x39C); (0xE0, 0xF6, 1, 0xC0); (0xF8, 0xFE, 1, 0xD8);
   (0xFF, 0xFF, 1, 0x178); (0x101, 0x12F, 2, 0x100); (0x131, 0x131, 1, 0x49); (0x133, 0x137, 2, 0x132);
   (0x13A, 0x148, 2, 0x139); (0x14B, 0x177, 2, 0x14A); (0x17A, 0x17E, 2, 0x179); (0x17F, 0x17F, 1, 0x53);
   (0x180, 0x180, 1, 0x243); (0x183, 0x185, 2, 0x182); (0x188, 0x188, 1, 0x187); (0x18C, 0x18C, 1, 0x18B);
   (0x192, 0x192, 1, 0x191); (0x195, 0x195, 1, 0x1F6); (0x199, 0x199, 1, 0x198); (0x19A, 0x19A, 1, 0x23D);
   (0x19E, 0x19E, 1, 0x220); (0x1A1, 0x1A5, 2, 0x1A0); (0x1A8, 0x1A8, 1, 0x1A7); (0x1AD, 0x1AD, 1, 0x1AC);
   (0x1B0, 0x1B0, 1, 0x1AF); (0x1B4, 0x1B6, 2, 0x1B3); (0x1B9, 0x1B9, 1, 0x1B8); (0x1BD, 0x1BD, 1, 0x1BC);
   (0x1BF, 0x1BF, 1, 0x1F7); (0x1C5, 0x1C5, 1, 0x1C4); (0x1C6, 0x1C6, 1, 0x1C4); (0x1C8, 0x1C8, 1, 0x1C7);
   (0x1C9, 0x1C9, 1, 0x1C7); (0x1CB, 0x1CB, 1, 0x1CA); (0x1CC, 0x1CC, 1, 0x1CA); (0x1CE, 0x1DC, 2, 0x1CD);
   (0x1DD, 0x1DD, 1, 0x18E); (0x1DF, 0x1EF, 2, 0x1DE); (0x1F2, 0x1F2, 1, 0x1F1); (0x1F3, 0x1F3, 1, 0x1F1);
   (0x1F5, 0x1F5, 1, 0x1F4); (0x1F9, 0x21F, 2, 0x1F8); (0x223, 0x233, 2, 0x222); (0x23C, 0x23C, 1, 0x23B);
   (0x23F, 0x240, 1, 0x2C7E); (0x242, 0x242, 1, 0x241); (0x247, 0x24F, 2, 0x246); (0x250, 0x250, 1, 0x2C6F);
   (0x251, 0x251, 1, 0x2C6D); (0x252, 0x252, 1, 0x2C70); (0x253, 0x253, 1, 0x181); (0x254, 0x254, 1, 0x186);
   (0x256, 0x257, 1, 0x189); (0x259, 0x259, 1, 0x18F); (0x25B, 0x25B, 1, 0x190); (0x25C, 0x25C, 1, 0xA7AB);
   (0x260, 0x260, 1, 0x193); (0x261, 0x261, 1, 0xA7AC); (0x263, 0x263, 1, 0x194); (0x265, 0x265, 1, 0xA78D);
   (0x266, 0x266, 1, 0xA7AA); (0x268, 0x268, 1, 0x197); (0x269, 0x269, 1, 0x196); (0x26A, 0x26A, 1, 0xA7AE);
   (0x26B, 0x26B, 1, 0x2C62); (0x26C, 0x26C, 1, 0xA7AD); (0x26F, 0x26F, 1, 0x19C); (0x271, 0x271, 1, 0x2C6E);
   (0x272, 0x272, 1, 0x19D); (0x275, 0x275, 1, 0x19F); (0x27D, 0x27D, 1, 0x2C64); (0x280, 0x280, 1, 0x1A6);
   (0x282, 0x282, 1, 0xA7C5); (0x283, 0x283, 1, 0x1A9); (0x287, 0x287, 1, 0xA7B1); (0x288, 0x288, 1, 0x1AE);
   (0x289, 0x289, 1, 0x244); (0x28A, 0x28B, 1, 0x1B1); (0x28C, 0x28C, 1, 0x245); (0x292, 0x292, 1, 0x1B7);
   (0x29D, 0x29D, 1, 0xA7B2); (0x29E, 0x29E, 1, 0xA7B0); (0x345, 0x345, 1, 0x399); (0x371, 0x373, 2, 0x370);
   (0x377, 0x377, 1, 0x376); (0x37B, 0x37D, 1, 0x3FD); (0x3AC, 0x3AC, 1, 0x386); (0x3AD, 0x3AF, 1, 0x388);
   (0x3B1, 0x3C1, 1, 0x391); (0x3C2, 0x3C2, 1, 0x3A3); (0x3C3, 0x3CB, 1, 0x3A3); (0x3CC, 0x3CC, 1, 0x38C);
   (0x3CD, 0x3CE, 1, 0x38E); (0x3D0, 0x3D0, 1, 0x392); (0x3D1, 0x3D1, 1, 0x398); (0x3D5, 0x3D5, 1, 0x3A6);
   (0x3D6, 0x3D6, 1, 0x3A0); (0x3D7, 0x3D7, 1, 0x3CF); (0x3D9, 0x3EF, 2, 0x3D8); (0x3F0, 0x3F0, 1, 0x39A);
   (0x3F1, 0x3F1, 1, 0x3A1); (0x3F2, 0x3F2, 1, 0x3F9); (0x3F3, 0x3F3, 1, 0x37F); (0x3F5, 0x3F5, 1, 0x395);
   (0x3F8, 0x3F8, 1, 0x3F7); (0x3FB, 0x3FB, 1, 0x3FA); (0x430, 0x44F, 1, 0x410); (0x450, 0x45F, 1, 0x400);
   (0x461, 0x481, 2, 0x460); (0x48B, 0x4BF, 2, 0x48A); (0x4C2, 0x4CE, 2, 0x4C1); (0x4CF, 0x4CF, 1, 0x4C0);
   (0x4D1, 0x52F, 2, 0x4D0); (0x561, 0x586, 1, 0x531); (0x10D0, 0x10FA, 1, 0x1C90); (0x10FD, 0x10FF, 1, 0x1CBD);
   (0x13F8, 0x13FD, 1, 0x13F0); (0x1C80, 0x1C80, 1, 0x412); (0x1C81, 0x1C81, 1, 0x414); (0x1C82, 0x1C82, 1, 0x41E);
   (0x1C83, 0x1C84, 1, 0x421); (0x1C85, 0x1C85, 1, 0x422); (0x1C86, 0x1C86, 1, 0x42A); (0x1C87, 0x1C87, 1, 0x462);
   (0x1C88, 0x1C88, 1, 0xA64A); (0x1D79, 0x1D79, 1, 0xA77D); (0x1D7D, 0x1D7D, 1, 0x2C63); (0x1D8E, 0x1D8E, 1, 0xA7C6);
   (0x1E01, 0x1E95, 2, 0x1E00); (0x1E9B, 0x1E9B, 1, 0x1E60); (0x1EA1, 0x1EFF, 2, 0x1EA0); (0x1F00, 0x1F07, 1, 0x1F08);
   (0x1F10, 0x1F15, 1, 0x1F18); (0x1F20, 0x1F27, 1, 0x1F28); (0x1F30, 0x1F37, 1, 0x1F38); (0x1F40, 0x1F45, 1, 0x1F48);
   (0x1F51, 0x1F57, 2, 0x1F59); (0x1F60, 0x1F67, 1, 0x1F68); (0x1F70, 0x1F71, 1, 0x1FBA); (0x1F72, 0x1F75, 1, 0x1FC8);
   (0x1F76, 0x1F77, 1, 0x1FDA); (0x1F78, 0x1F79, 1, 0x1FF8); (0x1F7A, 0x1F7B, 1, 0x1FEA); (0x1F7C, 0x1F7D, 1, 0x1FFA);
   (0x1FB0, 0x1FB1, 1, 0x1FB8); (0x1FBE, 0x1FBE, 1, 0x399); (0x1FD0, 0x1FD1, 1, 0x1FD8); (0x1FE0, 0x1FE1, 1, 0x1FE8);
   (0x1FE5, 0x1FE5, 1, 0x1FEC); (0x214E, 0x214E, 1, 0x2132); (0x2170, 0x217F, 1, 0x2160); (0x2184, 0x2184, 1, 0x2183);
   (0x24D0, 0x24E9, 1, 0x24B6); (0x2C30, 0x2C5F, 1, 0x2C00); (0x2C61, 0x2C61, 1, 0x2C60); (0x2C65, 0x2C65, 1, 0x23A);
   (0x2C66, 0x2C66, 1, 0x23E); (0x2C68, 0x2C6C, 2, 0x2C67); (0x2C73, 0x2C73, 1, 0x2C72); (0x2C76, 0x2C76, 1, 0x2C75);
   (0x2C81, 0x2CE3, 2, 0x2C80); (0x2CEC, 0x2CEE, 2, 0x2CEB); (0x2CF3, 0x2CF3, 1, 0x2CF2); (0x2D00, 0x2D25, 1, 0x10A0);
   (0x2D27, 0x2D27, 1, 0x10C7); (0x2D2D, 0x2D2D, 1, 0x10CD); (0xA641, 0xA66D, 2, 0xA640); (0xA681, 0xA69B, 2, 0xA680);
   (0xA723, 0xA72F, 2, 0xA722); (0xA733, 0xA76F, 2, 0xA732); (0xA77A, 0xA77C, 2, 0xA779); (0xA77F, 0xA787, 2, 0xA77E);
   (0xA78C, 0xA78C, 1, 0xA78B); (0xA791, 0xA793, 2, 0xA790); (0xA794, 0xA794, 1, 0xA7C4); (0xA797, 0xA7A9, 2, 0xA796);
   (0xA7B5, 0xA7C3, 2, 0xA7B4); (0xA7C8, 0xA7CA, 2, 0xA7C7); (0xA7D1, 0xA7D1, 1, 0xA7D0); (0xA7D7, 0xA7D9, 2, 0xA7D6);
   (0xA7F6, 0xA7F6, 1, 0xA7F5); (0xAB53, 0xAB53, 1, 0xA7B3); (0xAB70, 0xABBF, 1, 0x13A0); (0xFF41, 0xFF5A, 1, 0xFF21)
  ]%N.

(** The code points whose lower case is one other code point. *)
Definition lowerCaseTable : list (N * N * N * N) :=
  [
   (0x41, 0x5A, 1, 0x61); (0xC0, 0xD6, 1, 0xE0); (0xD8, 0xDE, 1, 0xF8); (0x100, 0x12E, 2, 0x101);
   (0x132, 0x136, 2, 0x133); (0x139, 0x147, 2, 0x13A); (0x14A, 0x176, 2, 0x14B); (0x178, 0x178, 1, 0xFF);
   (0x179, 0x17D, 2, 0x17A); (0x181, 0x181, 1, 0x253); (0x182, 0x184, 2, 0x183); (0x186, 0x186, 1, 0x254);
   (0x187, 0x187, 1, 0x188); (0x189, 0x18A, 1, 0x256); (0x18B, 0x18B, 1, 0x18C); (0x18E, 0x18E, 1, 0x1DD);
   (0x18F, 0x18F, 1, 0x259); (0x190, 0x190, 1, 0x25B); (0x191, 0x191, 1, 0x192); (0x193, 0x193, 1, 0x260);
   (0x194, 0x194, 1, 0x263); (0x196, 0x196, 1, 0x269); (0x197, 0x197, 1, 0x268); (0x198, 0x198, 1, 0x199);
   (0x19C, 0x19C, 1, 0x26F); (0x19D, 0x19D, 1, 0x272); (0x19F, 0x19F, 1, 0x275); (0x1A0, 0x1A4, 2, 0x1A1);
   (0x1A6, 0x1A6, 1, 0x280); (0x1A7, 0x1A7, 1, 0x1A8); (0x1A9, 0x1A9, 1, 0x283); (0x1AC, 0x1AC, 1, 0x1AD);
   (0x1AE, 0x1AE, 1, 0x288); (0x1AF, 0x1AF, 1, 0x1B0); (0x1B1, 0x1B2, 1, 0x28A); (0x1B3, 0x1B5, 2, 0x1B4);
   (0x1B7, 0x1B7, 1, 0x292); (0x1B8, 0x1B8, 1, 0x1B9); (0x1BC, 0x1BC, 1, 0x1BD); (0x1C4, 0x1C4, 1, 0x1C6);
   (0x1C5, 0x1C5, 1, 0x1C6); (0x1C7, 0x1C7, 1, 0x1C9); (0x1C8, 0x1C8, 1, 0x1C9); (0x1CA, 0x1CA, 1, 0x1CC);
   (0x1CB, 0x1DB, 2, 0x1CC); (0x1DE, 0x1EE, 2, 0x1DF); (0x1F1, 0x1F1, 1, 0x1F3); (0x1F2, 0x1F4, 2, 0x1F3);
   (0x1F6, 0x1F6, 1, 0x195); (0x1F7, 0x1F7, 1, 0x1BF); (0x1F8, 0x21E, 2, 0x1F9); (0x220, 0x220, 1, 0x19E);
   (0x222, 0x232, 2, 0x223); (0x23A, 0x23A, 1, 0x2C65); (0x23B, 0x23B, 1, 0x23C); (0x23D, 0x23D, 1, 0x19A);
   (0x23E, 0x23E, 1, 0x2C66); (0x241, 0x241, 1, 0x242); (0x243, 0x243, 1, 0x180); (0x244, 0x244, 1, 0x289);
   (0x245, 0x245, 1, 0x28C); (0x246, 0x24E, 2, 0x247); (0x370, 0x372, 2, 0x371); (0x376, 0x376, 1, 0x377);
   (0x37F, 0x37F, 1, 0x3F3); (0x386, 0x386, 1, 0x3AC); (0x388, 0x38A, 1, 0x3AD); (0x38C, 0x38C, 1, 0x3CC);
   (0x38E, 0x38F, 1, 0x3CD); (0x391, 0x3A1, 1, 0x3B1); (0x3A3, 0x3AB, 1, 0x3C3); (0x3CF, 0x3CF, 1, 0x3D7);
   (0x3D8, 0x3EE, 2, 0x3D9); (0x3F4, 0x3F4, 1, 0x3B8); (0x3F7, 0x3F7, 1, 0x3F8); (0x3F9, 0x3F9, 1, 0x3F2);
   (0x3FA, 0x3FA, 1, 0x3FB); (0x3FD, 0x3FF, 1, 0x37B); (0x400, 0x40F, 1, 0x450); (0x410, 0x42F, 1, 0x430);
   (0x460, 0x480, 2, 0x461); (0x48A, 0x4BE, 2, 0x48B); (0x4C0, 0x4C0, 1, 0x4CF); (0x4C1, 0x4CD, 2, 0x4C2);
   (0x4D0, 0x52E, 2, 0x4D1); (0x531, 0x556, 1, 0x561); (0x10A0, 0x10C5, 1, 0x2D00); (0x10C7, 0x10C7, 1, 0x2D27);
   (0x10CD, 0x10CD, 1, 0x2D2D); (0x13A0, 0x13EF, 1, 0xAB70); (0x13F0, 0x13F5, 1, 0x13F8); (0x1C90, 0x1CBA, 1, 0x10D0);
   (0x1CBD, 0x1CBF, 1, 0x10FD); (0x1E00, 0x1E94, 2, 0x1E01); (0x1E9E, 0x1E9E, 1, 0xDF); (0x1EA0, 0x1EFE, 2, 0x1EA1);
   (0x1F08, 0x1F0F, 1, 0x1F00); (0x1F18, 0x1F1D, 1, 0x1F10); (0x1F28, 0x1F2F, 1, 0x1F20); (0x1F38, 0x1F3F, 1, 0x1F30);
   (0x1F48, 0x1F4D, 1, 0x1F40); (0x1F59, 0x1F5F, 2, 0x1F51); (0x1F68, 0x1F6F, 1, 0x1F60); (0x1F88, 0x1F8F, 1, 0x1F80);
   (0x1F98, 0x1F9F, 1, 0x1F90); (0x1FA8, 0x1FAF, 1, 0x1FA0); (0x1FB8, 0x1FB9, 1, 0x1FB0); (0x1FBA, 0x1FBB, 1, 0x1F70);
   (0x1FBC, 0x1FBC, 1, 0x1FB3); (0x1FC8, 0x1FCB, 1, 0x1F72); (0x1FCC, 0x1FCC, 1, 0x1FC3); (0x1FD8, 0x1FD9, 1, 0x1FD0);
   (0x1FDA, 0x1FDB, 1, 0x1F76); (0x1FE8, 0x1FE9, 1, 0x1FE0); (0x1FEA, 0x1FEB, 1, 0x1F7A); (0x1FEC, 0x1FEC, 1, 0x1FE5);
   (0x1FF8, 0x1FF9, 1, 0x1F78); (0x1FFA, 0x1FFB, 1, 0x1F7C); (0x1FFC, 0x1FFC, 1, 0x1FF3); (0x2126, 0x2126, 1, 0x3C9);
   (0x212A, 0x212A, 1, 0x6B); (0x212B, 0x212B, 1, 0xE5); (0x2132, 0x2132, 1, 0x214E); (0x2160, 0x216F, 1, 0x2170);
   (0x2183, 0x2183, 1, 0x2184); (0x24B6, 0x24CF, 1, 0x24D0); (0x2C00, 0x2C2F, 1, 0x2C30); (0x2C60, 0x2C60, 1, 0x2C61);
   (0x2C62, 0x2C62, 1, 0x26B); (0x2C63, 0x2C63, 1, 0x1D7D); (0x2C64, 0x2C64, 1, 0x27D); (0x2C67, 0x2C6B, 2, 0x2C68);
   (0x2C6D, 0x2C6D, 1, 0x251); (0x2C6E, 0x2C6E, 1, 0x271); (0x2C6F, 0x2C6F, 1, 0x250); (0x2C70, 0x2C70, 1, 0x252);
   (0x2C72, 0x2C72, 1, 0x2C73); (0x2C75, 0x2C75, 1, 0x2C76); (0x2C7E, 0x2C7F, 1, 0x23F); (0x2C80, 0x2CE2, 2, 0x2C81);
   (0x2CEB, 0x2CED, 2, 0x2CEC); (0x2CF2, 0x2CF2, 1, 0x2CF3); (0xA640, 0xA66C, 2, 0xA641); (0xA680, 0xA69A, 2, 0xA681);
   (0xA722, 0xA72E, 2, 0xA723); (0xA732, 0xA76E, 2, 0xA733); (0xA779, 0xA77B, 2, 0xA77A); (0xA77D, 0xA77D, 1, 0x1D79);
   (0xA77E, 0xA786, 2, 0xA77F); (0xA78B, 0xA78B, 1, 0xA78C); (0xA78D, 0xA78D, 1, 0x265); (0xA790, 0xA792, 2, 0xA791);
   (0xA796, 0xA7A8, 2, 0xA797); (0xA7AA, 0xA7AA, 1, 0x266); (0xA7AB, 0xA7AB, 1, 0x25C); (0xA7AC, 0xA7AC, 1, 0x261);
   (0xA7AD, 0xA7AD, 1, 0x26C); (0xA7AE, 0xA7AE, 1, 0x26A); (0xA7B0, 0xA7B0, 1, 0x29E); (0xA7B1, 0xA7B1, 1, 0x287);
   (0xA7B2, 0xA7B2, 1, 0x29D); (0xA7B3, 0xA7B3, 1, 0xAB53); (0xA7B4, 0xA7C2, 2, 0xA7B5); (0xA7C4, 0xA7C4, 1, 0xA794);
   (0xA7C5, 0xA7C5, 1, 0x282); (0xA7C6, 0xA7C6, 1, 0x1D8E); (0xA7C7, 0xA7C9, 2, 0xA7C8); (0xA7D0, 0xA7D0, 1, 0xA7D1);
   (0xA7D6, 0xA7D8, 2, 0xA7D7); (0xA7F5, 0xA7F5, 1, 0xA7F6); (0xFF21, 0xFF3A, 1, 0xFF41); (0x10400, 0x10427, 1, 0x10428);
   (0x104B0, 0x104D3, 1, 0x104D8); (0x10570, 0x1057A, 1, 0x10597); (0x1057C, 0x1058A, 1, 0x105A3); (0x1058C, 0x10592, 1, 0x105B3);
   (0x10594, 0x10595, 1, 0x105BB); (0x10C80, 0x10CB2, 1, 0x10CC0); (0x118A0, 0x118BF, 1, 0x118C0); (0x16E40, 0x16E5F, 1, 0x16E60);
   (0x1E900, 0x1E921, 1, 0x1E922)
  ]%N.

(** The cased code points, as ranges; the ones that are case-ignorable as
    well are left out, since the scan for a final sigma passes over them. *)
Definition casedTable : list (N * N) :=
  [
   (0x41, 0x5A); (0x61, 0x7A); (0xAA, 0xAA); (0xB5, 0xB5); (0xBA, 0xBA); (0xC0, 0xD6);
   (0xD8, 0xF6); (0xF8, 0x1BA); (0x1BC, 0x1BF); (0x1C4, 0x293); (0x295, 0x2AF); (0x370, 0x373);
   (0x376, 0x377); (0x37B, 0x37D); (0x37F, 0x37F); (0x386, 0x386); (0x388, 0x38A); (0x38C, 0x38C);
   (0x38E, 0x3A1); (0x3A3, 0x3F5); (0x3F7, 0x481); (0x48A, 0x52F); (0x531, 0x556); (0x560, 0x588);
   (0x10A0, 0x10C5); (0x10C7, 0x10C7); (0x10CD, 0x10CD); (0x10D0, 0x10FA); (0x10FD, 0x10FF); (0x13A0, 0x13F5);
   (0x13F8, 0x13FD); (0x1C80, 0x1C88); (0x1C90, 0x1CBA); (0x1CBD, 0x1CBF); (0x1D00, 0x1D2B); (0x1D6B, 0x1D77);
   (0x1D79, 0x1D9A); (0x1E00, 0x1F15); (0x1F18, 0x1F1D); (0x1F20, 0x1F45); (0x1F48, 0x1F4D); (0x1F50, 0x1F57);
   (0x1F59, 0x1F59); (0x1F5B, 0x1F5B); (0x1F5D, 0x1F5D); (0x1F5F, 0x1F7D); (0x1F80, 0x1FB4); (0x1FB6, 0x1FBC);
   (0x1FBE, 0x1FBE); (0x1FC2, 0x1FC4); (0x1FC6, 0x1FCC); (0x1FD0, 0x1FD3); (0x1FD6, 0x1FDB); (0x1FE0, 0x1FEC);
   (0x1FF2, 0x1FF4); (0x1FF6, 0x1FFC); (0x2102, 0x2102); (0x2107, 0x2107); (0x210A, 0x2113); (0x2115, 0x2115);
   (0x2119, 0x211D); (0x2124, 0x2124); (0x2126, 0x2126); (0x2128, 0x2128); (0x212A, 0x212D); (0x212F, 0x2134);
   (0x2139, 0x2139); (0x213C, 0x213F); (0x2145, 0x2149); (0x214E, 0x214E); (0x2160, 0x217F); (0x2183, 0x2184);
   (0x24B6, 0x24E9); (0x2C00, 0x2C7B); (0x2C7E, 0x2CE4); (0x2CEB, 0x2CEE); (0x2CF2, 0x2CF3); (0x2D00, 0x2D25);
   (0x2D27, 0x2D27); (0x2D2D, 0x2D2D); (0xA640, 0xA66D); (0xA680, 0xA69B); (0xA722, 0xA76F); (0xA771, 0xA787);
   (0xA78B, 0xA78E); (0xA790, 0xA7CA); (0xA7D0, 0xA7D1); (0xA7D3, 0xA7D3); (0xA7D5, 0xA7D9); (0xA7F5, 0xA7F6);
   (0xA7FA, 0xA7FA); (0xAB30, 0xAB5A); (0xAB60, 0xAB68); (0xAB70, 0xABBF); (0xFB00, 0xFB06); (0xFB13, 0xFB17);
   (0xFF21, 0xFF3A); (0xFF41, 0xFF5A); (0x10400, 0x1044F); (0x104B0, 0x104D3); (0x104D8, 0x104FB); (0x10570, 0x1057A);
   (0x1057C, 0x1058A); (0x1058C, 0x10592); (0x10594, 0x10595); (0x10597, 0x105A1); (0x105A3, 0x105B1); (0x105B3, 0x105B9);
   (0x105BB, 0x105BC); (0x10C80, 0x10CB2); (0x10CC0, 0x10CF2); (0x118A0, 0x118DF); (0x16E40, 0x16E7F); (0x1D400, 0x1D454);
   (0x1D456, 0x1D49C); (0x1D49E, 0x1D49F); (0x1D4A2, 0x1D4A2); (0x1D4A5, 0x1D4A6); (0x1D4A9, 0x1D4AC); (0x1D4AE, 0x1D4B9);
   (0x1D4BB, 0x1D4BB); (0x1D4BD, 0x1D4C3); (0x1D4C5, 0x1D505); (0x1D507, 0x1D50A); (0x1D50D, 0x1D514); (0x1D516, 0x1D51C);
   (0x1D51E, 0x1D539); (0x1D53B, 0x1D53E); (0x1D540, 0x1D544); (0x1D546, 0x1D546); (0x1D54A, 0x1D550); (0x1D552, 0x1D6A5);
   (0x1D6A8, 0x1D6C0); (0x1D6C2, 0x1D6DA); (0x1D6DC, 0x1D6FA); (0x1D6FC, 0x1D714); (0x1D716, 0x1D734); (0x1D736, 0x1D74E);
   (0x1D750, 0x1D76E); (0x1D770, 0x1D788); (0x1D78A, 0x1D7A8); (0x1D7AA, 0x1D7C2); (0x1D7C4, 0x1D7CB); (0x1DF00, 0x1DF09);
   (0x1DF0B, 0x1DF1E); (0x1E900, 0x1E943); (0x1F130, 0x1F149); (0x1F150, 0x1F169); (0x1F170, 0x1F189)
  ]%N.

(** The case-ignorable code points, as ranges. *)
Definition caseIgnorableTable : list (N * N) :=
  [
   (0x27, 0x27); (0x2E, 0x2E); (0x3A, 0x3A); (0x5E, 0x5E); (0x60, 0x60); (0xA8, 0xA8);
   (0xAD, 0xAD); (0xAF, 0xAF); (0xB4, 0xB4); (0xB7, 0xB8); (0x2B0, 0x36F); (0x374, 0x375);
   (0x37A, 0x37A); (0x384, 0x385); (0x387, 0x387); (0x483, 0x489); (0x559, 0x559); (0x55F, 0x55F);
   (0x591, 0x5BD); (0x5BF, 0x5BF); (0x5C1, 0x5C2); (0x5C4, 0x5C5); (0x5C7, 0x5C7); (0x5F4, 0x5F4);
   (0x600, 0x605); (0x610, 0x61A); (0x61C, 0x61C); (0x640, 0x640); (0x64B, 0x65F); (0x670, 0x670);
   (0x6D6, 0x6DD); (0x6DF, 0x6E8); (0x6EA, 0x6ED); (0x70F, 0x70F); (0x711, 0x711); (0x730, 0x74A);
   (0x7A6, 0x7B0); (0x7EB, 0x7F5); (0x7FA, 0x7FA); (0x7FD, 0x7FD); (0x816, 0x82D); (0x859, 0x85B);
   (0x888, 0x888); (0x890, 0x891); (0x898, 0x89F); (0x8C9, 0x902); (0x93A, 0x93A); (0x93C, 0x93C);
   (0x941, 0x948); (0x94D, 0x94D); (0x951, 0x957); (0x962, 0x963); (0x971, 0x971); (0x981, 0x981);
   (0x9BC, 0x9BC); (0x9C1, 0x9C4); (0x9CD, 0x9CD); (0x9E2, 0x9E3); (0x9FE, 0x9FE); (0xA01, 0xA02);
   (0xA3C, 0xA3C); (0xA41, 0xA42); (0xA47, 0xA48); (0xA4B, 0xA4D); (0xA51, 0xA51); (0xA70, 0xA71);
   (0xA75, 0xA75); (0xA81, 0xA82); (0xABC, 0xABC); (0xAC1, 0xAC5); (0xAC7, 0xAC8); (0xACD, 0xACD);
   (0xAE2, 0xAE3); (0xAFA, 0xAFF); (0xB01, 0xB01); (0xB3C, 0xB3C); (0xB3F, 0xB3F); (0xB41, 0xB44);
   (0xB4D, 0xB4D); (0xB55, 0xB56); (0xB62, 0xB63); (0xB82, 0xB82); (0xBC0, 0xBC0); (0xBCD, 0xBCD);
   (0xC00, 0xC00); (0xC04, 0xC04); (0xC3C, 0xC3C); (0xC3E, 0xC40); (0xC46, 0xC48); (0xC4A, 0xC4D);
   (0xC55, 0xC56); (0xC62, 0xC63); (0xC81, 0xC81); (0xCBC, 0xCBC); (0xCBF, 0xCBF); (0xCC6, 0xCC6);
   (0xCCC, 0xCCD); (0xCE2, 0xCE3); (0xD00, 0xD01); (0xD3B, 0xD3C); (0xD41, 0xD44); (0xD4D, 0xD4D);
   (0xD62, 0xD63); (0xD81, 0xD81); (0xDCA, 0xDCA); (0xDD2, 0xDD4); (0xDD6, 0xDD6); (0xE31, 0xE31);
   (0xE34, 0xE3A); (0xE46, 0xE4E); (0xEB1, 0xEB1); (0xEB4, 0xEBC); (0xEC6, 0xEC6); (0xEC8, 0xECD);
   (0xF18, 0xF19); (0xF35, 0xF35); (0xF37, 0xF37); (0xF39, 0xF39); (0xF71, 0xF7E); (0xF80, 0xF84);
   (0xF86, 0xF87); (0xF8D, 0xF97); (0xF99, 0xFBC); (0xFC6, 0xFC6); (0x102D, 0x1030); (0x1032, 0x1037);
   (0x1039, 0x103A); (0x103D, 0x103E); (0x1058, 0x1059); (0x105E, 0x1060); (0x1071, 0x1074); (0x1082, 0x1082);
   (0x1085, 0x1086); (0x108D, 0x108D); (0x109D, 0x109D); (0x10FC, 0x10FC); (0x135D, 0x135F); (0x1712, 0x1714);
   (0x1732, 0x1733); (0x1752, 0x1753); (0x1772, 0x1773); (0x17B4, 0x17B5); (0x17B7, 0x17BD); (0x17C6, 0x17C6);
   (0x17C9, 0x17D3); (0x17D7, 0x17D7); (0x17DD, 0x17DD); (0x180B, 0x180F); (0x1843, 0x1843); (0x1885, 0x1886);
   (0x18A9, 0x18A9); (0x1920, 0x1922); (0x1927, 0x1928); (0x1932, 0x1932); (0x1939, 0x193B); (0x1A17, 0x1A18);
   (0x1A1B, 0x1A1B); (0x1A56, 0x1A56); (0x1A58, 0x1A5E); (0x1A60, 0x1A60); (0x1A62, 0x1A62); (0x1A65, 0x1A6C);
   (0x1A73, 0x1A7C); (0x1A7F, 0x1A7F); (0x1AA7, 0x1AA7); (0x1AB0, 0x1ACE); (0x1B00, 0x1B03); (0x1B34, 0x1B34);
   (0x1B36, 0x1B3A); (0x1B3C, 0x1B3C); (0x1B42, 0x1B42); (0x1B6B, 0x1B73); (0x1B80, 0x1B81); (0x1BA2, 0x1BA5);
   (0x1BA8, 0x1BA9); (0x1BAB, 0x1BAD); (0x1BE6, 0x1BE6); (0x1BE8, 0x1BE9); (0x1BED, 0x1BED); (0x1BEF, 0x1BF1);
   (0x1C2C, 0x1C33); (0x1C36, 0x1C37); (0x1C78, 0x1C7D); (0x1CD0, 0x1CD2); (0x1CD4, 0x1CE0); (0x1CE2, 0x1CE8);
   (0x1CED, 0x1CED); (0x1CF4, 0x1CF4); (0x1CF8, 0x1CF9); (0x1D2C, 0x1D6A); (0x1D78, 0x1D78); (0x1D9B, 0x1DFF);
   (0x1FBD, 0x1FBD); (0x1FBF, 0x1FC1); (0x1FCD, 0x1FCF); (0x1FDD, 0x1FDF); (0x1FED, 0x1FEF); (0x1FFD, 0x1FFE);
   (0x200B, 0x200F); (0x2018, 0x2019); (0x2024, 0x2024); (0x2027, 0x2027); (0x202A, 0x202E); (0x2060, 0x2064);
   (0x2066, 0x206F); (0x2071, 0x2071); (0x207F, 0x207F); (0x2090, 0x209C); (0x20D0, 0x20F0); (0x2C7C, 0x2C7D);
   (0x2CEF, 0x2CF1); (0x2D6F, 0x2D6F); (0x2D7F, 0x2D7F); (0x2DE0, 0x2DFF); (0x2E2F, 0x2E2F); (0x3005, 0x3005);
   (0x302A, 0x302D); (0x3031, 0x3035); (0x303B, 0x303B); (0x3099, 0x309E); (0x30FC, 0x30FE); (0xA015, 0xA015);
   (0xA4F8, 0xA4FD); (0xA60C, 0xA60C); (0xA66F, 0xA672); (0xA674, 0xA67D); (0xA67F, 0xA67F); (0xA69C, 0xA69F);
   (0xA6F0, 0xA6F1); (0xA700, 0xA721); (0xA770, 0xA770); (0xA788, 0xA78A); (0xA7F2, 0xA7F4); (0xA7F8, 0xA7F9);
   (0xA802, 0xA802); (0xA806, 0xA806); (0xA80B, 0xA80B); (0xA825, 0xA826); (0xA82C, 0xA82C); (0xA8C4, 0xA8C5);
   (0xA8E0, 0xA8F1); (0xA8FF, 0xA8FF); (0xA926, 0xA92D); (0xA947, 0xA951); (0xA980, 0xA982); (0xA9B3, 0xA9B3);
   (0xA9B6, 0xA9B9); (0xA9BC, 0xA9BD); (0xA9CF, 0xA9CF); (0xA9E5, 0xA9E6); (0xAA29, 0xAA2E); (0xAA31, 0xAA32);
   (0xAA35, 0xAA36); (0xAA43, 0xAA43); (0xAA4C, 0xAA4C); (0xAA70, 0xAA70); (0xAA7C, 0xAA7C); (0xAAB0, 0xAAB0);
   (0xAAB2, 0xAAB4); (0xAAB7, 0xAAB8); (0xAABE, 0xAABF); (0xAAC1, 0xAAC1); (0xAADD, 0xAADD); (0xAAEC, 0xAAED);
   (0xAAF3, 0xAAF4); (0xAAF6, 0xAAF6); (0xAB5B, 0xAB5F); (0xAB69, 0xAB6B); (0xABE5, 0xABE5); (0xABE8, 0xABE8);
   (0xABED, 0xABED); (0xFB1E, 0xFB1E); (0xFBB2, 0xFBC2); (0xFE00, 0xFE0F); (0xFE13, 0xFE13); (0xFE20, 0xFE2F);
   (0xFE52, 0xFE52); (0xFE55, 0xFE55); (0xFEFF, 0xFEFF); (0xFF07, 0xFF07); (0xFF0E, 0xFF0E); (0xFF1A, 0xFF1A);
   (0xFF3E, 0xFF3E); (0xFF40, 0xFF40); (0xFF70, 0xFF70); (0xFF9E, 0xFF9F); (0xFFE3, 0xFFE3); (0xFFF9, 0xFFFB);
   (0x101FD, 0x101FD); (0x102E0, 0x102E0); (0x10376, 0x1037A); (0x10780, 0x10785); (0x10787, 0x107B0); (0x107B2, 0x107BA);
   (0x10A01, 0x10A03); (0x10A05, 0x10A06); (0x10A0C, 0x10A0F); (0x10A38, 0x10A3A); (0x10A3F, 0x10A3F); (0x10AE5, 0x10AE6);
   (0x10D24, 0x10D27); (0x10EAB, 0x10EAC); (0x10F46, 0x10F50); (0x10F82, 0x10F85); (0x11001, 0x11001); (0x11038, 0x11046);
   (0x11070, 0x11070); (0x11073, 0x11074); (0x1107F, 0x11081); (0x110B3, 0x110B6); (0x110B9, 0x110BA); (0x110BD, 0x110BD);
   (0x110C2, 0x110C2); (0x110CD, 0x110CD); (0x11100, 0x11102); (0x11127, 0x1112B); (0x1112D, 0x11134); (0x11173, 0x11173);
   (0x11180, 0x11181); (0x111B6, 0x111BE); (0x111C9, 0x111CC); (0x111CF, 0x111CF); (0x1122F, 0x11231); (0x11234, 0x11234);
   (0x11236, 0x11237); (0x1123E, 0x1123E); (0x112DF, 0x112DF); (0x112E3, 0x112EA); (0x11300, 0x11301); (0x1133B, 0x1133C);
   (0x11340, 0x11340); (0x11366, 0x1136C); (0x11370, 0x11374); (0x11438, 0x1143F); (0x11442, 0x11444); (0x11446, 0x11446);
   (0x1145E, 0x1145E); (0x114B3, 0x114B8); (0x114BA, 0x114BA); (0x114BF, 0x114C0); (0x114C2, 0x114C3); (0x115B2, 0x115B5);
   (0x115BC, 0x115BD); (0x115BF, 0x115C0); (0x115DC, 0x115DD); (0x11633, 0x1163A); (0x1163D, 0x1163D); (0x1163F, 0x11640);
   (0x116AB, 0x116AB); (0x116AD, 0x116AD); (0x116B0, 0x116B5); (0x116B7, 0x116B7); (0x1171D, 0x1171F); (0x11722, 0x11725);
   (0x11727, 0x1172B); (0x1182F, 0x11837); (0x11839, 0x1183A); (0x1193B, 0x1193C); (0x1193E, 0x1193E); (0x11943, 0x11943);
   (0x119D4, 0x119D7); (0x119DA, 0x119DB); (0x119E0, 0x119E0); (0x11A01, 0x11A0A); (0x11A33, 0x11A38); (0x11A3B, 0x11A3E);
   (0x11A47, 0x11A47); (0x11A51, 0x11A56); (0x11A59, 0x11A5B); (0x11A8A, 0x11A96); (0x11A98, 0x11A99); (0x11C30, 0x11C36);
   (0x11C38, 0x11C3D); (0x11C3F, 0x11C3F); (0x11C92, 0x11CA7); (0x11CAA, 0x11CB0); (0x11CB2, 0x11CB3); (0x11CB5, 0x11CB6);
   (0x11D31, 0x11D36); (0x11D3A, 0x11D3A); (0x11D3C, 0x11D3D); (0x11D3F, 0x11D45); (0x11D47, 0x11D47); (0x11D90, 0x11D91);
   (0x11D95, 0x11D95); (0x11D97, 0x11D97); (0x11EF3, 0x11EF4); (0x13430, 0x13438); (0x16AF0, 0x16AF4); (0x16B30, 0x16B36);
   (0x16B40, 0x16B43); (0x16F4F, 0x16F4F); (0x16F8F, 0x16F9F); (0x16FE0, 0x16FE1); (0x16FE3, 0x16FE4); (0x1AFF0, 0x1AFF3);
   (0x1AFF5, 0x1AFFB); (0x1AFFD, 0x1AFFE); (0x1BC9D, 0x1BC9E); (0x1BCA0, 0x1BCA3); (0x1CF00, 0x1CF2D); (0x1CF30, 0x1CF46);
   (0x1D167, 0x1D169); (0x1D173, 0x1D182); (0x1D185, 0x1D18B); (0x1D1AA, 0x1D1AD); (0x1D242, 0x1D244); (0x1DA00, 0x1DA36);
   (0x1DA3B, 0x1DA6C); (0x1DA75, 0x1DA75); (0x1DA84, 0x1DA84); (0x1DA9B, 0x1DA9F); (0x1DAA1, 0x1DAAF); (0x1E000, 0x1E006);
   (0x1E008, 0x1E018); (0x1E01B, 0x1E021); (0x1E023, 0x1E024); (0x1E026, 0x1E02A); (0x1E130, 0x1E13D); (0x1E2AE, 0x1E2AE);
   (0x1E2EC, 0x1E2EF); (0x1E8D0, 0x1E8D6); (0x1E944, 0x1E94B); (0x1F3FB, 0x1F3FF); (0xE0001, 0xE0001); (0xE0020, 0xE007F);
   (0xE0100, 0xE01EF)
  ]%N.

(** ** Case-insensitive literal patterns

    [canonicalize] is the Canonicalize operation of a pattern with the [i]
    flag and without the [u] flag: the upper case of the code unit, unless
    that is not a single code unit or maps a non-ASCII unit to ASCII. *)
Definition canonicalize (c : unit) : unit :=
  let cu := caseLookup upperCaseTable c in
  if (128 <=? c)%N && (cu <? 128)%N then c else cu.

(** ** [s.toLowerCase()]

    The string is read as code points: a high surrogate followed by a low
    one is one code point, any other code unit is one by itself. *)
Fixpoint codePoints (s : str) : list N :=
  match s with
  | [] => []
  | c :: s' =>
      match s' with
      | d :: s'' =>
          if inRange 0xD800%N 0xDBFF%N c && inRange 0xDC00%N 0xDFFF%N d
          then (0x10000 + (c - 0xD800) * 0x400 + (d - 0xDC00))%N :: codePoints s''
          else c :: codePoints s'
      | [] => [c]
      end
  end.

(** The first code point of [ps] that is not case-ignorable is a cased
    letter. *)
Fixpoint casedNext (ps : list N) : bool :=
  match ps with
  | [] => false
  | p :: ps' =>
      if inRanges caseIgnorableTable p then casedNext ps'
      else inRanges casedTable p
  end.

(** The lower case of the code points [ps]; [before] holds, the nearest
    first, the code points before them. A capital sigma becomes the final
    sigma when a cased letter comes before it and none comes after it,
    case-ignorable code points apart; the capital I with a dot above
    becomes an i and a combining dot; every other code point has the lower
    case of the table. *)
Fixpoint lowerPoints (before ps : list N) : list N :=
  match ps with
  | [] => []
  | p :: ps' =>
      (if (p =? 0x3A3)%N then
         [if casedNext before && negb (casedNext ps') then 0x3C2%N else 0x3C3%N]
       else if (p =? 0x130)%N then [0x69%N; 0x307%N]
       else [caseLookup lowerCaseTable p])
      ++ lowerPoints (p :: before) ps'
  end.

Definition toLowerCase (s : str) : str :=
  flat_map utf16_of_point (lowerPoints [] (codePoints s)).

Fixpoint startsWithCI (p s : str) : bool :=
  match p, s with
  | [], _ => true
  | x :: p', y :: s' =>
      (canonicalize x =? canonicalize y)%N && startsWithCI p' s'
  | _ :: _, [] => false
  end.

(** The replacement text of [String.prototype.replace] for a pattern
    without capture groups: [$$], [$&], [$`] and [$'] are expanded. *)
Fixpoint substitute (tmpl matched before after : str) : str :=
  match tmpl with
  | [] => []
  | c :: t =>
      if (c =? chr "$")%N then
        match t with
        | d :: t' =>
            if (d =? chr "$")%N then chr "$" :: substitute t' matched before after
            else if (d =? chr "&")%N then matched ++ substitute t' matched before after
            else if (d =? chr "`")%N then before ++ substitute t' matched before after
            else if (d =? chr "'")%N then after ++ substitute t' matched before after
            else c :: substitute t matched before after
        | [] => [c]
        end
      else c :: substitute t matched before after
  end.

(** [s.replace(new RegExp(escapeRegExp(w), 'gi'), tmpl)] for a non-empty
    [w]; [pre] holds, reversed, the part of the subject before [s]. *)
Fixpoint replaceAllCI (w tmpl : str) (pre : str) (skip : nat) (s : str) : str :=
  match s with
  | [] => []
  | c :: s' =>
      match skip with
      | S k => replaceAllCI w tmpl (c :: pre) k s'
      | O =>
          if startsWithCI w s then
            substitute tmpl (firstn (length w) s) (rev pre) (skipn (length w) s)
              ++ replaceAllCI w tmpl (c :: pre) (length w - 1) s'
          else c :: replaceAllCI w tmpl (c :: pre) 0 s'
      end
  end.

End JS.

(* ================================================================== *)
(** * Numbers and audio buffers *)
(* ================================================================== *)

Module Audio.
Local Open Scope Q_scope.

Definition Qltb (a b : Q) : bool := negb (Qle_bool b a).

(** [Math.floor] and [Math.round] (halves go up). *)
Definition Math_floor (x : Q) : Z := Qfloor x.
Definition Math_round (x : Q) : Z := Qfloor (x + (1 # 2)).

(** The result of [Math.sqrt]: the root is kept symbolic, and [NaN] is the
    root of [0 / 0]. *)
Inductive root : Type :=
  | Sqrt (radicand : Q)
  | NaN.

(** [r < t] for a threshold [t >= 0] and a radicand that is not negative. *)
Definition root_lt (r : root) (t : Q) : bool :=
  match r with
  | Sqrt q => Qltb q (t * t)
  | NaN => false
  end.

(** A decoded [AudioBuffer]: its sample rate and its channels, the first
    one apart since a buffer has one channel at least. All the channels
    have the length of the first. *)
Record AudioBuffer : Type := {
  sampleRate : Q;
  channel0 : list Q;
  otherChannels : list (list Q)
}.

Definition numberOfChannels (b : AudioBuffer) : nat :=
  S (List.length (otherChannels b)).

Definition frames (b : AudioBuffer) : nat := List.length (channel0 b).

(** [audioBuffer.duration], in seconds: the exact quotient, where the
    platform gives the nearest double. *)
Definition duration (b : AudioBuffer) : Q :=
  inject_Z (Z.of_nat (frames b)) / sampleRate b.

Definition getChannelData (b : AudioBuffer) (i : nat) : list Q :=
  match i with
  | O => channel0 b
  | S j => nth j (otherChannels b) []
  end.

Definition wellFormed (b : AudioBuffer) : Prop :=
  0 < sampleRate b
  /\ Forall (fun ch => List.length ch = frames b) (otherChannels b).

Definition TARGET_SAMPLE_RATE : Q := 16000.

(** [calculateRMS], the same in every variant. *)
Definition calculateRMS (audioData : list Q) : root :=
  let sum := fold_left (fun sum x => sum + x * x) audioData 0 in
  match audioData with
  | [] => NaN
  | _ => Sqrt (sum / inject_Z (Z.of_nat (List.length audioData)))
  end.

(** The node graph that [resampleWithOfflineContext] and
    [resampleTo16kHzMono] build in the offline context. *)
Inductive Graph : Type :=
  | Direct
  | SplitGain (gain : Q).

Definition mixGraph (b : AudioBuffer) : Graph :=
  if (1 <? numberOfChannels b)%nat
  then SplitGain (1 / inject_Z (Z.of_nat (numberOfChannels b)))
  else Direct.

End Audio.

(* ================================================================== *)
(** * Application state, shared by the variants *)
(* ================================================================== *)

Module Shared.
Import JS.

Record Keyword : Type := { kw_id : N; kw_word : str }.

(** A transcription record [{ id, date, preview, fullText }]. *)
Record Transcription : Type := {
  tr_id : str;
  tr_date : str;
  tr_preview : str;
  tr_fullText : str
}.

Inductive View : Type := home | detail.
Inductive Status : Type := ready | recording | loading | processing.
Inductive ToastType : Type := info | success | warning | error.

(** [localStorage]: the two keys of [STORAGE_KEYS]. The JSON text of a
    list is represented by the list. [writable = false] makes [setItem]
    throw. *)
Record Storage : Type := {
  transcriptions_v1 : option (list Transcription);
  voicescribe_keywords : option (list Keyword);
  writable : bool
}.

(** A message posted to the worker: the waveform and the keyword prompt. *)
Record Message : Type := { audioData : list Q; prompt : str }.

(** The [state] object, and what the functions touch outside it: the
    status line, the toasts shown, the keyword input, the store and the
    messages posted to the worker. *)
Record State : Type := {
  currentView : View;
  currentTranscriptionId : option str;
  isRecording : bool;
  isProcessing : bool;
  transcriptions : list Transcription;
  keywords : list Keyword;
  hasWorker : bool;
  audioChunks : list (list N);
  statusDot : Status;
  statusText : str;
  toasts : list (str * ToastType);
  keywordInput : str;
  localStorage : Storage;
  outbox : list Message
}.

Definition set_view (v : View) (i : option str) (st : State) : State :=
  {| currentView := v; currentTranscriptionId := i;
     isRecording := isRecording st; isProcessing := isProcessing st;
     transcriptions := transcriptions st; keywords := keywords st;
     hasWorker := hasWorker st; audioChunks := audioChunks st;
     statusDot := statusDot st; statusText := statusText st;
     toasts := toasts st; keywordInput := keywordInput st;
     localStorage := localStorage st; outbox := outbox st |}.

Definition set_isProcessing (b : bool) (st : State) : State :=
  {| currentView := currentView st;
     currentTranscriptionId := currentTranscriptionId st;
     isRecording := isRecording st; isProcessing := b;
     transcriptions := transcriptions st; keywords := keywords st;
     hasWorker := hasWorker st; audioChunks := audioChunks st;
     statusDot := statusDot st; statusText := statusText st;
     toasts := toasts st; keywordInput := keywordInput st;
     localStorage := localStorage st; outbox := outbox st |}.

Definition set_transcriptions (l : list Transcription) (st : State) : State :=
  {| currentView := currentView st;
     currentTranscriptionId := currentTranscriptionId st;
     isRecording := isRecording st; isProcessing := isProcessing st;
     transcriptions := l; keywords := keywords st;
     hasWorker := hasWorker st; audioChunks := audioChunks st;
     statusDot := statusDot st; statusText := statusText st;
     toasts := toasts st; keywordInput := keywordInput st;
     localStorage := localStorage st; outbox := outbox st |}.

Definition set_keywords (l : list Keyword) (st : State) : State :=
  {| currentView := currentView st;
     currentTranscriptionId := currentTranscriptionId st;
     isRecording := isRecording st; isProcessing := isProcessing st;
     transcriptions := transcriptions st; keywords := l;
     hasWorker := hasWorker st; audioChunks := audioChunks st;
     statusDot := statusDot st; statusText := statusText st;
     toasts := toasts st; keywordInput := keywordInput st;
     localStorage := localStorage st; outbox := outbox st |}.

Definition set_keywordInput (v : str) (st : State) : State :=
  {| currentView := currentView st;
     currentTranscriptionId := currentTranscriptionId st;
     isRecording := isRecording st; isProcessing := isProcessing st;
     transcriptions := transcriptions st; keywords := keywords st;
     hasWorker := hasWorker st; audioChunks := audioChunks st;
     statusDot := statusDot st; statusText := statusText st;
     toasts := toasts st; keywordInput := v;
     localStorage := localStorage st; outbox := outbox st |}.

Definition set_localStorage (s : Storage) (st : State) : State :=
  {| currentView := currentView st;
     currentTranscriptionId := currentTranscriptionId st;
     isRecording := isRecording st; isProcessing := isProcessing st;
     transcriptions := transcriptions st; keywords := keywords st;
     hasWorker := hasWorker st; audioChunks := audioChunks st;
     statusDot := statusDot st; statusText := statusText st;
     toasts := toasts st; keywordInput := keywordInput st;
     localStorage := s; outbox := outbox st |}.

(** [state.worker.postMessage(m)]. *)
Definition postMessage (m : Message) (st : State) : State :=
  {| currentView := currentView st;
     currentTranscriptionId := currentTranscriptionId st;
     isRecording := isRecording st; isProcessing := isProcessing st;
     transcriptions := transcriptions st; keywords := keywords st;
     hasWorker := hasWorker st; audioChunks := audioChunks st;
     statusDot := statusDot st; statusText := statusText st;
     toasts := toasts st; keywordInput := keywordInput st;
     localStorage := localStorage st; outbox := m :: outbox st |}.

Definition updateStatus (status : Status) (message : str) (st : State) : State :=
  {| currentView := currentView st;
     currentTranscriptionId := currentTranscriptionId st;
     isRecording := isRecording st; isProcessing := isProcessing st;
     transcriptions := transcriptions st; keywords := keywords st;
     hasWorker := hasWorker st; audioChunks := audioChunks st;
     statusDot := status; statusText := message;
     toasts := toasts st; keywordInput := keywordInput st;
     localStorage := localStorage st; outbox := outbox st |}.

Definition showToast (message : str) (type : ToastType) (st : State) : State :=
  {| currentView := currentView st;
     currentTranscriptionId := currentTranscriptionId st;
     isRecording := isRecording st; isProcessing := isProcessing st;
     transcriptions := transcriptions st; keywords := keywords st;
     hasWorker := hasWorker st; audioChunks := audioChunks st;
     statusDot := statusDot st; statusText := statusText st;
     toasts := (message, type) :: toasts st; keywordInput := keywordInput st;
     localStorage := localStorage st; outbox := outbox st |}.

(** The status line of the idle state. *)
Definition TAP_TO_RECORD : str := lit "タップして録音開始".

Definition PREVIEW_LENGTH : nat := 30.

(** What the code reads of [new Date()]. *)
Record Date : Type := {
  getTime : N;
  getFullYear : N;
  getMonth : N;
  getDate : N;
  getHours : N;
  getMinutes : N
}.

(** [String(n)] for a natural number. *)
Definition String_of (n : N) : str :=
  bytes_of_string (NilZero.string_of_uint (N.to_uint n)).

(** [s.padStart(2, '0')]. *)
Definition padStart2 (s : str) : str :=
  repeat (chr "0") (2 - length s) ++ s.

Definition formatDate (date : Date) : str :=
  let y := String_of (getFullYear date) in
  let m := padStart2 (String_of (getMonth date + 1)) in
  let d := padStart2 (String_of (getDate date)) in
  let h := padStart2 (String_of (getHours date)) in
  let min := padStart2 (String_of (getMinutes date)) in
  y ++ lit "/" ++ m ++ lit "/" ++ d ++ lit " " ++ h ++ lit ":" ++ min.

Definition createTranscription (now : Date) (text : str) : Transcription :=
  let id := lit "ts_" ++ String_of (getTime now) in
  let date := formatDate now in
  let preview :=
    if PREVIEW_LENGTH <? length text
    then substring text 0 PREVIEW_LENGTH ++ lit "..."
    else text in
  {| tr_id := id; tr_date := date; tr_preview := preview; tr_fullText := text |}.

Definition navigateToHome (st : State) : State := set_view home None st.

Definition navigateToDetail (id : str) (st : State) : State :=
  match find (fun t => eqb (tr_id t) id) (transcriptions st) with
  | None => st
  | Some _ => set_view detail (Some id) st
  end.

(** [localStorage.setItem] of each key; [None] when it throws. *)
Definition setTranscriptions (l : list Transcription) (s : Storage) : option Storage :=
  if writable s
  then Some {| transcriptions_v1 := Some l;
               voicescribe_keywords := voicescribe_keywords s;
               writable := writable s |}
  else None.

Definition setKeywords (l : list Keyword) (s : Storage) : option Storage :=
  if writable s
  then Some {| transcriptions_v1 := transcriptions_v1 s;
               voicescribe_keywords := Some l;
               writable := writable s |}
  else None.

(** [loadTranscriptions] and [loadKeywords]: a missing key gives the empty
    list. *)
Definition loadTranscriptions (st : State) : State :=
  set_transcriptions
    (match transcriptions_v1 (localStorage st) with Some l => l | None => [] end) st.

Definition loadKeywords (st : State) : State :=
  set_keywords
    (match voicescribe_keywords (localStorage st) with Some l => l | None => [] end) st.

(** [saveKeywords] has no handler: [None] when [setItem] throws. *)
Definition saveKeywords (st : State) : option State :=
  match setKeywords (keywords st) (localStorage st) with
  | Some s => Some (set_localStorage s st)
  | None => None
  end.

(** [processed.replace(new RegExp(escapeRegExp(word), 'gi'), word)]. The
    pattern of the empty word matches the empty string at every position
    and the replacement, the word again, is empty. *)
Definition replaceKeyword (word : str) (processed : str) : str :=
  match word with
  | [] => processed
  | _ => replaceAllCI word word [] 0 processed
  end.

Definition processKeywords (st : State) (text : str) : str :=
  fold_left (fun processed keyword => replaceKeyword (kw_word keyword) processed)
    (keywords st) text.

(** [deleteKeyword] of the local clients, [removeKeyword] of the remote
    one; the state is the one reached when [saveKeywords] throws too. *)
Definition deleteKeyword (id : N) (st : State) : State :=
  let st := set_keywords (filter (fun k => negb (kw_id k =? id)%N) (keywords st)) st in
  match saveKeywords st with
  | Some st' => st'
  | None => st
  end.

(** [state.keywords.map(k => k.word).join(', ')]. *)
Definition keywordPrompt (st : State) : str :=
  join (lit ", ") (map kw_word (keywords st)).

End Shared.

(* ================================================================== *)
(** * [src/main.js]: the first local client *)
(* ================================================================== *)

Module MainApp.
Import JS Audio Shared.
Local Open Scope Q_scope.

(** [Math.max(...xs)]: [None] is the [-Infinity] of no argument. *)
Definition Math_max (xs : list Q) : option Q :=
  fold_left
    (fun m x => match m with
                | None => Some x
                | Some y => Some (if Qltb y x then x else y)
                end)
    xs None.

Section Platform.

(** The engine: a spread [f(...xs)] passes every element of [xs] as an
    argument of the call, and the engine throws a [RangeError] when it does
    not accept that many arguments. [fitsCall n] tells whether a call with
    [n] arguments is accepted; [None] stands for the exception. *)
Variable fitsCall : nat -> bool.

Definition spread {A B : Type} (f : list A -> B) (xs : list A) : option B :=
  if fitsCall (length xs) then Some (f xs) else None.

(** [normalizeAudio]: [Math.max(...audioData.map(Math.abs))] spreads the
    whole waveform, so the function throws on a waveform that the engine
    does not accept as an argument list. *)
Definition normalizeAudio (audioData : list Q) : option (list Q) :=
  match spread Math_max (map Qabs audioData) with
  | None => None
  | Some None => Some audioData
  | Some (Some maxAmplitude) =>
      if Qle_bool maxAmplitude 1 && Qle_bool (1 # 10) maxAmplitude then Some audioData
      else if Qltb maxAmplitude (1 # 1000) then Some audioData
      else
        let targetMax := 95 # 100 in
        let scale := targetMax / maxAmplitude in
        Some (map (fun x => x * scale) audioData)
  end.

(** The platform: decoding the recorded chunks, and rendering a buffer
    through a graph into an offline context of one channel, a given length
    and the target rate. [None] stands for an exception. *)
Variable decodeAudioData : list (list N) -> option AudioBuffer.
Variable startRendering : AudioBuffer -> Graph -> nat -> option (list Q).

(** [resampleTo16kHzMono]; [None] is an exception, of the rendering or of
    [normalizeAudio]. The length asked for is computed as in
    [resampleWithOfflineContext] of the local-Whisper client. *)
Definition resampleTo16kHzMono (audioBuffer : AudioBuffer) : option (list Q) :=
  let sourceDuration := duration audioBuffer in
  let targetLength := Math_round (sourceDuration * TARGET_SAMPLE_RATE) in
  match startRendering audioBuffer (mixGraph audioBuffer) (Z.to_nat targetLength) with
  | Some pcmData => normalizeAudio pcmData
  | None => None
  end.

(** [processAudioData]: every exception of the [try] block ends in the
    [catch] block, which is [failed]. *)
Definition processAudioData (st : State) : State :=
  match audioChunks st with
  | [] => updateStatus ready TAP_TO_RECORD
            (showToast (lit "音声データがありません") warning st)
  | _ =>
      let st := set_isProcessing true st in
      let st := updateStatus processing (lit "音声データを処理中...") st in
      let failed :=
        updateStatus ready TAP_TO_RECORD
          (set_isProcessing false
             (showToast (lit "音声データの処理に失敗しました") error st)) in
      match decodeAudioData (audioChunks st) with
      | None => failed
      | Some originalBuffer =>
          match resampleTo16kHzMono originalBuffer with
          | None | Some [] => failed
          | Some pcmData =>
              let rms := calculateRMS pcmData in
              if root_lt rms (1 # 1000) then
                updateStatus ready TAP_TO_RECORD
                  (set_isProcessing false
                     (showToast (lit "音声が検出されませんでした") warning st))
              else if hasWorker st then
                postMessage {| audioData := pcmData; prompt := keywordPrompt st |} st
              else failed
          end
      end
  end.

End Platform.

(** [addKeyword]; [now] is [Date.now()]. The local-Whisper client has the
    same function. *)
Definition addKeyword (now : N) (st : State) : State :=
  let input := trim (keywordInput st) in
  match input with
  | [] => showToast (lit "キーワードを入力してください") warning st
  | _ =>
      if existsb (fun k => eqb (toLowerCase (kw_word k)) (toLowerCase input))
           (keywords st)
      then showToast (lit "既に登録されています") warning st
      else
        let st := set_keywords (keywords st ++ [{| kw_id := now; kw_word := input |}]) st in
        match saveKeywords st with
        | None => st
        | Some st =>
            let st := set_keywordInput [] st in
            showToast (lit "「" ++ input ++ lit "」を追加しました") success st
        end
  end.

End MainApp.

(* ================================================================== *)
(** * The local-Whisper client: text filter *)
(* ================================================================== *)

Module LocalApp.
Import JS.

(** ** [hasRepetitionLoop] *)

(** The separators of [text.split(/[、。\s]+/)]. *)
Definition isWordBreak (c : unit) : bool :=
  (c =? chr "、")%N || (c =? chr "。")%N || isSpace c.

(** [wordCounts] is a plain object used as a map. A word that names a
    property inherited from [Object.prototype] reads that property, not
    [undefined], the first time: its entry becomes a string, which no
    comparison with a number accepts. *)
Inductive count : Type :=
  | Num (n : nat)
  | NotANumber.

Definition protoKeys : list str :=
  map lit
    [ "constructor"; "hasOwnProperty"; "isPrototypeOf";
      "propertyIsEnumerable"; "toLocaleString"; "toString"; "valueOf";
      "__proto__"; "__defineGetter__"; "__defineSetter__";
      "__lookupGetter__"; "__lookupSetter__" ]%string.

Fixpoint bump (w : str) (m : list (str * count)) : list (str * count) :=
  match m with
  | [] => [(w, if existsb (eqb w) protoKeys then NotANumber else Num 1)]
  | (k, n) :: m' =>
      if eqb k w
      then (k, match n with Num i => Num (S i) | NotANumber => NotANumber end) :: m'
      else (k, n) :: bump w m'
  end.

Definition wordCounts (words : list str) : list (str * count) :=
  fold_left (fun m w => bump w m) words [].

(** [count >= 3 && count / words.length >= 0.7]. *)
Definition dominates (total : nat) (c : count) : bool :=
  match c with
  | Num n => (3 <=? n) && (7 * total <=? 10 * n)
  | NotANumber => false
  end.

Definition hasRepetitionLoop (text : str) : bool :=
  if length text <? 6 then false
  else if match loopExec 3 20 text with
          | Some (_, (_, m)) => length text <? 2 * m
          | None => false
          end
  then true
  else
    let words :=
      filter (fun w => 0 <? length w) (splitRuns isWordBreak false text) in
    if 3 <=? length words
    then existsb (fun e => dominates (length words) (snd e)) (wordCounts words)
    else false.

(** ** [cleanText] *)

Definition isChar (s : string) (c : unit) : bool := (c =? chr s)%N.

(** Stage 2: runs of digits, dots and repeated punctuation. *)
Definition collapseNoise (s : str) : str :=
  let s := replaceRuns (fun c => isDigit c || isChar "." c) 4 [] 0 s in
  let s := replaceRuns (isChar ".") 2 [] 0 s in
  let s := replaceRuns (isChar "。") 2 (lit "。") 0 s in
  let s := replaceRuns (isChar "、") 2 (lit "、") 0 s in
  let s := replaceRuns (isChar "…") 2 (lit "…") 0 s in
  replaceRuns isSpace 2 (lit " ") 0 s.

Definition blacklistWords : list str :=
  map lit
    [ "ご視聴ありがとうございました";
      "視聴ありがとうございました";
      "ありがとうございました";
      "お疲れ様でした";
      "お疲れさまでした";
      "チャンネル登録";
      "高評価";
      "いいね";
      "字幕";
      "サブタイトル";
      "翻訳";
      "Translated by";
      "Subtitles by";
      "Transcribed by";
      "Amara.org" ]%string.

(** The separators of [cleaned.split(/[。\.!\?！？]/)]. *)
Definition isSentenceEnd (c : unit) : bool :=
  isChar "。" c || isChar "." c || isChar "!" c || isChar "?" c || isChar "！" c || isChar "？" c.

(** [.replace(/^。+|。+$/g, '')]. *)
Definition stripMaru (s : str) : str :=
  dropWhileEnd (isChar "。") (dropWhile (isChar "。") s).

(** The body of the loop over the blacklist. *)
Definition dropSentences (cleaned word : str) : str :=
  if includes cleaned word then
    stripMaru
      (join (lit "。")
         (filter (fun s => negb (includes s word))
            (splitOn isSentenceEnd cleaned)))
  else cleaned.

Definition stripBlacklisted (words : list str) (cleaned : str) : str :=
  fold_left dropSentences words cleaned.

(** [blacklistOnlyPattern.test(cleaned)], the pattern being
    [^[\s]*(?:w1|...|wn)[。、\.\s]*$] with the [i] flag. *)
Definition isBlacklistTail (c : unit) : bool :=
  isChar "。" c || isChar "、" c || isChar "." c || isSpace c.

Definition blacklistOnlyFrom (words : list str) (s : str) : bool :=
  existsb
    (fun w => startsWithCI w s && forallb isBlacklistTail (skipn (length w) s))
    words.

Fixpoint blacklistOnlyTry (words : list str) (j : nat) (s : str) : bool :=
  blacklistOnlyFrom words (skipn j s) ||
  match j with
  | O => false
  | S j' => blacklistOnlyTry words j' s
  end.

Definition blacklistOnly (words : list str) (s : str) : bool :=
  blacklistOnlyTry words (length (fst (span isSpace s))) s.

(** Stage 4. *)
Definition squashRepeats (s : str) : str :=
  wordReplace 0 (loopReplace 2 15 0 s).

(** Stage 5: [noisePatterns], each tested on [cleaned.trim()]. *)
Definition isKana (c : unit) : bool :=
  inRange (chr "あ") (chr "ん") c || inRange (chr "ア") (chr "ン") c.

Definition headThen (hd tl : unit -> bool) (s : str) : bool :=
  match s with
  | [] => false
  | c :: s' => hd c && forallb tl s'
  end.

Definition noisePatterns : list (str -> bool) :=
  [ (fun s => (1 <=? length s) && (length s <=? 2) && forallb isKana s);
    headThen (fun c => isChar "え" c || isChar "あ" c || isChar "う" c || isChar "お" c)
             (fun c => isChar "ー" c || isChar "っ" c);
    headThen (isChar "は") (fun c => isChar "い" c || isChar "ぃ" c);
    headThen (isChar "う") (isChar "ん");
    (fun s => eqb s (lit "そう"));
    headThen (isChar "ね") (isChar "ぇ");
    (fun s => (1 <=? length s)
              && forallb (fun c => isChar "笑" c || isChar "泣" c || isChar "汗" c) s);
    (fun s => match s with
              | [] => false
              | c :: s' =>
                  isChar "(" c
                  && match rev s' with
                     | [] => false
                     | d :: m => isChar ")" d && forallb (fun x => negb (isChar ")" x)) m
                     end
              end);
    (fun s => (1 <=? length s)
              && forallb (fun c => isSpace c || isChar "。" c || isChar "、" c
                                   || isChar "." c || isChar "…" c) s) ].

Definition isNoise (cleaned : str) : bool :=
  existsb (fun pattern => pattern (trim cleaned)) noisePatterns.

(** Stage 6, before the length check. *)
Definition finalCleanup (cleaned : str) : str :=
  let cleaned := trim cleaned in
  let cleaned :=
    dropWhile (fun c => isChar "、" c || isChar "。" c || isChar "." c || isChar "…" c
                        || isSpace c) cleaned in
  dropWhileEnd (fun c => isChar "、" c || isSpace c) cleaned.

(** The stages of [cleanText] up to the length check: [None] when one of
    them returns [''], otherwise the text that reaches the check. *)
Definition cleanStages (text : str) : option str :=
  match text with
  | [] => None
  | _ =>
      if hasRepetitionLoop text then None
      else
        let cleaned := collapseNoise text in
        let cleaned := stripBlacklisted blacklistWords cleaned in
        if blacklistOnly blacklistWords cleaned then None
        else
          let cleaned := squashRepeats cleaned in
          if isNoise cleaned then None
          else Some (finalCleanup cleaned)
  end.

Definition cleanText (text : str) : str :=
  match cleanStages text with
  | None => []
  | Some cleaned => if length cleaned <? 3 then [] else cleaned
  end.



(** ** Audio *)

Import Audio.
Local Open Scope Q_scope.

Definition normalizeAudio (audioData : list Q) : list Q :=
  let maxAmp :=
    fold_left (fun maxAmp x => if Qltb maxAmp (Qabs x) then Qabs x else maxAmp)
      audioData 0 in
  if Qle_bool maxAmp 1 && Qle_bool (1 # 10) maxAmp then audioData
  else if Qltb maxAmp (1 # 1000) then audioData
  else
    let scale := (95 # 100) / maxAmp in
    map (fun x => x * scale) audioData.

(** The mono mix of [resampleManually], step 1. *)
Definition monoMix (audioBuffer : Audio.AudioBuffer) : list Q :=
  if (Audio.numberOfChannels audioBuffer =? 1)%nat
  then Audio.getChannelData audioBuffer 0
  else
    let ch0 := Audio.getChannelData audioBuffer 0 in
    let ch1 := Audio.getChannelData audioBuffer 1 in
    map (fun i => (nth i ch0 0 + nth i ch1 0) / 2) (seq 0 (length ch0)).

(** [resampleManually]. The ratio, the new length and the source indices
    are exact here, where the source computes them in doubles: when the
    exact quotient is a whole number the source can be one sample short. *)
Definition resampleManually (audioBuffer : Audio.AudioBuffer)
    (targetSampleRate : Q) : list Q :=
  let sourceSampleRate := Audio.sampleRate audioBuffer in
  let monoData := monoMix audioBuffer in
  if Qeq_bool sourceSampleRate targetSampleRate then monoData
  else
    let ratio := sourceSampleRate / targetSampleRate in
    let newLength :=
      Z.to_nat (Audio.Math_floor (inject_Z (Z.of_nat (length monoData)) / ratio)) in
    map (fun i =>
           let srcIndex := inject_Z (Z.of_nat i) * ratio in
           let srcFloor := Z.to_nat (Audio.Math_floor srcIndex) in
           let srcCeil := Nat.min (srcFloor + 1) (length monoData - 1) in
           let fraction := srcIndex - inject_Z (Audio.Math_floor srcIndex) in
           nth srcFloor monoData 0 * (1 - fraction)
           + nth srcCeil monoData 0 * fraction)
        (seq 0 newLength).

Import Shared.

Section Platform.

Variable decodeAudioData : list (list N) -> option AudioBuffer.
Variable startRendering : AudioBuffer -> Graph -> nat -> option (list Q).

(** [resampleWithOfflineContext]: what the offline context renders, or
    [None] when it throws. The length asked for is the exact
    round(duration * 16000); the source rounds a product of doubles, which
    can be one less when the exact product ends in one half. *)
Definition resampleWithOfflineContext (audioBuffer : AudioBuffer) : option (list Q) :=
  let sourceDuration := duration audioBuffer in
  let targetLength := Math_round (sourceDuration * TARGET_SAMPLE_RATE) in
  startRendering audioBuffer (mixGraph audioBuffer) (Z.to_nat targetLength).

(** Step 2 of [processAudioData]: the offline context, and the manual
    resampler when it throws. *)
Definition resample (originalBuffer : AudioBuffer) : list Q :=
  match resampleWithOfflineContext originalBuffer with
  | Some pcmData => pcmData
  | None => resampleManually originalBuffer TARGET_SAMPLE_RATE
  end.

Definition processAudioData (st : State) : State :=
  match audioChunks st with
  | [] => updateStatus ready TAP_TO_RECORD
            (showToast (lit "音声データがありません") warning st)
  | _ =>
      let st := set_isProcessing true st in
      let st := updateStatus processing (lit "音声データを処理中...") st in
      let failed :=
        updateStatus ready TAP_TO_RECORD
          (set_isProcessing false
             (showToast (lit "音声データの処理に失敗しました") error st)) in
      match decodeAudioData (audioChunks st) with
      | None => failed
      | Some originalBuffer =>
          match resample originalBuffer with
          | [] => failed
          | pcmData =>
              let rms := calculateRMS pcmData in
              if root_lt rms (1 # 1000) then
                updateStatus ready TAP_TO_RECORD
                  (set_isProcessing false
                     (showToast (lit "音声が検出されませんでした") warning st))
              else
                let pcmData := normalizeAudio pcmData in
                if hasWorker st then
                  postMessage {| audioData := pcmData; prompt := keywordPrompt st |} st
                else failed
          end
      end
  end.

End Platform.

Local Close Scope Q_scope.

(** ** The result handler *)

Definition saveTranscriptions (st : State) : State :=
  match setTranscriptions (transcriptions st) (localStorage st) with
  | Some s => set_localStorage s st
  | None => showToast (lit "保存に失敗しました") error st
  end.

Definition handleTranscriptionResult (now : Date) (text : str) (st : State) : State :=
  let st := set_isProcessing false st in
  match trim text with
  | _ :: _ =>
      let cleaned := cleanText (trim text) in
      match cleaned with
      | [] =>
          updateStatus ready TAP_TO_RECORD
            (showToast (lit "有効な音声を認識できませんでした") warning st)
      | _ =>
          let processedText := processKeywords st cleaned in
          let newTranscription := createTranscription now processedText in
          let st := set_transcriptions (newTranscription :: transcriptions st) st in
          let st := saveTranscriptions st in
          let st := navigateToDetail (tr_id newTranscription) st in
          let st := showToast (lit "認識が完了しました") success st in
          updateStatus ready TAP_TO_RECORD st
      end
  | [] =>
      updateStatus ready TAP_TO_RECORD
        (showToast (lit "音声を認識できませんでした") warning st)
  end.

End LocalApp.

(* ================================================================== *)
(** * The remote-API client *)
(* ================================================================== *)

Module GroqApp.
Import JS Shared.

Definition HALLUCINATION_WORDS : list str :=
  map lit
    [ "お疲れ様でした";
      "お疲れさまでした";
      "ご視聴ありがとうございました";
      "視聴ありがとうございました";
      "ありがとうございました";
      "チャンネル登録";
      "高評価";
      "字幕";
      "サブタイトル";
      "MBC";
      "IYH";
      "Translated by";
      "Subtitles by";
      "Amara.org" ]%string.

(** The stages of [filterHallucinations] up to the length check: [None]
    when one of them returns [''], otherwise the value of [cleaned] that
    reaches the check. The loop over the words that drops sentences has
    the body of the one in [cleanText]. *)
Definition filterStages (text : str) : option str :=
  match text with
  | [] => None
  | _ =>
      let afterLoop :=
        match loopExec 3 20 text with
        | Some (_, (_, m)) =>
            if length text <? 2 * m then None
            else Some (loopReplace 3 20 0 text)
        | None => Some text
        end in
      match afterLoop with
      | None => None
      | Some cleaned =>
          if existsb
               (fun word => eqb (trim cleaned) word
                            || eqb (trim cleaned) (word ++ lit "。"))
               HALLUCINATION_WORDS
          then None
          else
            let cleaned := fold_left LocalApp.dropSentences HALLUCINATION_WORDS cleaned in
            let cleaned :=
              replaceRuns (fun c => isDigit c || LocalApp.isChar "." c) 4 [] 0 cleaned in
            let cleaned := replaceRuns (LocalApp.isChar ".") 2 [] 0 cleaned in
            let cleaned := replaceRuns (LocalApp.isChar "。") 2 (lit "。") 0 cleaned in
            let cleaned := replaceRuns isSpace 2 (lit " ") 0 cleaned in
            Some cleaned
      end
  end.

Definition filterHallucinations (text : str) : str :=
  match filterStages text with
  | None => []
  | Some cleaned => if length (trim cleaned) <=? 2 then [] else trim cleaned
  end.

Definition saveTranscriptions (st : State) : State :=
  match setTranscriptions (transcriptions st) (localStorage st) with
  | Some s => set_localStorage s st
  | None => st
  end.

Definition handleTranscriptionResult (now : Date) (text : str) (st : State) : State :=
  let st := set_isProcessing false st in
  match trim text with
  | _ :: _ =>
      let cleaned := filterHallucinations (trim text) in
      match cleaned with
      | [] =>
          updateStatus ready TAP_TO_RECORD
            (showToast (lit "音声が聞き取れませんでした") warning st)
      | _ =>
          let processedText := processKeywords st cleaned in
          let newTranscription := createTranscription now processedText in
          let st := set_transcriptions (newTranscription :: transcriptions st) st in
          let st := saveTranscriptions st in
          let st := navigateToDetail (tr_id newTranscription) st in
          let st := showToast (lit "認識が完了しました") success st in
          updateStatus ready TAP_TO_RECORD st
      end
  | [] =>
      updateStatus ready TAP_TO_RECORD
        (showToast (lit "音声を認識できませんでした") warning st)
  end.

(** [addKeyword] of this client compares the words as they are. *)
Definition addKeyword (now : N) (st : State) : State :=
  let word := trim (keywordInput st) in
  match word with
  | [] => st
  | _ =>
      if existsb (fun k => eqb (kw_word k) word) (keywords st)
      then showToast (lit "既に登録されています") warning st
      else
        let st := set_keywords (keywords st ++ [{| kw_word := word; kw_id := now |}]) st in
        match saveKeywords st with
        | None => st
        | Some st =>
            let st := set_keywordInput [] st in
            showToast (lit "キーワードを追加しました") success st
        end
  end.

Definition removeKeyword : N -> State -> State := deleteKeyword.

End GroqApp.

(* ================================================================== *)
(** * The list of records *)
(* ================================================================== *)

Module Records.
Import JS Shared.

(** [l.findIndex(p)]: [None] is the index -1. *)
Fixpoint findIndex (A : Type) (p : A -> bool) (l : list A) : option nat :=
  match l with
  | [] => None
  | x :: l' =>
      if p x then Some O
      else match findIndex p l' with
           | Some i => Some (S i)
           | None => None
           end
  end.

(** [l.splice(index, 1)], for the list that is left. *)
Definition splice1 (A : Type) (index : nat) (l : list A) : list A :=
  firstn index l ++ skipn (S index) l.

(** [deleteTranscription] of [src/main.js] and of the local-Whisper
    client. *)
Definition deleteTranscription (id : str) (st : State) : State :=
  match findIndex (fun t => eqb (tr_id t) id) (transcriptions st) with
  | None => st
  | Some index =>
      let st := set_transcriptions (splice1 index (transcriptions st)) st in
      let st := LocalApp.saveTranscriptions st in
      showToast (lit "削除しました") info st
  end.

(** [deleteCurrentTranscription] of the same clients; the empty string is
    no identifier either. *)
Definition deleteCurrentTranscription (st : State) : State :=
  match currentTranscriptionId st with
  | None | Some [] => st
  | Some id => navigateToHome (deleteTranscription id st)
  end.

(** [deleteCurrentTranscription] of the remote client. *)
Definition deleteCurrentTranscriptionGroq (st : State) : State :=
  match currentTranscriptionId st with
  | None | Some [] => st
  | Some id =>
      let st :=
        set_transcriptions
          (filter (fun t => negb (eqb (tr_id t) id)) (transcriptions st)) st in
      let st := GroqApp.saveTranscriptions st in
      let st := navigateToHome st in
      showToast (lit "削除しました") success st
  end.

End Records.

(* ================================================================== *)
(** * [src/worker.js]: the text that the worker returns *)
(* ================================================================== *)

Module Worker.
Import JS Shared.

(** [s] holds [w] up to case. *)
Fixpoint includesCI (s w : str) : bool :=
  startsWithCI w s ||
  match s with
  | [] => false
  | _ :: s' => includesCI s' w
  end.

Definition isStop (c : unit) : bool :=
  (c =? chr "。")%N || (c =? chr ".")%N.

Definition isPause (c : unit) : bool :=
  (c =? chr "、")%N || (c =? chr "。")%N || (c =? chr ".")%N.

(** One iteration of a group made of the phrase [w] and a run of [tail],
    at the start of [s]: the code units it takes. *)
Definition phraseUnit (w : str) (tail : unit -> bool) (s : str) : option nat :=
  if startsWithCI w s
  then Some (length w + length (fst (span tail (skipn (length w) s))))
  else None.

(** One iteration of the group of the third pattern: "それで", "は" if it
    is there, and a run of [、 。 .]. *)
Definition soredeUnit (s : str) : option nat :=
  if startsWithCI (lit "それで") s then
    let r := skipn 3 s in
    let ha := if startsWithCI (lit "は") r then 1 else 0 in
    Some (3 + ha + length (fst (span isPause (skipn ha r))))
  else None.

(** The greedy iterations of a group at the start of [s]: how many there
    are and the code units they take. *)
Fixpoint unitsFrom (fuel : nat) (unit1 : str -> option nat) (s : str) : nat * nat :=
  match fuel with
  | O => (O, O)
  | S f =>
      match unit1 s with
      | Some (S n) =>
          let (c, m) := unitsFrom f unit1 (skipn (S n) s) in (S c, S n + m)
      | _ => (O, O)
      end
  end.

(** [s.replace(/(unit){min,}/g, '')]. *)
Fixpoint replaceUnits (unit1 : str -> option nat) (min : nat)
    (skip : nat) (s : str) : str :=
  match s with
  | [] => []
  | c :: s' =>
      match skip with
      | S k => replaceUnits unit1 min k s'
      | O =>
          let (n, m) := unitsFrom (length s) unit1 s in
          if (min <=? n) && (1 <=? m)
          then replaceUnits unit1 min (m - 1) s'
          else c :: replaceUnits unit1 min 0 s'
      end
  end.

(** [removeDynamicRepetitions]. *)
Definition removeDynamicRepetitions (text : str) : str :=
  if length text <? 10 then text else loopReplace 3 30 0 text.

(** [removeHallucinationPatterns]. The first two patterns are anchored at
    both ends around the phrase, so they match the whole text when it
    holds the phrase and nothing otherwise. *)
Definition removeHallucinationPatterns (text : str) : str :=
  match text with
  | [] => []
  | _ =>
      let cleaned := text in
      let cleaned :=
        if includesCI cleaned (lit "ご視聴ありがとうございました") then [] else cleaned in
      let cleaned :=
        if includesCI cleaned (lit "チャンネル登録") then [] else cleaned in
      let cleaned := replaceUnits soredeUnit 3 0 cleaned in
      let cleaned := replaceUnits (phraseUnit (lit "何で言って") isPause) 2 0 cleaned in
      let cleaned :=
        replaceUnits (phraseUnit (lit "ありがとうございました") isStop) 3 0 cleaned in
      let cleaned := replaceUnits (phraseUnit (lit "お疲れ様でした") isStop) 3 0 cleaned in
      let cleaned :=
        if (1 <=? length cleaned)
           && forallb (fun c => isSpace c || (c =? chr "。")%N || (c =? chr "、")%N
                                || (c =? chr ".")%N || (c =? chr "…")%N) cleaned
        then [] else cleaned in
      let cleaned := removeDynamicRepetitions cleaned in
      trim cleaned
  end.

(** [keywordPrompt.split(',').map(k => k.trim()).filter(k => k)]. *)
Definition promptKeywords (keywordPrompt : str) : list str :=
  filter (fun k => 1 <=? length k)
    (map trim (splitOn (fun c => (c =? chr ",")%N) keywordPrompt)).

(** [applyKeywordCorrections]. *)
Definition applyKeywordCorrections (text keywordPrompt : str) : str :=
  fold_left (fun correctedText keyword => replaceKeyword keyword correctedText)
    (promptKeywords keywordPrompt) text.

(** The [text] of the result message of [transcribe], for the text
    [resultText] that the model returns. *)
Definition transcribeResult (resultText keywordPrompt : str) : str :=
  let transcribedText := removeHallucinationPatterns resultText in
  let transcribedText :=
    match trim keywordPrompt with
    | [] => transcribedText
    | _ => applyKeywordCorrections transcribedText keywordPrompt
    end in
  trim transcribedText.

End Worker.

(* ================================================================== *)
(** * [src/main.js]: the result handler of the first client *)
(* ================================================================== *)

Module FirstClient.
Import JS Shared.

(** [handleTranscriptionResult] of [src/main.js]: the text of the worker
    is recorded without a filter of the client's own. *)
Definition handleTranscriptionResult (now : Date) (text : str) (st : State) : State :=
  let st := set_isProcessing false st in
  let st :=
    match trim text with
    | _ :: _ =>
        let processedText := processKeywords st (trim text) in
        let newTranscription := createTranscription now processedText in
        let st := set_transcriptions (newTranscription :: transcriptions st) st in
        let st := LocalApp.saveTranscriptions st in
        let st := navigateToDetail (tr_id newTranscription) st in
        showToast (lit "認識が完了しました") success st
    | [] => showToast (lit "音声を認識できませんでした") warning st
    end in
  updateStatus ready TAP_TO_RECORD st.

End FirstClient.

(* ================================================================== *)
(** * The transcription API and the client that calls it *)
(* ================================================================== *)

Module Api.
Import JS.

(** What [parseForm] makes of the request: an error, or the uploaded
    file under [audio], if there is one, with the two properties that the
    handler reads for its path, and the [prompt] field, if there is one. *)
Record Upload : Type := { filepath : option str; path : option str }.

Inductive Form : Type :=
  | ParseError (message : str)
  | Parsed (audio : option Upload) (prompt : option str).

Record Request : Type := { method : str; form : Form }.

(** The argument of [groq.audio.transcriptions.create], and what the call
    does: it throws, or returns an object whose [text] may be missing. *)
Record GroqParams : Type := {
  file : str;
  model : str;
  language : str;
  response_format : str
}.

Inductive GroqResult : Type :=
  | Threw (message : str)
  | Transcribed (text : option str).

Inductive Payload : Type :=
  | NoBody
  | ErrorOnly (error : str)
  | Failed (error : str)
  | Succeeded (text : str).

Record Response : Type := { status : N; payload : Payload }.

(** The response, the calls made to Groq and the temporary files
    deleted. *)
Record Outcome : Type := {
  response : Response;
  asked : list GroqParams;
  unlinked : list str
}.

(** [a || b] on strings that may be missing: the empty string is falsy. *)
Definition orElse (a : option str) (b : option str) : option str :=
  match a with
  | Some (_ :: _) => a
  | _ => b
  end.

Definition orDefault (a : option str) (b : str) : str :=
  match a with
  | Some (c :: s) => c :: s
  | _ => b
  end.

Section Groq.

Variable create : GroqParams -> GroqResult.

Definition handler (req : Request) : Outcome :=
  let reply status payload :=
    {| response := {| status := status; payload := payload |};
       asked := []; unlinked := [] |} in
  if eqb (method req) (lit "OPTIONS") then reply 200%N NoBody
  else if negb (eqb (method req) (lit "POST"))
  then reply 405%N (ErrorOnly (lit "Method not allowed"))
  else
    match form req with
    | ParseError message =>
        reply 500%N (Failed (orDefault (Some message) (lit "Transcription failed")))
    | Parsed None _ => reply 400%N (ErrorOnly (lit "No audio file provided"))
    | Parsed (Some audioFile) _ =>
        match orElse (filepath audioFile) (path audioFile) with
        | Some (c :: p) =>
            let filePath := c :: p in
            let params :=
              {| file := filePath; model := lit "whisper-large-v3";
                 language := lit "ja"; response_format := lit "json" |} in
            match create params with
            | Threw message =>
                {| response :=
                     {| status := 500%N;
                        payload :=
                          Failed (orDefault (Some message) (lit "Transcription failed")) |};
                   asked := [params]; unlinked := [] |}
            | Transcribed text =>
                {| response :=
                     {| status := 200%N; payload := Succeeded (orDefault text []) |};
                   asked := [params]; unlinked := [filePath] |}
            end
        | _ => reply 400%N (ErrorOnly (lit "Invalid file upload"))
        end
    end.

End Groq.

End Api.

Module Remote.
Import JS Shared.

(** The form that the client posts: the recorded chunks as one file, and
    the keyword prompt when it is not empty. *)
Record FormData : Type := { audio : list (list N); promptField : option str }.

(** What [fetch] gives: it throws, or there is a response, whose body is
    not JSON or is an object of which [success], [text] and [error] are
    read; a field that is missing is [false] or the empty string. *)
Inductive Body : Type :=
  | BadJson (message : str)
  | Json (success : bool) (text : str) (error : str).

Inductive FetchOutcome : Type :=
  | Rejected (message : str)
  | Responded (ok : bool) (status : N) (body : Body).

Definition getKeywordPrompt (st : State) : str :=
  match keywords st with
  | [] => []
  | _ => keywordPrompt st
  end.

Definition formData (st : State) : FormData :=
  {| audio := audioChunks st;
     promptField :=
       match getKeywordPrompt st with
       | [] => None
       | keywordPrompt => Some keywordPrompt
       end |}.

Section Network.

Variable fetch : FormData -> FetchOutcome.

(** [processAudioData] of the remote client. *)
Definition processAudioData (now : Date) (st : State) : State :=
  match audioChunks st with
  | [] => updateStatus ready TAP_TO_RECORD
            (showToast (lit "音声データがありません") warning st)
  | _ =>
      let st := set_isProcessing true st in
      let st := updateStatus processing (lit "AIで文字起こし中...") st in
      let failed message :=
        updateStatus ready TAP_TO_RECORD
          (set_isProcessing false
             (showToast (lit "文字起こしに失敗しました: " ++ message) error st)) in
      match fetch (formData st) with
      | Rejected message => failed message
      | Responded false status body =>
          failed
            match body with
            | Json _ _ (c :: e) => c :: e
            | _ => lit "API error: " ++ String_of status
            end
      | Responded true _ (BadJson message) => failed message
      | Responded true _ (Json succeeded text _) =>
          if succeeded && (1 <=? length text)
          then GroqApp.handleTranscriptionResult now text st
          else
            updateStatus ready TAP_TO_RECORD
              (set_isProcessing false
                 (showToast (lit "音声を認識できませんでした") warning st))
      end
  end.

End Network.

(** The response of the API as [fetch] shows it to the client; [noJson]
    is the message of the error that [response.json()] throws when the
    response has no body. *)
Definition respond (noJson : str) (r : Api.Response) : FetchOutcome :=
  Responded ((200 <=? Api.status r)%N && (Api.status r <? 300)%N) (Api.status r)
    match Api.payload r with
    | Api.NoBody => BadJson noJson
    | Api.ErrorOnly e => Json false [] e
    | Api.Failed e => Json false [] e
    | Api.Succeeded t => Json true t []
    end.

(** [fetch] when the request that a form makes reaches the handler of
    the API: [receive] is the request that the handler gets for a form. *)
Definition viaApi (noJson : str) (create : Api.GroqParams -> Api.GroqResult)
    (receive : FormData -> Api.Request) (body : FormData) : FetchOutcome :=
  respond noJson (Api.response (Api.handler create (receive body))).

End Remote.

(* ================================================================== *)
(** * Notions of the specification *)
(* ================================================================== *)

Module Spec.
Import JS.

(** [power p r]: the phrase [p] written [r] times. *)
Fixpoint power (p : str) (r : nat) : str :=
  match r with
  | O => []
  | S r' => p ++ power p r'
  end.

Definition prefix (p s : str) : Prop := exists t, s = p ++ t.

(** The text holds, from position [start] on, [r] consecutive copies of a
    phrase of [k] code units. *)
Definition repeatsAt (text : str) (start k r : nat) : Prop :=
  start + k <= length text
  /\ prefix (power (firstn k (skipn start text)) r) (skipn start text).

(** An attempt of [/(.{lo,hi})\1{2,}/] with a phrase of [k] code units
    can succeed at the start of [s]: the phrase has no line terminator and
    is written three times there. *)
Definition loops (k : nat) (s : str) : Prop :=
  k <= length s
  /\ Forall (fun c => dot c = true) (firstn k s)
  /\ prefix (power (firstn k s) 3) s.

(** The match of [/(.{lo,hi})\1{2,}/] in [text]: it starts at the
    leftmost position where an attempt can succeed, its phrase is the
    longest one that can succeed there, and it spans every consecutive
    copy of that phrase, [r] of them. *)
Definition loopMatch (lo hi : nat) (text : str) (start k r : nat) : Prop :=
  lo <= k <= hi
  /\ (forall i k', i < start -> lo <= k' <= hi -> ~ loops k' (skipn i text))
  /\ (forall k', k < k' <= hi -> ~ loops k' (skipn start text))
  /\ loops k (skipn start text)
  /\ prefix (power (firstn k (skipn start text)) r) (skipn start text)
  /\ ~ prefix (power (firstn k (skipn start text)) (S r)) (skipn start text).

(** ** Amplitudes *)

(** The running maximum of the loop of [normalizeAudio], from [m] on. *)
Definition peakFrom (m : Q) (w : list Q) : Q :=
  fold_left
    (fun maxAmp x => if Audio.Qltb maxAmp (Qabs x) then Qabs x else maxAmp) w m.

(** The peak of the waveform lies in [0.1, 1.0]. *)
Definition wellScaled (w : list Q) : Prop :=
  Forall (fun x => Qabs x <= 1)%Q w /\ Exists (fun x => 1 # 10 <= Qabs x)%Q w.

(** The waveform is not silent: its peak is 0.001 at least. *)
Definition audible (w : list Q) : Prop :=
  Exists (fun x => 1 # 1000 <= Qabs x)%Q w.

(** ** The pipeline at rest *)

(** After a step from [st] the client is idle again: nothing was posted to
    the worker, no record was made or stored, and the status line is the
    one of the ready state. *)
Definition idleAfter (st st' : Shared.State) : Prop :=
  Shared.outbox st' = Shared.outbox st
  /\ Shared.transcriptions st' = Shared.transcriptions st
  /\ Shared.localStorage st' = Shared.localStorage st
  /\ Shared.isProcessing st' = false
  /\ Shared.statusDot st' = Shared.ready
  /\ Shared.statusText st' = Shared.TAP_TO_RECORD.

(** ** Keywords *)

(** No two keywords are equal up to case. *)
Definition uniqueCI (ks : list Shared.Keyword) : Prop :=
  NoDup (map (fun k => JS.toLowerCase (Shared.kw_word k)) ks).

(** The keyword set and its mirror in the store are unique up to case. *)
Definition keywordsUnique (st : Shared.State) : Prop :=
  uniqueCI (Shared.keywords st)
  /\ match Shared.voicescribe_keywords (Shared.localStorage st) with
     | Some ks => uniqueCI ks
     | None => True
     end.

(** The word has no [$], so it stands for itself as a replacement text. *)
Definition dollarFree (w : JS.str) : Prop := ~ In (JS.chr "$") w.

(** Two texts are equal up to case, code unit by code unit. *)
Definition sameCase (s t : JS.str) : Prop :=
  map JS.canonicalize s = map JS.canonicalize t.

(** [stamp w pending s]: the replacement of the occurrences of [w] in [s]
    by [w], one code unit at a time; [pending] is the part of [w] that is
    still to be written over the occurrence found last. *)
Fixpoint stamp (w pending s : JS.str) : JS.str :=
  match s with
  | [] => []
  | c :: s' =>
      match pending with
      | d :: p' => d :: stamp w p' s'
      | [] =>
          if JS.startsWithCI w s
          then match w with
               | x :: w' => x :: stamp w w' s'
               | [] => c :: stamp w [] s'
               end
          else c :: stamp w [] s'
      end
  end.

(** The corrector on the words of the keywords. *)
Definition replaceAll (ws : list JS.str) (text : JS.str) : JS.str :=
  fold_left (fun processed w => Shared.replaceKeyword w processed) ws text.

(** [s'] and [t'] come from [s] and [t] by writing the same code units at
    the same positions and keeping the others. *)
Inductive Overwritten : JS.str -> JS.str -> JS.str -> JS.str -> Prop :=
  | Overwritten_nil : Overwritten [] [] [] []
  | Overwritten_same (a b x : JS.unit) (s t s' t' : JS.str) :
      Overwritten s t s' t' ->
      Overwritten (a :: s) (b :: t) (x :: s') (x :: t')
  | Overwritten_keep (a b : JS.unit) (s t s' t' : JS.str) :
      Overwritten s t s' t' ->
      Overwritten (a :: s) (b :: t) (a :: s') (b :: t').

(** At every position [t] has the code unit of [s] or the one of [u]. *)
Inductive Between : JS.str -> JS.str -> JS.str -> Prop :=
  | Between_nil : Between [] [] []
  | Between_left (a b : JS.unit) (s u t : JS.str) :
      Between s u t -> Between (a :: s) (b :: u) (a :: t)
  | Between_right (a b : JS.unit) (s u t : JS.str) :
      Between s u t -> Between (a :: s) (b :: u) (b :: t).

End Spec.

(* ================================================================== *)
(** * Further notions *)
(* ================================================================== *)

Module Notions.
Import JS.

(** The code units of the pieces, each counted with one separator. *)
Fixpoint weight (l : list str) : nat :=
  match l with
  | [] => O
  | x :: l' => S (length x) + weight l'
  end.

(** The first code unit of [s], and the last one, is of the class. *)
Definition startsIn (cls : unit -> bool) (s : str) : bool :=
  match s with
  | [] => false
  | c :: _ => cls c
  end.

Definition endsIn (cls : unit -> bool) (s : str) : bool := startsIn cls (rev s).

(** The decimal digits of a number below 100, and of one below 10000. *)
Definition digit (n : N) : unit := (chr "0" + n)%N.

Definition twoDigits (n : N) : str := [digit (n / 10); digit (n mod 10)].

Definition fourDigits (n : N) : str :=
  [digit (n / 1000); digit ((n / 100) mod 10); digit ((n / 10) mod 10);
   digit (n mod 10)].

(** The decimal numeral that starts with the digit [a]. *)
Definition decimal (a : N) (l : Decimal.uint) : Decimal.uint :=
  match a with
  | 0 => Decimal.D0 l
  | 1 => Decimal.D1 l
  | 2 => Decimal.D2 l
  | 3 => Decimal.D3 l
  | 4 => Decimal.D4 l
  | 5 => Decimal.D5 l
  | 6 => Decimal.D6 l
  | 7 => Decimal.D7 l
  | 8 => Decimal.D8 l
  | _ => Decimal.D9 l
  end%N.

(** The store holds the list of records of the state. *)
Definition mirrored (st : Shared.State) : Prop :=
  Shared.transcriptions_v1 (Shared.localStorage st)
  = Some (Shared.transcriptions st).

(** The detail view is open on a record of the list, or the home view is
    shown and no record is current. *)
Definition viewConsistent (st : Shared.State) : Prop :=
  match Shared.currentTranscriptionId st with
  | Some id =>
      Shared.currentView st = Shared.detail
      /\ In id (map Shared.tr_id (Shared.transcriptions st))
  | None => Shared.currentView st = Shared.home
  end.

(** What handling a recording leaves: a message for the worker, with
    samples in [-1, 1] that are not all silent, the client being busy; or
    one more toast, a warning or an error, and the ready state, nothing
    being posted. *)
Definition audioOutcome (st st' : Shared.State) : Prop :=
  (exists m,
      Shared.outbox st' = m :: Shared.outbox st
      /\ Shared.prompt m = Shared.keywordPrompt st
      /\ Shared.audioData m <> []
      /\ Forall (fun y => Qabs y <= 1)%Q (Shared.audioData m)
      /\ Spec.audible (Shared.audioData m)
      /\ Shared.toasts st' = Shared.toasts st
      /\ Shared.isProcessing st' = true
      /\ Shared.statusDot st' = Shared.processing)
  \/ (Shared.outbox st' = Shared.outbox st
      /\ (exists t,
             Shared.toasts st' = t :: Shared.toasts st
             /\ (snd t = Shared.warning \/ snd t = Shared.error))
      /\ Shared.statusDot st' = Shared.ready
      /\ Shared.statusText st' = Shared.TAP_TO_RECORD
      /\ (Shared.audioChunks st <> [] -> Shared.isProcessing st' = false)).

(** No keyword is empty or has white space at an end. *)
Definition wordsTrimmed (st : Shared.State) : Prop :=
  Forall (fun k => Shared.kw_word k <> [] /\ trim (Shared.kw_word k) = Shared.kw_word k)
    (Shared.keywords st).

(** The ranges of white space, and the test that no code unit from [a] to
    [b] is white space. *)
Definition spaceRanges : list (N * N) :=
  [(0x09, 0x0D); (0x20, 0x20); (0xA0, 0xA0); (0x1680, 0x1680); (0x2000, 0x200A);
   (0x2028, 0x2029); (0x202F, 0x202F); (0x205F, 0x205F); (0x3000, 0x3000);
   (0xFEFF, 0xFEFF)]%N.

Definition spaceFree (a b : N) : bool :=
  forallb (fun r => (b <? fst r)%N || (snd r <? a)%N) spaceRanges.

(** A keyword as [addKeyword] stores it, without [$]. *)
Definition plain (w : str) : Prop :=
  Spec.dollarFree w /\ w <> [] /\ trim w = w.

End Notions.

(* ================================================================== *)
(** * Inputs of the examples *)
(* ================================================================== *)

Module Inputs.
Import JS Audio Shared.
Local Open Scope Q_scope.

(** A client at rest with one recorded chunk and a worker. *)
Definition st0 : State :=
  {| currentView := home; currentTranscriptionId := None;
     isRecording := false; isProcessing := false;
     transcriptions := []; keywords := [];
     hasWorker := true; audioChunks := [[0%N]];
     statusDot := ready; statusText := TAP_TO_RECORD;
     toasts := []; keywordInput := [];
     localStorage := {| transcriptions_v1 := None;
                        voicescribe_keywords := None;
                        writable := true |};
     outbox := [] |}.

(** The same client with the keywords [ws], numbered from 1, and [input]
    typed in the keyword field. *)
Definition withKeywords (ws : list str) (input : str) : State :=
  set_keywordInput input
    (set_keywords
       (map (fun p => {| kw_id := N.of_nat (S (fst p)); kw_word := snd p |})
          (combine (seq 0 (List.length ws)) ws))
       st0).

(** 3 November 2026, 12:00. *)
Definition noon : Date :=
  {| getTime := 1793707200000; getFullYear := 2026; getMonth := 10;
     getDate := 3; getHours := 12; getMinutes := 0 |}.

(** Five frames of mono audio at 48 kHz. *)
Definition fiveFrames : AudioBuffer :=
  {| sampleRate := 48000; channel0 := [0; 0; 0; 0; 0]; otherChannels := [] |}.

(** A little more than a second of mono audio at 48 kHz: 48002 frames. *)
Definition oneSecond : AudioBuffer :=
  {| sampleRate := 48000;
     channel0 := repeat 0 (Z.to_nat 48002);
     otherChannels := [] |}.

(** One frame of three channels at the target rate. *)
Definition threeChannels : AudioBuffer :=
  {| sampleRate := 16000; channel0 := [0]; otherChannels := [[0]; [3]] |}.

(** A faint click at the target rate: the peak is 0.002. *)
Definition faintClick : AudioBuffer :=
  {| sampleRate := 16000;
     channel0 := [2 # 1000; 0; 0; 0; 0];
     otherChannels := [] |}.

(** A platform that decodes every recording to [b], and an offline context
    that renders silence of the length asked for, or the first channel
    when it has that length. *)
Definition decodeTo (b : AudioBuffer) (chunks : list (list N)) : option AudioBuffer :=
  Some b.

Definition renderFirstChannel (b : AudioBuffer) (g : Graph) (n : nat) : option (list Q) :=
  if (List.length (channel0 b) =? n)%nat then Some (channel0 b) else Some (repeat 0 n).

(** An engine that accepts 65536 arguments in a call, and no more. *)
Definition engine (n : nat) : bool := (N.of_nat n <=? 65536)%N.

(** A request made from a form as the client posts it, and a Groq that
    refuses every call. *)
Definition upload (body : Remote.FormData) : Api.Request :=
  {| Api.method := lit "POST";
     Api.form :=
       Api.Parsed
         (Some {| Api.filepath := Some (lit "/tmp/recording.webm"); Api.path := None |})
         (Remote.promptField body) |}.

Definition refuses (params : Api.GroqParams) : Api.GroqResult :=
  Api.Threw (lit "Rate limit reached").

(** Three frames of speech at the target rate: the peak is 0.5. *)
Definition threeFrames : AudioBuffer :=
  {| sampleRate := 16000; channel0 := [1 # 2; -(1 # 4); 1 # 8]; otherChannels := [] |}.

(** Five seconds of speech at the target rate: 80000 frames at 0.5. *)
Definition fiveSeconds : AudioBuffer :=
  {| sampleRate := 16000;
     channel0 := repeat (1 # 2) (Z.to_nat 80000);
     otherChannels := [] |}.

(** The same client after [saveTranscriptions]: the store holds the empty
    list. *)
Definition savedOnce : State := LocalApp.saveTranscriptions st0.

(** The same client with a store that refuses every write. *)
Definition fullStore : State :=
  set_localStorage
    {| transcriptions_v1 := None; voicescribe_keywords := None; writable := false |}
    st0.

End Inputs.

(* ================================================================== *)
(** * Properties *)
(* ================================================================== *)

(** ** Strings *)

Module JSFacts.
Import JS.

Lemma eqb_spec (a b : str) : reflect (a = b) (eqb a b).
Proof.
  revert b; induction a as [|x a IH]; intros [|y b]; simpl;
    try (constructor; congruence).
  destruct (N.eqb_spec x y) as [->|Hxy]; simpl.
  - destruct (IH b) as [->|Hab]; constructor; congruence.
  - constructor; congruence.
Qed.

Lemma eqb_refl (a : str) : eqb a a = true.
Proof. destruct (eqb_spec a a); congruence. Qed.

Lemma startsWith_spec (p s : str) :
  startsWith p s = true <-> firstn (length p) s = p.
Proof.
  revert s; induction p as [|x p IH]; intros s; simpl.
  - tauto.
  - destruct s as [|y s]; simpl.
    + split; discriminate.
    + rewrite andb_true_iff, N.eqb_eq, IH. split.
      * intros [-> ->]; reflexivity.
      * intros H; injection H as -> H; auto.
Qed.

Lemma startsWith_app (p s : str) : startsWith p (p ++ s) = true.
Proof.
  apply startsWith_spec. rewrite firstn_app, Nat.sub_diag, firstn_all.
  simpl; apply app_nil_r.
Qed.

End JSFacts.

(** ** The repetition pattern *)

Module LoopFacts.
Import JS Spec JSFacts.

Lemma prefix_nil (s : str) : prefix [] s.
Proof. now exists s. Qed.

Lemma prefix_app_iff (p a t : str) : prefix (p ++ a) (p ++ t) <-> prefix a t.
Proof.
  split; intros [u Hu].
  - exists u. rewrite <- app_assoc in Hu. now apply app_inv_head in Hu.
  - exists u. now rewrite Hu, app_assoc.
Qed.

Lemma prefix_startsWith (p a s : str) : prefix (p ++ a) s -> startsWith p s = true.
Proof. intros [u ->]. rewrite <- app_assoc. apply startsWith_app. Qed.

Lemma startsWith_split (p s : str) :
  startsWith p s = true -> s = p ++ skipn (length p) s.
Proof.
  intros H. apply startsWith_spec in H.
  rewrite <- (firstn_skipn (length p) s) at 1. now rewrite H.
Qed.

Lemma power_snoc (p : str) (r : nat) : power p (S r) = power p r ++ p.
Proof.
  induction r as [|r IH]; simpl in *.
  - now rewrite app_nil_r.
  - now rewrite IH at 1; rewrite app_assoc.
Qed.

Lemma prefix_power_S (p s : str) (r : nat) :
  prefix (power p (S r)) s -> prefix (power p r) s.
Proof.
  rewrite power_snoc. intros [u ->]. exists (p ++ u). now rewrite app_assoc.
Qed.

Lemma prefix_power_le (p s : str) (r r' : nat) :
  r' <= r -> prefix (power p r) s -> prefix (power p r') s.
Proof.
  induction 1 as [|r Hle IH]; [easy|].
  intros H. apply IH. now apply prefix_power_S.
Qed.

(** The number of copies is determined by the text. *)
Lemma copies_unique (p s : str) (r r' : nat) :
  prefix (power p r) s -> ~ prefix (power p (S r)) s ->
  prefix (power p r') s -> ~ prefix (power p (S r')) s ->
  r = r'.
Proof.
  intros H1 H2 H3 H4.
  destruct (Nat.lt_trichotomy r r') as [Hlt|[Heq|Hgt]]; [|assumption|].
  - exfalso. apply H2. apply prefix_power_le with r'; [lia|assumption].
  - exfalso. apply H4. apply prefix_power_le with r; [lia|assumption].
Qed.

(** [copies] counts the consecutive copies, given fuel for the text. *)
Lemma copies_spec (n : nat) (p s : str) :
  p <> [] -> length s <= n ->
  prefix (power p (copies n p s)) s
  /\ ~ prefix (power p (S (copies n p s))) s.
Proof.
  intros Hp. revert s. induction n as [|n IH]; intros s Hn.
  - destruct s; [|simpl in Hn; lia]. simpl. split; [apply prefix_nil|].
    intros [u Hu]. destruct p; [congruence|discriminate].
  - simpl. destruct (startsWith p s) eqn:Hsw.
    + pose proof (startsWith_split _ _ Hsw) as Hs.
      assert (Hlen : length (skipn (length p) s) <= n).
      { rewrite length_skipn. destruct p; [congruence|]. simpl in *. lia. }
      destruct (IH _ Hlen) as [H1 H2].
      revert Hs H1 H2. generalize (skipn (length p) s). intros t -> H1 H2.
      split.
      * now apply (prefix_app_iff p (power p (copies n p t))).
      * intros H. apply H2.
        now apply (prefix_app_iff p (power p (S (copies n p t)))) in H.
    + split; [apply prefix_nil|].
      intros H. simpl in H. apply prefix_startsWith in H. congruence.
Qed.

Lemma prefix_power_skip (k c : nat) (s : str) :
  prefix (power (firstn k s) (S c)) s
  <-> prefix (power (firstn k s) c) (skipn k s).
Proof.
  pose proof (firstn_skipn k s) as E. revert E.
  generalize (firstn k s) (skipn k s). intros p t <-.
  apply (prefix_app_iff p (power p c)).
Qed.

Lemma firstn_nonempty (k : nat) (s : str) :
  1 <= k -> k <= length s -> firstn k s <> [].
Proof.
  intros Hk Hlen E. apply (f_equal (@length _)) in E.
  rewrite length_firstn in E. simpl in E. lia.
Qed.

(** An attempt can succeed exactly when the test of [loopTry] passes. *)
Lemma loops_test (k : nat) (s : str) :
  1 <= k ->
  loops k s <->
  ((k <=? length s) && forallb dot (firstn k s)
   && (2 <=? copies (length s) (firstn k s) (skipn k s))) = true.
Proof.
  intros Hk. unfold loops.
  rewrite !andb_true_iff, !Nat.leb_le, forallb_forall, Forall_forall.
  assert (Hfuel : length (skipn k s) <= length s) by (rewrite length_skipn; lia).
  split.
  - intros (Hlen & Hdot & Hpre). repeat split; try assumption.
    destruct (@copies_spec _ _ _ (@firstn_nonempty k s Hk Hlen) Hfuel) as [_ Hmax].
    set (c := copies (length s) (firstn k s) (skipn k s)) in *.
    destruct (Nat.le_gt_cases 2 c) as [|Hc]; [assumption|]. exfalso. apply Hmax.
    apply prefix_power_le with 2; [lia|]. now apply prefix_power_skip.
  - intros [[Hlen Hdot] Hc]. repeat split; try assumption.
    destruct (@copies_spec _ _ _ (@firstn_nonempty k s Hk Hlen) Hfuel) as [Hpre _].
    apply prefix_power_le with (r' := 2) in Hpre; [|assumption].
    now apply prefix_power_skip.
Qed.

(** The copies that the match spans: the phrase and those after it. *)
Lemma copies_total (k r : nat) (s : str) :
  1 <= k -> k <= length s ->
  prefix (power (firstn k s) r) s ->
  ~ prefix (power (firstn k s) (S r)) s ->
  r = S (copies (length s) (firstn k s) (skipn k s)).
Proof.
  intros Hk Hlen Hpre Hmax.
  assert (Hfuel : length (skipn k s) <= length s) by (rewrite length_skipn; lia).
  destruct (@copies_spec _ _ _ (@firstn_nonempty k s Hk Hlen) Hfuel) as [H1 H2].
  apply copies_unique with (firstn k s) s; try assumption.
  - now apply prefix_power_skip.
  - intros H. apply H2. now apply prefix_power_skip in H.
Qed.

Lemma loopTry_none (lo d : nat) (s : str) :
  1 <= lo ->
  (forall k, lo <= k < lo + d -> ~ loops k s) ->
  loopTry lo d s = None.
Proof.
  intros Hlo. induction d as [|d IH]; intros Hno; [reflexivity|].
  cbn [loopTry]. cbv zeta. destruct (_ && _ && _) eqn:Htest.
  - exfalso. apply (Hno (lo + d)); [lia|]. apply loops_test; [lia|assumption].
  - apply IH. intros k Hk. apply Hno. lia.
Qed.

Lemma loopTry_some (lo d k r : nat) (s : str) :
  1 <= lo -> lo <= k < lo + d ->
  (forall k', k < k' < lo + d -> ~ loops k' s) ->
  loops k s ->
  prefix (power (firstn k s) r) s ->
  ~ prefix (power (firstn k s) (S r)) s ->
  loopTry lo d s = Some (k, k * r).
Proof.
  intros Hlo Hk Hlong Hloops Hpre Hmax. induction d as [|d IH]; [lia|].
  cbn [loopTry]. cbv zeta. destruct (_ && _ && _) eqn:Htest.
  - destruct (Nat.eq_dec (lo + d) k) as [E|NE].
    + rewrite E. f_equal. f_equal. f_equal.
      symmetry. apply copies_total; try assumption; try lia.
      apply Hloops.
    + exfalso. apply (Hlong (lo + d)); [lia|]. apply loops_test; [lia|assumption].
  - destruct (Nat.eq_dec (lo + d) k) as [E|NE].
    + exfalso. subst k. apply loops_test in Hloops; [|lia]. congruence.
    + apply IH; [lia|]. intros k' Hk'. apply Hlong. lia.
Qed.

Lemma loops_length (k : nat) (s : str) : loops k s -> 3 * k <= length s.
Proof.
  intros (Hlen & _ & [t Ht]). apply (f_equal (@length _)) in Ht.
  simpl in Ht. rewrite !length_app, length_firstn in Ht. simpl in Ht. lia.
Qed.

(** [loopExec] finds the match of the pattern. *)
Lemma loopExec_match (lo hi : nat) (text : str) (start k r : nat) :
  1 <= lo ->
  loopMatch lo hi text start k r ->
  loopExec lo hi text = Some (start, (k, k * r)).
Proof.
  intros Hlo (Hk & Hleft & Hlong & Hloops & Hpre & Hmax).
  revert text Hleft Hlong Hloops Hpre Hmax.
  induction start as [|start IH]; intros text Hleft Hlong Hloops Hpre Hmax.
  - simpl in *. destruct text as [|c text].
    + simpl. unfold loopAt.
      rewrite (@loopTry_some lo (S hi - lo) k r []); try assumption; try lia; trivial.
      intros k' Hk'. apply Hlong. lia.
    + simpl. unfold loopAt.
      rewrite (@loopTry_some lo (S hi - lo) k r (c :: text));
        try assumption; try lia; trivial.
      intros k' Hk'. apply Hlong. lia.
  - destruct text as [|c text].
    + exfalso. destruct Hloops as (Hlen & _). simpl in Hlen. lia.
    + simpl. unfold loopAt at 1.
      rewrite loopTry_none; [|assumption|].
      * simpl in Hlong, Hloops, Hpre, Hmax.
        rewrite (IH text); trivial.
        intros i k' Hi Hk'. apply (Hleft (S i) k'); [lia|assumption].
      * intros k' Hk'. apply (Hleft 0 k'); [lia|lia].
Qed.

End LoopFacts.

(** ** The hallucination filter *)

Section Filter.
Import JS.

Example lit_sou_desu :
  lit "そうです" = [0x305D; 0x3046; 0x3067; 0x3059]%N.
Proof. reflexivity. Qed.

Example cleanText_short_noise : LocalApp.cleanText (lit "あー") = [].
Proof. vm_compute. reflexivity. Qed.

(** One word that is three quarters of the words or more. *)
Example cleanText_word_loop : LocalApp.cleanText (lit "じゃあ、じゃあ、じゃあ") = [].
Proof. vm_compute. reflexivity. Qed.

(** A word that names a property of [Object.prototype] is not counted. *)
Example hasRepetitionLoop_inherited_key :
  LocalApp.hasRepetitionLoop (lit "abc、abc。abc") = true
  /\ LocalApp.hasRepetitionLoop (lit "valueOf、valueOf。valueOf") = false.
Proof. split; vm_compute; reflexivity. Qed.

Example cleanText_dots :
  LocalApp.cleanText (lit "今日は...いい天気") = lit "今日はいい天気".
Proof. vm_compute. reflexivity. Qed.

Example cleanText_blacklist_only :
  LocalApp.cleanText (lit "  amara.ORG。 ") = []
  /\ LocalApp.cleanText (lit "(笑)") = [].
Proof. split; vm_compute; reflexivity. Qed.

Example cleanText_squash :
  LocalApp.cleanText (lit "明日の会議は、はい、はい、はい、十時からです")
  = lit "明日の会議は、はい、十時からです"
  /\ LocalApp.cleanText (lit "明日は会議があるあるあると聞きました")
     = lit "明日は会議があると聞きました".
Proof. split; vm_compute; reflexivity. Qed.

(** C1, as the specification has it, does not hold. The text below holds
    "abc" seven times in a row, 21 of its 37 code units; the pattern finds
    the phrase "abcabc" three times, 18 code units, which is not more than
    half of the text, and the filter returns a text that is not empty. *)
Lemma C1_counterexample :
  ~ (forall (text : str) (start k r : nat),
        3 <= k <= 20 -> 3 <= r ->
        Spec.repeatsAt text start k r ->
        length text < 2 * (k * r) ->
        LocalApp.cleanText text = []).
Proof.
  intros H.
  specialize (H (lit "abcabcabcabcabcabcabcdefghijklmnopqrs") 0 3 7).
  assert (E : LocalApp.cleanText (lit "abcabcabcabcabcabcabcdefghijklmnopqrs")
              = lit "abcabcabcdefghijklmnopqrs")
    by (vm_compute; reflexivity).
  rewrite E in H. clear E.
  assert (F : lit "abcabcabcdefghijklmnopqrs" <> []) by (vm_compute; discriminate).
  apply F, H; clear H F.
  - lia.
  - lia.
  - split; [vm_compute; lia|].
    exists (lit "defghijklmnopqrs"). vm_compute. reflexivity.
  - vm_compute. lia.
Qed.

(** C1, amended: when the match of [/(.{3,20})\1{2,}/] in the text (the
    leftmost position where a phrase of 3 to 20 code units without line
    terminator is written three times in a row, the longest such phrase
    there, and all its consecutive copies) spans more than half of the
    text, the filter returns the empty string. "そうです" written four times
    is rejected so. *)
Theorem C1_loop_rejection (text : str) (start k r : nat) :
  (Spec.loopMatch 3 20 text start k r ->
   length text < 2 * (k * r) ->
   LocalApp.hasRepetitionLoop text = true /\ LocalApp.cleanText text = [])
  /\ LocalApp.cleanText (lit "そうですそうですそうですそうです") = [].
Proof.
  split; [|vm_compute; reflexivity].
  intros Hm Hspan.
  assert (Hexec : loopExec 3 20 text = Some (start, (k, k * r)))
    by (apply LoopFacts.loopExec_match; [lia|assumption]).
  assert (Hlen : 9 <= length text).
  { destruct Hm as (Hk & _ & _ & Hl & _). apply LoopFacts.loops_length in Hl.
    rewrite length_skipn in Hl. lia. }
  assert (Hloop : LocalApp.hasRepetitionLoop text = true).
  { unfold LocalApp.hasRepetitionLoop. rewrite Hexec.
    assert (H6 : (length text <? 6) = false) by (apply Nat.ltb_ge; lia).
    assert (Hs : (length text <? 2 * (k * r)) = true) by (apply Nat.ltb_lt; lia).
    now rewrite H6, Hs. }
  split; [assumption|].
  unfold LocalApp.cleanText, LocalApp.cleanStages. rewrite Hloop.
  destruct text; reflexivity.
Qed.

Lemma C1_loop_rejection_witness :
  LocalApp.hasRepetitionLoop (lit "そうですそうですそうですそうです") = true
  /\ LocalApp.cleanText (lit "そうですそうですそうですそうです") = [].
Proof.
  apply (proj1 (C1_loop_rejection (lit "そうですそうですそうですそうです") 0 4 4)).
  - split; [lia|]. split; [intros i k' Hi; lia|].
    split.
    { intros k' Hk' Hl. apply LoopFacts.loops_test in Hl; [|lia].
      do 21 (destruct k' as [|k']; [try lia; try (vm_compute in Hl; discriminate)|]).
      lia. }
    split; [apply LoopFacts.loops_test; [lia|vm_compute; reflexivity]|].
    split.
    + exists []. vm_compute. reflexivity.
    + intros [t Ht]. apply (f_equal (@length _)) in Ht.
      rewrite length_app in Ht. vm_compute in Ht. lia.
  - vm_compute. lia.
Defined.

(** C2, as the specification has it, does not hold: the sentences that
    are kept are joined again and the [。] at either end of the result is
    stripped, so the function does not return the text with its final
    [。]. *)
Lemma C2_counterexample :
  LocalApp.cleanText (lit "今日は会議でした。ご視聴ありがとうございました。")
  <> lit "今日は会議でした。".
Proof. vm_compute. discriminate. Qed.

(** C2, amended: on "今日は会議でした。ご視聴ありがとうございました。" the
    filter drops the sentence that holds the blacklisted phrase, keeps the
    other one and returns it without the sentence delimiter:
    "今日は会議でした". [filterHallucinations] returns the same text. *)
Theorem C2_blacklist_sentence_strip :
  LocalApp.cleanText (lit "今日は会議でした。ご視聴ありがとうございました。")
  = lit "今日は会議でした"
  /\ GroqApp.filterHallucinations
       (lit "今日は会議でした。ご視聴ありがとうございました。")
     = lit "今日は会議でした".
Proof. split; vm_compute; reflexivity. Qed.

(** C3: when the text that reaches the last stage of the filter, trimmed,
    is shorter than three code units, the filter returns the empty string;
    so a result of the filter is empty or has three code units at least.
    "あ。" is rejected and "会議中。" is returned as it is. The same holds for
    [filterHallucinations]. *)
Theorem C3_length_floor (text : str) :
  (forall cleaned,
      LocalApp.cleanStages text = Some cleaned ->
      length cleaned < 3 -> LocalApp.cleanText text = [])
  /\ (forall cleaned,
      GroqApp.filterStages text = Some cleaned ->
      length (trim cleaned) < 3 -> GroqApp.filterHallucinations text = [])
  /\ (LocalApp.cleanText text = [] \/ 3 <= length (LocalApp.cleanText text))
  /\ (GroqApp.filterHallucinations text = []
      \/ 3 <= length (GroqApp.filterHallucinations text))
  /\ LocalApp.cleanText (lit "あ。") = []
  /\ LocalApp.cleanText (lit "会議中。") = lit "会議中。"
  /\ GroqApp.filterHallucinations (lit "あ。") = []
  /\ GroqApp.filterHallucinations (lit "会議中。") = lit "会議中。".
Proof.
  split; [|split; [|split; [|split; [|repeat split; vm_compute; reflexivity]]]].
  - intros cleaned Hs Hlen. unfold LocalApp.cleanText. rewrite Hs.
    apply Nat.ltb_lt in Hlen. now rewrite Hlen.
  - intros cleaned Hs Hlen. unfold GroqApp.filterHallucinations. rewrite Hs.
    assert (H : (length (trim cleaned) <=? 2) = true) by (apply Nat.leb_le; lia).
    now rewrite H.
  - unfold LocalApp.cleanText.
    destruct (LocalApp.cleanStages text) as [cleaned|]; [|now left].
    destruct (Nat.ltb_spec (length cleaned) 3); [now left | now right].
  - unfold GroqApp.filterHallucinations.
    destruct (GroqApp.filterStages text) as [cleaned|]; [|now left].
    destruct (Nat.leb_spec (length (trim cleaned)) 2); [now left | right; lia].
Qed.

Lemma C3_length_floor_witness :
  LocalApp.cleanStages (lit "あ。") = Some (lit "あ。")
  /\ LocalApp.cleanText (lit "あ。") = [].
Proof.
  split; [vm_compute; reflexivity|].
  apply (proj1 (C3_length_floor (lit "あ。")) (lit "あ。")).
  - vm_compute; reflexivity.
  - vm_compute; lia.
Defined.

End Filter.

(** ** Amplitudes *)

Module AudioFacts.
Import Audio Spec.
Local Open Scope Q_scope.

Lemma Qltb_lt (a b : Q) : Qltb a b = true <-> a < b.
Proof.
  unfold Qltb. rewrite negb_true_iff, <- not_true_iff_false, Qle_bool_iff.
  split; [apply Qnot_le_lt | apply Qlt_not_le].
Qed.

Lemma Qltb_ge (a b : Q) : Qltb a b = false <-> b <= a.
Proof.
  unfold Qltb. rewrite negb_false_iff. apply Qle_bool_iff.
Qed.

Lemma peakFrom_spec (w : list Q) (m : Q) :
  m <= peakFrom m w
  /\ Forall (fun x => Qabs x <= peakFrom m w) w
  /\ (peakFrom m w = m \/ Exists (fun x => peakFrom m w = Qabs x) w).
Proof.
  revert m. induction w as [|x w IH]; intros m; simpl.
  - split; [apply Qle_refl|]. split; [constructor|now left].
  - fold (peakFrom (if Qltb m (Qabs x) then Qabs x else m) w).
    destruct (IH (if Qltb m (Qabs x) then Qabs x else m)) as (H1 & H2 & H3).
    destruct (Qltb m (Qabs x)) eqn:E.
    + apply Qltb_lt in E. split; [lra|]. split.
      * constructor; assumption.
      * right. destruct H3 as [H3|H3]; [now left|now right].
    + apply Qltb_ge in E. split; [assumption|]. split.
      * constructor; [lra|assumption].
      * destruct H3 as [H3|H3]; [now left|right; now right].
Qed.

(** The maximum that [Math.max] returns. *)
Lemma Math_max_from (l : list Q) (y : Q) :
  exists m,
    fold_left
      (fun m x => match m with
                  | None => Some x
                  | Some y => Some (if Qltb y x then x else y)
                  end) l (Some y) = Some m
    /\ y <= m /\ Forall (fun x => x <= m) l /\ (m = y \/ In m l).
Proof.
  revert y. induction l as [|x l IH]; intros y; simpl.
  - exists y. split; [reflexivity|]. split; [apply Qle_refl|]. split; [constructor|now left].
  - destruct (IH (if Qltb y x then x else y)) as (m & Hm & H1 & H2 & H3).
    exists m. split; [assumption|].
    destruct (Qltb y x) eqn:E.
    + apply Qltb_lt in E. split; [lra|]. split; [constructor; assumption|].
      right. destruct H3 as [->|H3]; [now left|now right].
    + apply Qltb_ge in E. split; [assumption|]. split; [constructor; [lra|assumption]|].
      destruct H3 as [->|H3]; [now left|right; now right].
Qed.

Lemma Math_max_spec (l : list Q) :
  match MainApp.Math_max l with
  | None => l = []
  | Some m => Forall (fun x => x <= m) l /\ In m l
  end.
Proof.
  destruct l as [|y l]; [reflexivity|].
  unfold MainApp.Math_max. simpl.
  destruct (Math_max_from l y) as (m & Hm & H1 & H2 & H3). rewrite Hm.
  split; [constructor; assumption|].
  destruct H3 as [->|H3]; [now left|now right].
Qed.

(** What the three branches of [normalizeAudio] give for a peak [M]. *)
Lemma normalize_cases (M : Q) (w : list Q) :
  Forall (fun x => Qabs x <= M) w ->
  Exists (fun x => M == Qabs x) w ->
  1 # 1000 <= M ->
  let out :=
    if Qle_bool M 1 && Qle_bool (1 # 10) M then w
    else if Qltb M (1 # 1000) then w
    else map (fun x => x * ((95 # 100) / M)) w in
  Forall (fun y => Qabs y <= 1) out
  /\ (wellScaled w -> out = w)
  /\ (~ wellScaled w ->
      Forall (fun y => Qabs y <= 95 # 100) out
      /\ Exists (fun y => Qabs y == 95 # 100) out).
Proof.
  intros Hall Hex HM. cbv zeta.
  assert (Hin : wellScaled w <-> M <= 1 /\ 1 # 10 <= M).
  { unfold wellScaled. rewrite Forall_forall, Exists_exists.
    rewrite Forall_forall in Hall. rewrite Exists_exists in Hex.
    destruct Hex as (x0 & Hx0 & E0). split.
    - intros [H1 (x & Hx & H2)]. split.
      + rewrite E0. now apply H1.
      + apply Qle_trans with (Qabs x); [assumption|now apply Hall].
    - intros [H1 H2]. split.
      + intros x Hx. apply Qle_trans with M; [now apply Hall|assumption].
      + exists x0. split; [assumption|]. now rewrite <- E0. }
  destruct (Qle_bool M 1 && Qle_bool (1 # 10) M) eqn:Htest.
  - apply andb_true_iff in Htest. rewrite !Qle_bool_iff in Htest.
    split; [|split; [reflexivity|]].
    + eapply Forall_impl; [|exact Hall]. intros x Hx. simpl in Hx. lra.
    + intros Hn. exfalso. apply Hn, Hin, Htest.
  - assert (Hsil : Qltb M (1 # 1000) = false) by now apply Qltb_ge.
    rewrite Hsil.
    assert (Hpos : 0 < M) by lra.
    assert (Hscale : forall x, Qabs x <= M ->
                               Qabs (x * ((95 # 100) / M)) <= 95 # 100).
    { intros x Hx. rewrite Qabs_Qmult.
      assert (Hs : 0 < (95 # 100) / M) by (apply Qlt_shift_div_l; lra).
      rewrite (Qabs_pos ((95 # 100) / M)) by lra.
      apply Qle_trans with (M * ((95 # 100) / M)).
      - apply Qmult_le_compat_r; lra.
      - assert (E : M * ((95 # 100) / M) == 95 # 100) by (field; lra).
        rewrite E. apply Qle_refl. }
    assert (Hb : Forall (fun y => Qabs y <= 95 # 100)
                   (map (fun x => x * ((95 # 100) / M)) w)).
    { apply Forall_map. eapply Forall_impl; [|exact Hall].
      intros x Hx. now apply Hscale. }
    split; [|split].
    + eapply Forall_impl; [|exact Hb]. intros y Hy. simpl in Hy. lra.
    + intros Hr. apply Hin in Hr. exfalso.
      apply andb_false_iff in Htest.
      destruct Htest as [Ht|Ht]; apply not_true_iff_false in Ht;
        apply Ht, Qle_bool_iff; tauto.
    + intros _. split; [assumption|].
      apply Exists_map. eapply Exists_impl; [|exact Hex].
      intros x Hx. simpl in Hx. rewrite Qabs_Qmult.
      assert (Hs : 0 < (95 # 100) / M) by (apply Qlt_shift_div_l; lra).
      rewrite (Qabs_pos ((95 # 100) / M)) by lra.
      rewrite <- Hx. field. lra.
Qed.

Lemma loud_peak (M : Q) (w : list Q) :
  Forall (fun x => Qabs x <= M) w ->
  Exists (fun x => 1 # 1000 <= Qabs x) w ->
  1 # 1000 <= M.
Proof.
  rewrite Forall_forall, Exists_exists. intros Hall (x & Hx & H).
  apply Qle_trans with (Qabs x); [assumption|now apply Hall].
Qed.

End AudioFacts.

(** ** Normalisation *)

Section Normalisation.
Import Audio Spec AudioFacts.
Local Open Scope Q_scope.

(** C4, as the specification has it, does not hold: a waveform whose peak
    is 1.0 is returned as it is, and 1.0 is more than 0.95 and a rounding
    error. *)
Lemma C4_counterexample :
  audible [1]
  /\ LocalApp.normalizeAudio [1] = [1]
  /\ MainApp.normalizeAudio Inputs.engine [1] = Some [1]
  /\ ~ Forall (fun y => Qabs y <= (95 # 100) + (1 # 100)) (LocalApp.normalizeAudio [1]).
Proof.
  split; [|split; [|split]].
  - constructor. vm_compute. discriminate.
  - reflexivity.
  - reflexivity.
  - intros H. inversion H as [|y l Hy _]. vm_compute in Hy. now apply Hy.
Qed.

(** C4, amended: for every waveform that is not silent, no sample of the
    normalised waveform exceeds 1.0 in absolute value; the waveform is
    returned unchanged when its peak lies in [0.1, 1.0], and otherwise no
    sample exceeds 0.95 and some sample reaches it. The loop of the
    local-Whisper client behaves so on every waveform. [normalizeAudio] of
    [src/main.js] spreads the waveform into the arguments of [Math.max]:
    it behaves so when the engine accepts that many arguments, and throws
    when it does not, whatever the samples are. *)
Theorem C4_normalization_bounds (fitsCall : nat -> bool) (w : list Q) :
  audible w ->
  (Forall (fun y => Qabs y <= 1) (LocalApp.normalizeAudio w)
   /\ (wellScaled w -> LocalApp.normalizeAudio w = w)
   /\ (~ wellScaled w ->
       Forall (fun y => Qabs y <= 95 # 100) (LocalApp.normalizeAudio w)
       /\ Exists (fun y => Qabs y == 95 # 100) (LocalApp.normalizeAudio w)))
  /\ (fitsCall (length w) = false -> MainApp.normalizeAudio fitsCall w = None)
  /\ (fitsCall (length w) = true ->
      exists out,
        MainApp.normalizeAudio fitsCall w = Some out
        /\ Forall (fun y => Qabs y <= 1) out
        /\ (wellScaled w -> out = w)
        /\ (~ wellScaled w ->
            Forall (fun y => Qabs y <= 95 # 100) out
            /\ Exists (fun y => Qabs y == 95 # 100) out)).
Proof.
  intros Hloud. split; [|split].
  - unfold LocalApp.normalizeAudio. fold (peakFrom 0 w).
    destruct (peakFrom_spec w 0) as (H0 & Hall & Hex).
    pose proof (loud_peak Hall Hloud) as HM.
    apply normalize_cases; try assumption.
    destruct Hex as [E|Hex].
    + rewrite E in HM. exfalso. revert HM. vm_compute. intros HM. now apply HM.
    + eapply Exists_impl; [|exact Hex]. intros x Hx. simpl in Hx. now rewrite Hx.
  - intros Hfit. unfold MainApp.normalizeAudio, MainApp.spread.
    now rewrite length_map, Hfit.
  - intros Hfit. unfold MainApp.normalizeAudio, MainApp.spread.
    rewrite length_map, Hfit.
    pose proof (Math_max_spec (map Qabs w)) as Hmax.
    destruct (MainApp.Math_max (map Qabs w)) as [M|].
    + destruct Hmax as [Hall Hin].
      apply (proj1 (@Forall_map _ _ Qabs (fun y => y <= M) w)) in Hall.
      pose proof (loud_peak Hall Hloud) as HM.
      assert (Hex : Exists (fun x => M == Qabs x) w).
      { apply in_map_iff in Hin. destruct Hin as (x & Hx & Hin).
        apply Exists_exists. exists x. split; [assumption|]. now rewrite Hx. }
      pose proof (normalize_cases Hall Hex HM) as Hc. cbv zeta in Hc.
      destruct (Qle_bool M 1 && Qle_bool (1 # 10) M);
        [|destruct (Qltb M (1 # 1000))]; eexists; (split; [reflexivity|exact Hc]).
    + apply map_eq_nil in Hmax. subst w. inversion Hloud.
Qed.

Lemma C4_normalization_bounds_witness :
  Forall (fun y => Qabs y <= 1) (LocalApp.normalizeAudio [1 # 100; -(5 # 100)]).
Proof.
  apply (@C4_normalization_bounds Inputs.engine [1 # 100; -(5 # 100)]).
  constructor. vm_compute. discriminate.
Defined.

End Normalisation.

(** ** Resampling *)

Module ResampleFacts.
Import Audio Spec AudioFacts.
Local Open Scope Q_scope.

Lemma length_monoMix (b : AudioBuffer) : length (LocalApp.monoMix b) = frames b.
Proof.
  unfold LocalApp.monoMix, frames.
  destruct (numberOfChannels b =? 1)%nat; [reflexivity|].
  now rewrite length_map, length_seq.
Qed.




Lemma duration_times_rate (b : AudioBuffer) (target : Q) :
  0 < sampleRate b -> 0 < target ->
  inject_Z (Z.of_nat (length (LocalApp.monoMix b))) / (sampleRate b / target)
  == duration b * target.
Proof.
  intros Hs Ht. rewrite length_monoMix. unfold duration. field. split; lra.
Qed.

(** The length of what the manual resampler returns. *)
Lemma length_resampleManually (b : AudioBuffer) (target : Q) :
  0 < sampleRate b -> 0 < target ->
  length (LocalApp.resampleManually b target)
  = if Qeq_bool (sampleRate b) target then frames b
    else Z.to_nat (Math_floor (duration b * target)).
Proof.
  intros Hs Ht. unfold LocalApp.resampleManually.
  destruct (Qeq_bool (sampleRate b) target); [apply length_monoMix|].
  rewrite length_map, length_seq. unfold Math_floor.
  now rewrite (Qfloor_comp _ _ (duration_times_rate b Hs Ht)).
Qed.

(** The mono mix of a buffer of two channels or more reads the first two
    channels only. *)
Lemma monoMix_two_channels (b : AudioBuffer) (i : nat) :
  (2 <= numberOfChannels b)%nat -> (i < frames b)%nat ->
  nth i (LocalApp.monoMix b) 0
  = (nth i (getChannelData b 0) 0 + nth i (getChannelData b 1) 0) / 2.
Proof.
  intros HC Hi. unfold LocalApp.monoMix.
  destruct (Nat.eqb_spec (numberOfChannels b) 1) as [E|_]; [lia|].
  set (f := fun j => (nth j (getChannelData b 0) 0 + nth j (getChannelData b 1) 0) / 2).
  change 0 with (0 # 1) at 1.
  rewrite (nth_indep _ _ (f 0%nat)) by (now rewrite length_map, length_seq).
  rewrite (map_nth f (seq 0 (length (getChannelData b 0))) 0%nat i).
  now rewrite seq_nth.
Qed.

(** The manual resampler converts the rate of the mono mix: the channels
    are read by the mix only. *)
Lemma resample_after_downmix (b b' : AudioBuffer) (target : Q) :
  sampleRate b = sampleRate b' -> LocalApp.monoMix b = LocalApp.monoMix b' ->
  LocalApp.resampleManually b target = LocalApp.resampleManually b' target.
Proof.
  intros Hrate Hmix. unfold LocalApp.resampleManually. now rewrite Hrate, Hmix.
Qed.

End ResampleFacts.

Section Resampling.
Import Audio Spec AudioFacts ResampleFacts Inputs.
Local Open Scope Q_scope.


(** C6 on the fallback path: five frames at 48 kHz last 5/48000 s, which is
    1.67 samples at 16 kHz, and the manual resampler returns one sample,
    not the two of round(D * 16000); a recording of 48002 frames at 48 kHz
    gives 16000 samples, not 16001. The offline context of the same file
    is asked for round(D * 16000) samples. *)
Theorem C6_fallback_length :
  length (LocalApp.resampleManually fiveFrames TARGET_SAMPLE_RATE) = 1%nat
  /\ Z.to_nat (Math_round (duration fiveFrames * TARGET_SAMPLE_RATE)) = 2%nat
  /\ option_map (@length Q)
       (LocalApp.resampleWithOfflineContext renderFirstChannel fiveFrames)
     = Some 2%nat
  /\ Z.of_nat (length (LocalApp.resampleManually oneSecond TARGET_SAMPLE_RATE))
     = 16000%Z
  /\ Math_round (duration oneSecond * TARGET_SAMPLE_RATE) = 16001%Z.
Proof.
  split; [vm_compute; reflexivity|].
  split; [vm_compute; reflexivity|].
  split; [vm_compute; reflexivity|].
  split.
  - rewrite length_resampleManually; vm_compute; reflexivity.
  - vm_compute. reflexivity.
Qed.

(** C7 on a buffer of three channels: the manual resampler mixes the first
    two channels, (0 + 0) / 2, and leaves the third out; the mean of the
    three samples is (0 + 0 + 3) / 3. *)
Theorem C7_downmix_three_channels :
  numberOfChannels threeChannels = 3%nat
  /\ LocalApp.monoMix threeChannels = [(0 + 0) / 2]
  /\ LocalApp.resampleManually threeChannels TARGET_SAMPLE_RATE = [(0 + 0) / 2]
  /\ ~ (0 + 0) / 2 == (0 + 0 + 3) / 3.
Proof.
  split; [|split; [|split]]; try reflexivity.
  vm_compute. discriminate.
Qed.

End Resampling.

(** ** The silence gate *)

Section SilenceGate.
Import JS Audio Shared Spec Inputs.
Local Open Scope Q_scope.

(** C5, as the specification has it, does not hold for the local-Whisper
    client: its gate reads the waveform before normalisation. The faint
    click is silent for that gate, so nothing is posted to the worker,
    though the normalised click is not below the threshold; [src/main.js],
    whose gate reads the normalised waveform, posts it. *)
Lemma C5_counterexample :
  root_lt
    (calculateRMS
       (LocalApp.normalizeAudio (LocalApp.resample renderFirstChannel faintClick)))
    (1 # 1000) = false
  /\ outbox (LocalApp.processAudioData (decodeTo faintClick) renderFirstChannel st0) = []
  /\ toasts (LocalApp.processAudioData (decodeTo faintClick) renderFirstChannel st0)
     = [(lit "音声が検出されませんでした", warning)]
  /\ length
       (outbox (MainApp.processAudioData engine (decodeTo faintClick)
                  renderFirstChannel st0))
     = 1%nat.
Proof. repeat split; vm_compute; reflexivity. Qed.

(** C5, amended: the gate compares rms = sqrt(mean(sample^2)) with 0.001.
    In [src/main.js] the waveform it reads is the rendered one after
    normalisation; when the rendering or the normalisation throws, the
    latter because the engine does not accept the waveform as the
    arguments of a call, there is no waveform to read, the error toast is
    shown and the client is idle again. In the local-Whisper client the
    gate reads the resampled waveform before normalisation, which is
    applied to what passes the gate. In both, when rms < 0.001 nothing is
    posted to the worker and the client is idle again; a waveform that
    passes is posted when there is a worker. *)
Theorem C5_silence_gate
    (fitsCall : nat -> bool)
    (decodeAudioData : list (list N) -> option AudioBuffer)
    (startRendering : AudioBuffer -> Graph -> nat -> option (list Q))
    (st : State) (buf : AudioBuffer) :
  audioChunks st <> [] ->
  decodeAudioData (audioChunks st) = Some buf ->
  (exists n,
      MainApp.resampleTo16kHzMono fitsCall startRendering buf
      = match startRendering buf (mixGraph buf) n with
        | Some rendered => MainApp.normalizeAudio fitsCall rendered
        | None => None
        end
      /\ (forall rendered,
          startRendering buf (mixGraph buf) n = Some rendered ->
          fitsCall (length rendered) = false ->
          MainApp.resampleTo16kHzMono fitsCall startRendering buf = None))
  /\ (forall pcm,
      MainApp.resampleTo16kHzMono fitsCall startRendering buf = Some pcm -> pcm <> [] ->
      (root_lt (calculateRMS pcm) (1 # 1000) = true ->
       idleAfter st (MainApp.processAudioData fitsCall decodeAudioData startRendering st))
      /\ (root_lt (calculateRMS pcm) (1 # 1000) = false -> hasWorker st = true ->
          outbox (MainApp.processAudioData fitsCall decodeAudioData startRendering st)
          = {| audioData := pcm; prompt := keywordPrompt st |} :: outbox st))
  /\ (MainApp.resampleTo16kHzMono fitsCall startRendering buf = None ->
      idleAfter st (MainApp.processAudioData fitsCall decodeAudioData startRendering st)
      /\ toasts (MainApp.processAudioData fitsCall decodeAudioData startRendering st)
         = (lit "音声データの処理に失敗しました", error) :: toasts st)
  /\ (LocalApp.resample startRendering buf <> [] ->
      (root_lt (calculateRMS (LocalApp.resample startRendering buf)) (1 # 1000) = true ->
       idleAfter st (LocalApp.processAudioData decodeAudioData startRendering st))
      /\ (root_lt (calculateRMS (LocalApp.resample startRendering buf)) (1 # 1000) = false ->
          hasWorker st = true ->
          outbox (LocalApp.processAudioData decodeAudioData startRendering st)
          = {| audioData := LocalApp.normalizeAudio (LocalApp.resample startRendering buf);
               prompt := keywordPrompt st |} :: outbox st)).
Proof.
  intros Hchunks Hdecode. split; [|split; [|split]].
  - eexists. split; [reflexivity|].
    intros rendered Hr Hfit. unfold MainApp.resampleTo16kHzMono. rewrite Hr.
    unfold MainApp.normalizeAudio, MainApp.spread. now rewrite length_map, Hfit.
  - intros pcm Hpcm Hne. unfold MainApp.processAudioData.
    destruct (audioChunks st) as [|c cs] eqn:Ec; [congruence|].
    change (audioChunks (updateStatus processing (lit "音声データを処理中...")
                           (set_isProcessing true st))) with (audioChunks st).
    rewrite Ec, Hdecode, Hpcm.
    destruct pcm as [|x pcm]; [congruence|].
    split.
    + intros Hsilent. rewrite Hsilent. repeat split.
    + intros Hloud Hw. rewrite Hloud.
      change (hasWorker (updateStatus processing (lit "音声データを処理中...")
                           (set_isProcessing true st))) with (hasWorker st).
      rewrite Hw. reflexivity.
  - intros Hthrown. unfold MainApp.processAudioData.
    destruct (audioChunks st) as [|c cs] eqn:Ec; [congruence|].
    change (audioChunks (updateStatus processing (lit "音声データを処理中...")
                           (set_isProcessing true st))) with (audioChunks st).
    rewrite Ec, Hdecode, Hthrown. repeat split.
  - intros Hne. unfold LocalApp.processAudioData.
    destruct (audioChunks st) as [|c cs] eqn:Ec; [congruence|].
    change (audioChunks (updateStatus processing (lit "音声データを処理中...")
                           (set_isProcessing true st))) with (audioChunks st).
    rewrite Ec, Hdecode.
    destruct (LocalApp.resample startRendering buf) as [|x pcm]; [congruence|].
    split.
    + intros Hsilent. rewrite Hsilent. repeat split.
    + intros Hloud Hw. rewrite Hloud.
      change (hasWorker (updateStatus processing (lit "音声データを処理中...")
                           (set_isProcessing true st))) with (hasWorker st).
      rewrite Hw. reflexivity.
Qed.

(** Five seconds of speech on an engine that accepts 65536 arguments:
    [normalizeAudio] of [src/main.js] throws on the 80000 samples, and the
    first client shows the error toast and posts nothing. *)
Example long_recording_fails :
  MainApp.resampleTo16kHzMono engine renderFirstChannel fiveSeconds = None
  /\ toasts (MainApp.processAudioData engine (decodeTo fiveSeconds)
               renderFirstChannel st0)
     = [(lit "音声データの処理に失敗しました", error)]
  /\ outbox (MainApp.processAudioData engine (decodeTo fiveSeconds)
               renderFirstChannel st0) = [].
Proof. repeat split; vm_compute; reflexivity. Qed.

Lemma C5_silence_gate_witness :
  idleAfter st0 (LocalApp.processAudioData (decodeTo faintClick) renderFirstChannel st0).
Proof.
  apply (@C5_silence_gate engine (decodeTo faintClick) renderFirstChannel st0 faintClick).
  - vm_compute. discriminate.
  - reflexivity.
  - vm_compute. discriminate.
  - vm_compute. reflexivity.
Defined.

End SilenceGate.

(** ** The result handler *)

Section Handler.
Import JS Shared Spec Inputs.

Lemma transcriptions_navigateToDetail (id : str) (st : State) :
  transcriptions (navigateToDetail id st) = transcriptions st.
Proof.
  unfold navigateToDetail. now destruct (find _ _).
Qed.



Example handler_keeps_speech :
  map tr_fullText
    (transcriptions
       (LocalApp.handleTranscriptionResult noon (lit "会議は3時からです")
          (withKeywords [lit "3時"] [])))
  = [lit "会議は3時からです"].
Proof. vm_compute. reflexivity. Qed.

End Handler.

(** ** Keywords *)

Section Keywords.
Import JS Shared Spec Inputs.

(** *** Keywords without [$] *)

Lemma substitute_literal (tmpl matched before after : str) :
  dollarFree tmpl -> substitute tmpl matched before after = tmpl.
Proof.
  unfold dollarFree. induction tmpl as [|c t IH]; intros Hfree; [reflexivity|].
  cbn [substitute].
  destruct (N.eqb_spec c (chr "$")) as [E|NE].
  - exfalso. apply Hfree. now left.
  - f_equal. apply IH. intros H. apply Hfree. now right.
Qed.

Lemma startsWithCI_length (w s : str) :
  startsWithCI w s = true -> length w <= length s.
Proof.
  revert s. induction w as [|x w IH]; intros [|c s] H; simpl in *; try lia.
  apply andb_true_iff in H. destruct H as [_ H]. apply IH in H. lia.
Qed.

(** The replacement of a keyword without [$] writes the keyword over each
    occurrence. *)
Lemma replaceAllCI_stamp (w pending pre s : str) :
  dollarFree w -> w <> [] -> length pending <= length s ->
  pending ++ replaceAllCI w w pre (length pending) s = stamp w pending s.
Proof.
  intros Hfree Hw. revert pending pre.
  induction s as [|c s IH]; intros pending pre Hlen.
  - destruct pending; [reflexivity|simpl in Hlen; lia].
  - destruct pending as [|d p'].
    + cbn [app length replaceAllCI stamp].
      destruct (startsWithCI w (c :: s)) eqn:Hm.
      * rewrite substitute_literal by assumption.
        destruct w as [|x w']; [congruence|].
        apply startsWithCI_length in Hm. simpl in Hm.
        cbn [length]. rewrite Nat.sub_succ, Nat.sub_0_r.
        cbn [app]. f_equal. apply IH. lia.
      * f_equal. apply (IH [] (c :: pre)). simpl. lia.
    + cbn [app length replaceAllCI stamp]. f_equal. apply IH. simpl in Hlen. lia.
Qed.

Lemma replaceKeyword_stamp (w s : str) :
  dollarFree w -> replaceKeyword w s = stamp w [] s.
Proof.
  intros Hfree. destruct w as [|x w'].
  - simpl. induction s as [|c s IH]; [reflexivity|]. simpl. now rewrite <- IH.
  - unfold replaceKeyword.
    apply (@replaceAllCI_stamp (x :: w') [] [] s); [assumption|discriminate|simpl; lia].
Qed.

Lemma startsWithCI_sameCase (w s t : str) :
  sameCase s t -> startsWithCI w s = startsWithCI w t.
Proof.
  unfold sameCase. revert s t.
  induction w as [|x w IH]; intros [|a s] [|b t] H; simpl in *;
    try reflexivity; try discriminate.
  injection H as Hab H. rewrite Hab. f_equal. now apply IH.
Qed.

Lemma stamp_overwritten (w pending s t : str) :
  sameCase s t -> Overwritten s t (stamp w pending s) (stamp w pending t).
Proof.
  unfold sameCase. revert pending t.
  induction s as [|a s IH]; intros pending [|b t] H; try discriminate.
  - constructor.
  - injection H as Hab H. cbn [stamp].
    destruct pending as [|d p'].
    + rewrite (@startsWithCI_sameCase w (a :: s) (b :: t))
        by (unfold sameCase; simpl; now rewrite Hab, H).
      destruct (startsWithCI w (b :: t)).
      * destruct w as [|x w']; constructor; now apply IH.
      * constructor. now apply IH.
    + constructor. now apply IH.
Qed.

(** What is written has the case class of what it replaces. *)
Lemma stamp_sameCase (w pending s : str) :
  map canonicalize pending = map canonicalize (firstn (length pending) s) ->
  sameCase (stamp w pending s) s.
Proof.
  unfold sameCase. revert pending.
  induction s as [|c s IH]; intros pending Hp; [reflexivity|].
  cbn [stamp]. destruct pending as [|d p'].
  - destruct (startsWithCI w (c :: s)) eqn:Hm.
    + destruct w as [|x w'].
      * simpl. f_equal. now apply IH.
      * simpl in Hm. apply andb_true_iff in Hm. destruct Hm as [Hx Hm].
        apply N.eqb_eq in Hx. simpl. rewrite Hx. f_equal. apply IH.
        clear -Hm. revert s Hm.
        induction w' as [|y w' IHw]; intros [|e s] Hm; simpl in *;
          try reflexivity; try discriminate.
        apply andb_true_iff in Hm. destruct Hm as [Hy Hm].
        apply N.eqb_eq in Hy. rewrite Hy. f_equal. now apply IHw.
    + simpl. f_equal. now apply IH.
  - simpl in Hp. injection Hp as Hd Hp. simpl. rewrite Hd. f_equal. now apply IH.
Qed.

Lemma replaceKeyword_sameCase (w s : str) :
  dollarFree w -> sameCase (replaceKeyword w s) s.
Proof.
  intros Hfree. rewrite replaceKeyword_stamp by assumption.
  now apply stamp_sameCase.
Qed.

Lemma between_step (s t s' t' u : str) :
  Overwritten s t s' t' -> Between s u t -> Between s' u t'.
Proof.
  intros Ho. revert u. induction Ho as [|a b x s t s' t' Ho IH|a b s t s' t' Ho IH];
    intros u Hb; inversion Hb; subst.
  - constructor.
  - apply Between_left. now apply IH.
  - apply Between_left. now apply IH.
  - apply Between_left. now apply IH.
  - apply Between_right. now apply IH.
Qed.

Lemma between_same (s t : str) : Between s s t -> t = s.
Proof.
  revert t. induction s as [|a s IH]; intros t H; inversion H; subst;
    try reflexivity; f_equal; now apply IH.
Qed.

Lemma between_refl (s u : str) : length s = length u -> Between s u u.
Proof.
  revert u. induction s as [|a s IH]; intros [|b u] H; simpl in H; try lia.
  - constructor.
  - apply Between_right. apply IH. lia.
Qed.

Lemma replaceAll_sameCase (ws : list str) (s : str) :
  Forall dollarFree ws -> sameCase (replaceAll ws s) s.
Proof.
  intros Hfree. revert s. induction Hfree as [|w ws Hw Hws IH]; intros s.
  - reflexivity.
  - simpl. unfold sameCase in *. rewrite IH. now apply replaceKeyword_sameCase.
Qed.

(** A text that lies between [s] and the corrected [s] is corrected to the
    same text. *)
Lemma replaceAll_between (ws : list str) (s t : str) :
  Forall dollarFree ws ->
  sameCase s t -> Between s (replaceAll ws s) t ->
  replaceAll ws t = replaceAll ws s.
Proof.
  intros Hfree. revert s t. induction Hfree as [|w ws Hw Hws IH]; intros s t Hc Hb.
  - simpl in *. now apply between_same.
  - simpl in *. apply IH.
    + unfold sameCase in *.
      rewrite (replaceKeyword_sameCase s Hw), (replaceKeyword_sameCase t Hw).
      assumption.
    + rewrite !replaceKeyword_stamp by assumption.
      apply between_step with s t.
      * now apply stamp_overwritten.
      * rewrite <- (replaceKeyword_stamp s Hw). assumption.
Qed.

Lemma processKeywords_replaceAll (st : State) (text : str) :
  processKeywords st text = replaceAll (map kw_word (keywords st)) text.
Proof.
  unfold processKeywords, replaceAll. generalize text.
  induction (keywords st) as [|k ks IH]; intros t; [reflexivity|]. simpl. apply IH.
Qed.

(** X11: for keywords without [$] the corrector is idempotent on every
    text, whether the keywords overlap or not. *)
Theorem processKeywords_idempotent (st : State) (text : str) :
  Forall (fun k => dollarFree (kw_word k)) (keywords st) ->
  processKeywords st (processKeywords st text) = processKeywords st text.
Proof.
  intros Hfree. rewrite !processKeywords_replaceAll.
  assert (Hws : Forall dollarFree (map kw_word (keywords st)))
    by (apply Forall_map; assumption).
  pose proof (replaceAll_sameCase text Hws) as Hc.
  apply replaceAll_between; try assumption.
  - unfold sameCase in *. now symmetry.
  - apply between_refl. unfold sameCase in Hc.
    apply (f_equal (@length _)) in Hc. rewrite !length_map in Hc. now symmetry.
Qed.

Lemma processKeywords_idempotent_witness :
  processKeywords (withKeywords [lit "VoiceScribe"; lit "voicescribe ai"] [])
    (processKeywords (withKeywords [lit "VoiceScribe"; lit "voicescribe ai"] [])
       (lit "using VOICESCRIBE AI today"))
  = processKeywords (withKeywords [lit "VoiceScribe"; lit "voicescribe ai"] [])
      (lit "using VOICESCRIBE AI today").
Proof.
  apply (@processKeywords_idempotent
           (withKeywords [lit "VoiceScribe"; lit "voicescribe ai"] [])
           (lit "using VOICESCRIBE AI today")).
  apply Forall_forall. intros k Hk.
  destruct Hk as [<-|[<-|[]]]; intros H; vm_compute in H;
    repeat (destruct H as [H|H]; [discriminate|]); exact H.
Defined.

(** C9 on the keyword "x$&", which [addKeyword] registers as any other
    word: the keyword is the replacement text of [replace] too, where [$&]
    stands for the text matched, so each pass puts one more "x" before the
    keyword, and the second application changes the text again. *)
Theorem C9_dollar_keyword :
  map kw_word (keywords (MainApp.addKeyword 1 (withKeywords [] (lit "x$&"))))
  = [lit "x$&"]
  /\ processKeywords (withKeywords [lit "x$&"] []) (lit "x$&") = lit "xx$&"
  /\ processKeywords (withKeywords [lit "x$&"] [])
       (processKeywords (withKeywords [lit "x$&"] []) (lit "x$&"))
     = lit "xxx$&".
Proof. repeat split; vm_compute; reflexivity. Qed.

(** *** The keyword set of [src/main.js] *)

Lemma uniqueCI_push (ks : list Keyword) (k : Keyword) :
  uniqueCI ks ->
  (forall k0, In k0 ks -> toLowerCase (kw_word k0) <> toLowerCase (kw_word k)) ->
  uniqueCI (ks ++ [k]).
Proof.
  unfold uniqueCI. induction ks as [|k1 ks IH]; intros Hu Hnew; simpl.
  - apply NoDup_cons_iff. split; [intros []|constructor].
  - apply NoDup_cons_iff in Hu. destruct Hu as [Hk1 Hu].
    apply NoDup_cons_iff. split.
    + rewrite map_app, in_app_iff. intros [Hin|[E|[]]]; [contradiction|].
      apply (Hnew k1); [now left|now symmetry].
    + apply IH; [exact Hu|]. intros k0 Hin. apply Hnew. now right.
Qed.

Lemma uniqueCI_filter (keep : Keyword -> bool) (ks : list Keyword) :
  uniqueCI ks -> uniqueCI (filter keep ks).
Proof.
  unfold uniqueCI. induction ks as [|k ks IH]; intros Hu; simpl; [exact Hu|].
  apply NoDup_cons_iff in Hu. destruct Hu as [Hk Hu].
  destruct (keep k); simpl; [|now apply IH].
  apply NoDup_cons_iff. split; [|now apply IH].
  contradict Hk. apply in_map_iff in Hk. destruct Hk as (k' & E & Hin).
  apply filter_In in Hin. apply in_map_iff. exists k'. tauto.
Qed.

Lemma keywordsUnique_saved (st : State) :
  uniqueCI (keywords st) ->
  match voicescribe_keywords (localStorage st) with
  | Some ks => uniqueCI ks
  | None => True
  end ->
  match saveKeywords st with
  | Some st' => keywords st' = keywords st /\ keywordsUnique st'
  | None => True
  end.
Proof.
  intros Hk Hs. unfold saveKeywords, setKeywords.
  destruct (writable (localStorage st)); [|exact I].
  split; [reflexivity|]. split; assumption.
Qed.

(** X12: in [src/main.js] the keyword set and its mirror stay unique up to
    case under [addKeyword], [deleteKeyword] and [loadKeywords], and a
    word that is equal up to case to a registered one leaves the set as it
    is. *)
Theorem keywords_stay_unique (now id : N) (st : State) :
  keywordsUnique st ->
  keywordsUnique (MainApp.addKeyword now st)
  /\ keywordsUnique (deleteKeyword id st)
  /\ keywordsUnique (loadKeywords st)
  /\ (Exists (fun k => toLowerCase (kw_word k) = toLowerCase (trim (keywordInput st)))
        (keywords st) ->
      keywords (MainApp.addKeyword now st) = keywords st).
Proof.
  intros [Hk Hs]. split; [|split; [|split]].
  - unfold MainApp.addKeyword.
    destruct (trim (keywordInput st)) as [|c input] eqn:Ein; [split; assumption|].
    destruct (existsb _ (keywords st)) eqn:Hex; [split; assumption|].
    set (k := {| kw_id := now; kw_word := c :: input |}).
    assert (Hk' : uniqueCI (keywords st ++ [k])).
    { apply uniqueCI_push; [assumption|].
      intros k0 Hin E0.
      apply not_true_iff_false in Hex. apply Hex.
      apply existsb_exists. exists k0. split; [assumption|].
      simpl in E0. rewrite E0. apply JSFacts.eqb_refl. }
    pose proof (@keywordsUnique_saved (set_keywords (keywords st ++ [k]) st) Hk' Hs) as Hsave.
    destruct (saveKeywords (set_keywords (keywords st ++ [k]) st)) as [st'|].
    + destruct Hsave as [_ Hu]. exact Hu.
    + split; assumption.
  - unfold deleteKeyword.
    set (ks := filter (fun k => negb (kw_id k =? id)%N) (keywords st)).
    assert (Hk' : uniqueCI ks) by (apply uniqueCI_filter; assumption).
    pose proof (@keywordsUnique_saved (set_keywords ks st) Hk' Hs) as Hsave.
    destruct (saveKeywords (set_keywords ks st)) as [st'|].
    + destruct Hsave as [_ Hu]. exact Hu.
    + split; assumption.
  - unfold loadKeywords. split; [|assumption]. simpl.
    destruct (voicescribe_keywords (localStorage st)); [assumption|constructor].
  - intros Hex. unfold MainApp.addKeyword.
    destruct (trim (keywordInput st)) as [|c input] eqn:Ein; [reflexivity|].
    assert (Hdup : existsb
                     (fun k => eqb (toLowerCase (kw_word k)) (toLowerCase (c :: input)))
                     (keywords st) = true).
    { apply existsb_exists. apply Exists_exists in Hex.
      destruct Hex as (k & Hin & E). exists k. split; [assumption|].
      rewrite E. apply JSFacts.eqb_refl. }
    now rewrite Hdup.
Qed.

Lemma keywords_stay_unique_witness :
  keywordsUnique (MainApp.addKeyword 7 (withKeywords [lit "abc"] (lit "ABC"))).
Proof.
  refine (proj1 (@keywords_stay_unique 7 0 (withKeywords [lit "abc"] (lit "ABC")) _)).
  split; [|exact I]. vm_compute. constructor; [intros []|constructor].
Defined.

(** C10 on the remote client: "ABC" is added to a set that holds "abc",
    the words being compared as they are, and the set is no longer unique
    up to case; [src/main.js] refuses the word. *)
Theorem C10_case_sensitive_add :
  uniqueCI (keywords (withKeywords [lit "abc"] (lit "ABC")))
  /\ map kw_word
       (keywords (GroqApp.addKeyword 7 (withKeywords [lit "abc"] (lit "ABC"))))
     = [lit "abc"; lit "ABC"]
  /\ ~ uniqueCI
         (keywords (GroqApp.addKeyword 7 (withKeywords [lit "abc"] (lit "ABC"))))
  /\ keywords (MainApp.addKeyword 7 (withKeywords [lit "abc"] (lit "ABC")))
     = keywords (withKeywords [lit "abc"] (lit "ABC")).
Proof.
  split; [|split; [|split]].
  - vm_compute. constructor; [intros []|constructor].
  - vm_compute. reflexivity.
  - vm_compute. intros H. inversion H as [|x l Hnotin _]. apply Hnotin. now left.
  - vm_compute. reflexivity.
Qed.

(** Letter case beyond ASCII. The corrector rewrites a Cyrillic and a
    full-width keyword wherever the text has them in another case, and the
    leftmost occurrence goes first; [addKeyword] of [src/main.js] refuses a
    word that is registered in another case; [toLowerCase] writes the
    final sigma at the end of a word. *)
Example processKeywords_cyrillic :
  processKeywords (withKeywords [lit "Москва"] []) (lit "в МОСКВА и москва")
  = lit "в Москва и Москва".
Proof. vm_compute. reflexivity. Qed.

Example processKeywords_fullwidth :
  processKeywords (withKeywords [lit "ＡＩ"] []) (lit "ａｉ技術")
  = lit "ＡＩ技術".
Proof. vm_compute. reflexivity. Qed.

Example processKeywords_leftmost :
  processKeywords (withKeywords [lit "жЖ"] []) (lit "ЖжЖ") = lit "жЖЖ".
Proof. vm_compute. reflexivity. Qed.

Example addKeyword_cyrillic :
  keywords (MainApp.addKeyword 7 (withKeywords [lit "москва"] (lit "МОСКВА")))
  = keywords (withKeywords [lit "москва"] (lit "МОСКВА"))
  /\ toasts (MainApp.addKeyword 7 (withKeywords [lit "москва"] (lit "МОСКВА")))
     = [(lit "既に登録されています", warning)].
Proof. split; vm_compute; reflexivity. Qed.

Example toLowerCase_final_sigma :
  toLowerCase (lit "ΟΔΟΣ ΣΟΦΟΣ") = lit "οδος σοφος".
Proof. vm_compute. reflexivity. Qed.

End Keywords.

(* ================================================================== *)
(** * Further properties of the code *)
(* ================================================================== *)

(** ** Lengths through the text filter *)

Module LengthFacts.
Import JS Notions.

Lemma span_app (cls : unit -> bool) (s : str) :
  fst (span cls s) ++ snd (span cls s) = s.
Proof.
  induction s as [|c s IH]; [reflexivity|]. simpl.
  destruct (cls c); [|reflexivity].
  destruct (span cls s) as [r t]. simpl in *. now rewrite IH.
Qed.

Lemma length_run (cls : unit -> bool) (s : str) :
  length (fst (span cls s)) <= length s.
Proof.
  rewrite <- (span_app cls s) at 2. rewrite length_app. lia.
Qed.

Lemma length_dropWhile (cls : unit -> bool) (s : str) :
  length (dropWhile cls s) <= length s.
Proof.
  unfold dropWhile. rewrite <- (span_app cls s) at 2. rewrite length_app. lia.
Qed.

Lemma length_dropWhileEnd (cls : unit -> bool) (s : str) :
  length (dropWhileEnd cls s) <= length s.
Proof.
  unfold dropWhileEnd. rewrite length_rev.
  pose proof (length_dropWhile cls (rev s)) as H. now rewrite length_rev in H.
Qed.

Lemma length_trim (s : str) : length (trim s) <= length s.
Proof.
  unfold trim. pose proof (length_dropWhileEnd isSpace (dropWhile isSpace s)).
  pose proof (length_dropWhile isSpace s). lia.
Qed.

Lemma length_replaceRuns (cls : unit -> bool) (n : nat) (repl : str)
    (skip : nat) (s : str) :
  length repl <= n ->
  length (replaceRuns cls n repl skip s) <= length s - skip.
Proof.
  intros Hrepl. revert skip. induction s as [|c s IH]; intros skip; [simpl; lia|].
  cbn [replaceRuns]. destruct skip as [|k].
  - cbv zeta. pose proof (length_run cls (c :: s)) as Hrun.
    set (run := length (fst (span cls (c :: s)))) in *.
    destruct ((n <=? run) && (1 <=? run)) eqn:Htest.
    + apply andb_true_iff in Htest. destruct Htest as [H1 H2].
      apply Nat.leb_le in H1. apply Nat.leb_le in H2.
      rewrite length_app. specialize (IH (run - 1)). simpl in *. lia.
    + specialize (IH 0). simpl in *. lia.
  - specialize (IH k). simpl. lia.
Qed.

Lemma loopTry_bounds (lo d : nat) (s : str) (k m : nat) :
  loopTry lo d s = Some (k, m) -> k <= m.
Proof.
  induction d as [|d IH]; [discriminate|].
  cbn [loopTry]. cbv zeta. destruct (_ && _ && _); [|exact IH].
  intros H. injection H as <- <-. nia.
Qed.

Lemma length_loopReplace (lo hi skip : nat) (s : str) :
  length (loopReplace lo hi skip s) <= length s - skip.
Proof.
  revert skip. induction s as [|c s IH]; intros skip; [simpl; lia|].
  cbn [loopReplace]. destruct skip as [|n].
  - destruct (loopAt lo hi (c :: s)) as [[k m]|] eqn:E.
    + apply loopTry_bounds in E. rewrite length_app, length_firstn.
      specialize (IH (m - 1)). simpl in *. lia.
    + specialize (IH 0). simpl in *. lia.
  - specialize (IH n). simpl. lia.
Qed.

Lemma wordTry_bounds (l : nat) (s : str) (k m : nat) :
  wordTry l s = Some (k, m) -> k <= m.
Proof.
  induction l as [|l IH]; [discriminate|].
  cbn [wordTry]. cbv zeta. destruct (firstSep _ _ _); [|exact IH].
  intros H. injection H as <- <-. lia.
Qed.

Lemma length_wordReplace (skip : nat) (s : str) :
  length (wordReplace skip s) <= length s - skip.
Proof.
  revert skip. induction s as [|c s IH]; intros skip; [simpl; lia|].
  cbn [wordReplace]. destruct skip as [|n].
  - destruct (wordRepeatAt (c :: s)) as [[k m]|] eqn:E.
    + apply wordTry_bounds in E. rewrite length_app, length_firstn.
      specialize (IH (m - 1)). simpl in *. lia.
    + specialize (IH 0). simpl in *. lia.
  - specialize (IH n). simpl. lia.
Qed.

Lemma weight_splitOn (cls : unit -> bool) (s : str) :
  weight (splitOn cls s) = S (length s).
Proof.
  induction s as [|c s IH]; [reflexivity|]. simpl.
  destruct (cls c).
  - simpl. now rewrite IH.
  - destruct (splitOn cls s) as [|p ps]; simpl in *; lia.
Qed.

Lemma weight_filter (keep : str -> bool) (l : list str) :
  weight (filter keep l) <= weight l.
Proof.
  induction l as [|x l IH]; [simpl; lia|]. simpl.
  destruct (keep x); simpl; lia.
Qed.

Lemma length_join (c : unit) (l : list str) :
  length (join [c] l) <= weight l - 1.
Proof.
  induction l as [|x l IH]; [simpl; lia|].
  destruct l as [|y l]; [simpl; lia|].
  change (join [c] (x :: y :: l)) with (x ++ [c] ++ join [c] (y :: l)).
  rewrite !length_app. simpl in *. lia.
Qed.

Lemma length_dropSentences (cleaned word : str) :
  length (LocalApp.dropSentences cleaned word) <= length cleaned.
Proof.
  unfold LocalApp.dropSentences. destruct (includes cleaned word); [|lia].
  unfold LocalApp.stripMaru.
  set (kept := filter _ (splitOn LocalApp.isSentenceEnd cleaned)).
  pose proof (length_dropWhileEnd (LocalApp.isChar "。")
                (dropWhile (LocalApp.isChar "。") (join (lit "。") kept))) as H1.
  pose proof (length_dropWhile (LocalApp.isChar "。") (join (lit "。") kept)) as H2.
  pose proof (length_join (chr "。") kept) as H3.
  change [chr "。"] with (lit "。") in H3.
  pose proof (weight_filter (fun s => negb (includes s word))
                (splitOn LocalApp.isSentenceEnd cleaned)) as H4.
  fold kept in H4. rewrite weight_splitOn in H4. lia.
Qed.

Lemma length_dropAll (words : list str) (cleaned : str) :
  length (fold_left LocalApp.dropSentences words cleaned) <= length cleaned.
Proof.
  revert cleaned. induction words as [|w words IH]; intros cleaned; [simpl; lia|].
  simpl. pose proof (IH (LocalApp.dropSentences cleaned w)).
  pose proof (length_dropSentences cleaned w). lia.
Qed.

Lemma length_replaceRuns0 (cls : unit -> bool) (n : nat) (repl s : str) :
  length repl <= n -> length (replaceRuns cls n repl 0 s) <= length s.
Proof.
  intros H. pose proof (@length_replaceRuns cls n repl 0 s H). lia.
Qed.

Lemma length_collapseNoise (s : str) : length (LocalApp.collapseNoise s) <= length s.
Proof.
  unfold LocalApp.collapseNoise. cbv zeta.
  repeat (eapply Nat.le_trans;
          [apply length_replaceRuns0; vm_compute; lia|]).
  apply Nat.le_refl.
Qed.

End LengthFacts.

Section FilterLengths.
Import JS LengthFacts.

Lemma length_finalCleanup (s : str) : length (LocalApp.finalCleanup s) <= length s.
Proof.
  unfold LocalApp.finalCleanup. cbv zeta.
  eapply Nat.le_trans; [apply length_dropWhileEnd|].
  eapply Nat.le_trans; [apply length_dropWhile|]. apply length_trim.
Qed.

Lemma length_squashRepeats (s : str) : length (LocalApp.squashRepeats s) <= length s.
Proof.
  unfold LocalApp.squashRepeats.
  pose proof (length_wordReplace 0 (loopReplace 2 15 0 s)).
  pose proof (length_loopReplace 2 15 0 s). lia.
Qed.

Lemma length_cleanText (text : str) :
  length (LocalApp.cleanText text) <= length text.
Proof.
  unfold LocalApp.cleanText, LocalApp.cleanStages.
  destruct text as [|c t]; [simpl; lia|].
  destruct (LocalApp.hasRepetitionLoop (c :: t)); [simpl; lia|].
  destruct (LocalApp.blacklistOnly _ _); [simpl; lia|].
  destruct (LocalApp.isNoise _); [simpl; lia|].
  match goal with |- context [if ?b then _ else _] => destruct b end;
    [simpl; lia|].
  eapply Nat.le_trans; [apply length_finalCleanup|].
  eapply Nat.le_trans; [apply length_squashRepeats|].
  eapply Nat.le_trans; [apply length_dropAll|].
  apply length_collapseNoise.
Qed.

(** The stages of [filterHallucinations] after the loop stage. *)
Lemma length_afterLoop (text cleaned : str) :
  length cleaned <= length text ->
  length
    match
      (if existsb
            (fun word => eqb (trim cleaned) word
                         || eqb (trim cleaned) (word ++ lit "。"))
            GroqApp.HALLUCINATION_WORDS
       then None
       else
         Some
           (replaceRuns isSpace 2 (lit " ") 0
              (replaceRuns (LocalApp.isChar "。") 2 (lit "。") 0
                 (replaceRuns (LocalApp.isChar ".") 2 [] 0
                    (replaceRuns
                       (fun c => isDigit c || LocalApp.isChar "." c)
                       4 [] 0
                       (fold_left LocalApp.dropSentences
                          GroqApp.HALLUCINATION_WORDS cleaned))))))
    with
    | Some cleaned' =>
        if length (trim cleaned') <=? 2 then [] else trim cleaned'
    | None => []
    end <= length text.
Proof.
  intros Hc.
  destruct (existsb _ GroqApp.HALLUCINATION_WORDS); [simpl; lia|].
  match goal with |- context [if ?b then _ else _] => destruct b end;
    [simpl; lia|].
  eapply Nat.le_trans; [apply length_trim|].
  repeat (eapply Nat.le_trans;
          [apply length_replaceRuns0; vm_compute; lia|]).
  eapply Nat.le_trans; [apply length_dropAll|]. exact Hc.
Qed.

Lemma length_filterHallucinations (text : str) :
  length (GroqApp.filterHallucinations text) <= length text.
Proof.
  unfold GroqApp.filterHallucinations, GroqApp.filterStages.
  destruct text as [|c t]; [simpl; lia|].
  cbv zeta.
  destruct (loopExec 3 20 (c :: t)) as [[i [k m]]|].
  - destruct (length (c :: t) <? 2 * m); [simpl; lia|].
    apply length_afterLoop. eapply Nat.le_trans; [apply length_loopReplace|]. lia.
  - apply length_afterLoop. apply Nat.le_refl.
Qed.

(** What a filter returns is empty or has three code units at least. *)
Lemma filtered_floor (text : str) :
  (LocalApp.cleanText text = [] \/ 3 <= length (LocalApp.cleanText text))
  /\ (GroqApp.filterHallucinations text = []
      \/ 3 <= length (GroqApp.filterHallucinations text)).
Proof.
  unfold LocalApp.cleanText, GroqApp.filterHallucinations. split.
  - destruct (LocalApp.cleanStages text) as [cleaned|]; [|now left].
    destruct (Nat.ltb_spec (length cleaned) 3); [now left|now right].
  - destruct (GroqApp.filterStages text) as [cleaned|]; [|now left].
    destruct (Nat.leb_spec (length (trim cleaned)) 2); [now left|right; lia].
Qed.

(** X1: the filters never lengthen a transcript: the result of
    [cleanText], and of [filterHallucinations], has at most the code
    units of the input; so a transcript of fewer than three code units is
    always rejected. *)
Theorem filters_never_lengthen (text : str) :
  length (LocalApp.cleanText text) <= length text
  /\ length (GroqApp.filterHallucinations text) <= length text
  /\ (length text < 3 ->
      LocalApp.cleanText text = [] /\ GroqApp.filterHallucinations text = []).
Proof.
  pose proof (length_cleanText text) as H1.
  pose proof (length_filterHallucinations text) as H2.
  split; [exact H1|]. split; [exact H2|].
  intros Hshort. destruct (filtered_floor text) as [[E1|E1] [E2|E2]];
    split; try assumption; lia.
Qed.

Lemma filters_never_lengthen_witness :
  LocalApp.cleanText (lit "あ。") = []
  /\ GroqApp.filterHallucinations (lit "あ。") = [].
Proof.
  apply (proj2 (proj2 (filters_never_lengthen (lit "あ。")))).
  vm_compute. lia.
Defined.

End FilterLengths.

(** ** The ends of the filtered text *)

Module TrimFacts.
Import JS Notions LengthFacts.

Lemma startsIn_dropWhile (cls : unit -> bool) (s : str) :
  startsIn cls (dropWhile cls s) = false.
Proof.
  unfold dropWhile. induction s as [|c s IH]; [reflexivity|]. simpl.
  destruct (cls c) eqn:E.
  - destruct (span cls s) as [r t]. exact IH.
  - simpl. exact E.
Qed.

Lemma endsIn_dropWhileEnd (cls : unit -> bool) (s : str) :
  endsIn cls (dropWhileEnd cls s) = false.
Proof.
  unfold endsIn, dropWhileEnd. rewrite rev_involutive. apply startsIn_dropWhile.
Qed.

Lemma dropWhile_id (cls : unit -> bool) (s : str) :
  startsIn cls s = false -> dropWhile cls s = s.
Proof.
  unfold dropWhile. destruct s as [|c s]; [reflexivity|]. simpl.
  intros E. now rewrite E.
Qed.

Lemma dropWhileEnd_id (cls : unit -> bool) (s : str) :
  endsIn cls s = false -> dropWhileEnd cls s = s.
Proof.
  unfold endsIn, dropWhileEnd. intros E.
  rewrite (dropWhile_id cls (rev s) E). apply rev_involutive.
Qed.

(** What [dropWhileEnd] returns is the start of its argument. *)
Lemma dropWhileEnd_start (cls : unit -> bool) (s : str) :
  exists t, s = dropWhileEnd cls s ++ t.
Proof.
  unfold dropWhileEnd, dropWhile.
  exists (rev (fst (span cls (rev s)))).
  rewrite <- rev_app_distr, span_app. symmetry. apply rev_involutive.
Qed.

Lemma startsIn_dropWhileEnd (cls cls' : unit -> bool) (s : str) :
  startsIn cls s = false -> startsIn cls (dropWhileEnd cls' s) = false.
Proof.
  destruct (dropWhileEnd_start cls' s) as [t E].
  destruct (dropWhileEnd cls' s) as [|c r]; [reflexivity|].
  rewrite E. simpl. auto.
Qed.

Lemma startsIn_weaker (cls cls' : unit -> bool) (s : str) :
  (forall c, cls' c = true -> cls c = true) ->
  startsIn cls s = false -> startsIn cls' s = false.
Proof.
  intros Hsub. destruct s as [|c s]; [reflexivity|]. simpl.
  intros E. destruct (cls' c) eqn:E'; [|reflexivity].
  apply Hsub in E'. congruence.
Qed.

Lemma trim_id (s : str) :
  startsIn isSpace s = false -> endsIn isSpace s = false -> trim s = s.
Proof.
  intros Hs He. unfold trim. rewrite (dropWhile_id isSpace s Hs).
  now apply dropWhileEnd_id.
Qed.

Lemma trim_ends (s : str) :
  startsIn isSpace (trim s) = false /\ endsIn isSpace (trim s) = false.
Proof.
  unfold trim. split.
  - apply startsIn_dropWhileEnd, startsIn_dropWhile.
  - apply endsIn_dropWhileEnd.
Qed.

Lemma trim_trim (s : str) : trim (trim s) = trim s.
Proof.
  destruct (trim_ends s). now apply trim_id.
Qed.

End TrimFacts.

Section FilterEnds.
Import JS Notions TrimFacts.

(** X2: what the filters return has no white space at either end, so
    trimming it again changes nothing: this holds for [cleanText], for
    [filterHallucinations] and for the text of the worker's result; what
    [cleanText] returns does not start with [、], [。], [.] or […] and
    does not end with [、] either. *)
Theorem filter_results_trimmed (text prompt : str) :
  startsIn
    (fun c => LocalApp.isChar "、" c || LocalApp.isChar "。" c
              || LocalApp.isChar "." c || LocalApp.isChar "…" c || isSpace c)
    (LocalApp.cleanText text) = false
  /\ endsIn (fun c => LocalApp.isChar "、" c || isSpace c)
       (LocalApp.cleanText text) = false
  /\ trim (LocalApp.cleanText text) = LocalApp.cleanText text
  /\ trim (GroqApp.filterHallucinations text) = GroqApp.filterHallucinations text
  /\ trim (Worker.transcribeResult text prompt) = Worker.transcribeResult text prompt.
Proof.
  set (lead := fun c => LocalApp.isChar "、" c || LocalApp.isChar "。" c
                        || LocalApp.isChar "." c || LocalApp.isChar "…" c
                        || isSpace c).
  set (trail := fun c => LocalApp.isChar "、" c || isSpace c).
  assert (Hfinal : forall s,
             startsIn lead (LocalApp.finalCleanup s) = false
             /\ endsIn trail (LocalApp.finalCleanup s) = false).
  { intros s. unfold LocalApp.finalCleanup. cbv zeta. fold lead trail. split.
    - apply startsIn_dropWhileEnd, startsIn_dropWhile.
    - apply endsIn_dropWhileEnd. }
  assert (H1 : startsIn lead (LocalApp.cleanText text) = false
               /\ endsIn trail (LocalApp.cleanText text) = false).
  { unfold LocalApp.cleanText, LocalApp.cleanStages.
    destruct text as [|c t]; [split; reflexivity|].
    destruct (LocalApp.hasRepetitionLoop (c :: t)); [split; reflexivity|].
    cbv zeta.
    destruct (LocalApp.blacklistOnly _ _); [split; reflexivity|].
    destruct (LocalApp.isNoise _); [split; reflexivity|].
    match goal with |- context [if ?b then _ else _] => destruct b end;
      [split; reflexivity|].
    apply Hfinal. }
  destruct H1 as [Hs He].
  split; [exact Hs|]. split; [exact He|]. split; [|split].
  - apply trim_id.
    + apply (startsIn_weaker lead); [|exact Hs].
      intros c E. unfold lead. rewrite E. apply orb_true_r.
    + apply (startsIn_weaker trail); [|exact He].
      intros c E. unfold trail. rewrite E. apply orb_true_r.
  - unfold GroqApp.filterHallucinations.
    destruct (GroqApp.filterStages text) as [cleaned|]; [|reflexivity].
    destruct (length (trim cleaned) <=? 2); [reflexivity|]. apply trim_trim.
  - unfold Worker.transcribeResult. cbv zeta. apply trim_trim.
Qed.

End FilterEnds.

(** ** What the repetition pattern matches *)

Module LoopSound.
Import JS Spec LoopFacts.

Lemma loopTry_found (lo d : nat) (s : str) (k m : nat) :
  1 <= lo ->
  loopTry lo d s = Some (k, m) ->
  lo <= k < lo + d
  /\ loops k s
  /\ (forall k', k < k' < lo + d -> ~ loops k' s)
  /\ m = k * S (copies (length s) (firstn k s) (skipn k s))
  /\ 2 <= copies (length s) (firstn k s) (skipn k s).
Proof.
  intros Hlo. induction d as [|d IH]; [discriminate|].
  cbn [loopTry]. cbv zeta. destruct (_ && _ && _) eqn:Htest.
  - intros H. injection H as <- <-.
    split; [lia|]. split; [apply loops_test; [lia|assumption]|].
    split; [intros k' Hk'; lia|]. split; [reflexivity|].
    apply andb_true_iff in Htest. destruct Htest as [_ Hc].
    now apply Nat.leb_le in Hc.
  - intros H. destruct (IH H) as (Hk & Hloops & Hlong & Hm & Hc).
    split; [lia|]. split; [assumption|]. split; [|split; assumption].
    intros k' Hk'. destruct (Nat.eq_dec k' (lo + d)) as [->|NE].
    + intros Hl. apply loops_test in Hl; [|lia]. congruence.
    + apply Hlong. lia.
Qed.

Lemma loopTry_missed (lo d : nat) (s : str) (k : nat) :
  1 <= lo -> loopTry lo d s = None -> lo <= k < lo + d -> ~ loops k s.
Proof.
  intros Hlo. induction d as [|d IH]; [lia|].
  cbn [loopTry]. cbv zeta. destruct (_ && _ && _) eqn:Htest; [discriminate|].
  intros H Hk. destruct (Nat.eq_dec k (lo + d)) as [->|NE].
  - intros Hl. apply loops_test in Hl; [|lia]. congruence.
  - apply IH; [assumption|lia].
Qed.

(** The copies counted after the phrase, and the phrase, are written at
    the start of the text, and one copy more is not. *)
Lemma copies_span (k : nat) (s : str) :
  1 <= k -> k <= length s ->
  prefix (power (firstn k s) (S (copies (length s) (firstn k s) (skipn k s)))) s
  /\ ~ prefix
         (power (firstn k s) (S (S (copies (length s) (firstn k s) (skipn k s))))) s.
Proof.
  intros Hk Hlen.
  assert (Hfuel : length (skipn k s) <= length s) by (rewrite length_skipn; lia).
  destruct (@copies_spec _ _ _ (@firstn_nonempty k s Hk Hlen) Hfuel) as [H1 H2].
  split.
  - now apply prefix_power_skip.
  - intros H. apply H2. now apply prefix_power_skip in H.
Qed.

Lemma loopExec_found (lo hi : nat) (text : str) (start k m : nat) :
  1 <= lo ->
  loopExec lo hi text = Some (start, (k, m)) ->
  exists r, 3 <= r /\ m = k * r /\ loopMatch lo hi text start k r.
Proof.
  intros Hlo. revert start.
  assert (Hat : forall s, loopAt lo hi s = Some (k, m) ->
                 exists r, 3 <= r /\ m = k * r /\ loopMatch lo hi s 0 k r).
  { intros s H. unfold loopAt in H.
    destruct (@loopTry_found lo (S hi - lo) s k m Hlo H) as (Hk & Hloops & Hlong & Hm & Hc).
    exists (S (copies (length s) (firstn k s) (skipn k s))).
    split; [lia|]. split; [assumption|].
    destruct (@copies_span k s) as [Hpre Hmax]; [lia|apply Hloops|].
    unfold loopMatch. change (skipn 0 s) with s.
    split; [lia|]. split; [intros i k' Hi; lia|].
    split; [intros k' Hk'; apply Hlong; lia|].
    split; [exact Hloops|]. split; [exact Hpre|exact Hmax]. }
  induction text as [|c text IH]; intros start.
  - cbn [loopExec]. destruct (loopAt lo hi []) as [m0|] eqn:E; [|discriminate].
    intros H. injection H as <- ->. now apply Hat.
  - cbn [loopExec]. destruct (loopAt lo hi (c :: text)) as [m0|] eqn:E.
    + intros H. injection H as <- ->. now apply Hat.
    + destruct (loopExec lo hi text) as [[i m1]|] eqn:E1; [|discriminate].
      intros H. injection H as <- ->.
      destruct (IH i eq_refl) as (r & Hr & Hm & Hk & Hleft & Hlong & Hrest).
      exists r. split; [assumption|]. split; [assumption|].
      unfold loopMatch. split; [assumption|]. split.
      * intros j k' Hj Hk'. destruct j as [|j].
        -- simpl. apply (@loopTry_missed lo (S hi - lo) (c :: text) k' Hlo E). lia.
        -- simpl. apply Hleft; [lia|assumption].
      * simpl. split; [assumption|]. exact Hrest.
Qed.

Lemma loopExec_none (lo hi : nat) (text : str) :
  1 <= lo ->
  (forall i k, lo <= k <= hi -> ~ loops k (skipn i text)) ->
  loopExec lo hi text = None.
Proof.
  intros Hlo. induction text as [|c text IH]; intros Hno.
  - cbn [loopExec]. unfold loopAt. rewrite loopTry_none; [reflexivity|assumption|].
    intros k Hk. apply (Hno 0 k). lia.
  - cbn [loopExec]. unfold loopAt. rewrite loopTry_none; [|assumption|].
    + rewrite IH; [reflexivity|]. intros i k Hk. apply (Hno (S i) k Hk).
    + intros k Hk. apply (Hno 0 k). lia.
Qed.

Lemma loopReplace_none (lo hi : nat) (text : str) :
  1 <= lo ->
  (forall i k, lo <= k <= hi -> ~ loops k (skipn i text)) ->
  loopReplace lo hi 0 text = text.
Proof.
  intros Hlo. induction text as [|c text IH]; intros Hno; [reflexivity|].
  cbn [loopReplace]. unfold loopAt. rewrite loopTry_none; [|assumption|].
  - f_equal. apply IH. intros i k Hk. apply (Hno (S i) k Hk).
  - intros k Hk. apply (Hno 0 k). lia.
Qed.

End LoopSound.

Section Repetitions.
Import JS Spec LoopSound.

(** X3: the repetition pattern matches only a real repetition: when
    [/(.{lo,hi})\1{2,}/] matches, a phrase of [k] code units, [lo <= k <=
    hi], without line terminator is written [r >= 3] times in a row from
    the position found, the match spans these [k * r] code units, and it is
    the leftmost longest one; and a text in which no phrase of 2 to 30 code
    units is written three times in a row passes the repetition stages
    unchanged: the pattern of [hasRepetitionLoop] does not match, and
    [removeDynamicRepetitions] and the first replacement of stage 4 of
    [cleanText] return the text. *)
Theorem repetition_pattern_sound (text : str) :
  (forall lo hi start k m,
      1 <= lo ->
      loopExec lo hi text = Some (start, (k, m)) ->
      exists r, 3 <= r /\ m = k * r /\ loopMatch lo hi text start k r)
  /\ ((forall i k, 2 <= k <= 30 -> ~ loops k (skipn i text)) ->
      loopExec 3 20 text = None
      /\ Worker.removeDynamicRepetitions text = text
      /\ loopReplace 2 15 0 text = text).
Proof.
  split.
  - intros lo hi start k m Hlo H. now apply loopExec_found.
  - intros Hno. split; [|split].
    + apply loopExec_none; [lia|]. intros i k Hk. apply Hno. lia.
    + unfold Worker.removeDynamicRepetitions.
      destruct (length text <? 10); [reflexivity|].
      apply loopReplace_none; [lia|]. intros i k Hk. apply Hno. lia.
    + apply loopReplace_none; [lia|]. intros i k Hk. apply Hno. lia.
Qed.

End Repetitions.

(** ** Records *)

Module RecordFacts.
Import JS Shared Notions.

Lemma below_forallb (P : N -> bool) (b : N) :
  forallb P (map N.of_nat (seq 0 (N.to_nat b))) = true ->
  forall n, (n < b)%N -> P n = true.
Proof.
  intros H n Hn. rewrite forallb_forall in H. apply H.
  apply in_map_iff. exists (N.to_nat n). split; [apply N2Nat.id|].
  apply in_seq. lia.
Qed.

Lemma padStart2_digits (n : N) :
  (n < 100)%N -> padStart2 (String_of n) = twoDigits n.
Proof.
  intros Hn. apply (reflect_iff _ _ (JSFacts.eqb_spec _ _)).
  apply (@below_forallb (fun n => eqb (padStart2 (String_of n)) (twoDigits n)) 100);
    [vm_compute; reflexivity|exact Hn].
Qed.

Lemma digit_cases (a : N) :
  (a <= 9)%N -> In a [0; 1; 2; 3; 4; 5; 6; 7; 8; 9]%N.
Proof.
  intros H. simpl. lia.
Qed.

Lemma string_of_decimal (a : N) (l : Decimal.uint) :
  (a <= 9)%N ->
  bytes_of_string (NilEmpty.string_of_uint (decimal a l))
  = digit a :: bytes_of_string (NilEmpty.string_of_uint l).
Proof.
  intros H. apply digit_cases in H. simpl in H.
  repeat (destruct H as [<-|H]; [reflexivity|]). destruct H.
Qed.

Lemma of_uint_acc_decimal (a : N) (l : Decimal.uint) (acc p' : positive) :
  (a <= 9)%N -> N.pos p' = (a + 10 * N.pos acc)%N ->
  Pos.of_uint_acc (decimal a l) acc = Pos.of_uint_acc l p'.
Proof.
  intros H E. apply digit_cases in H. simpl in H.
  repeat (destruct H as [<-|H];
          [cbn [decimal Pos.of_uint_acc]; f_equal; lia|]).
  destruct H.
Qed.

Lemma of_uint_decimal (l : Decimal.uint) (pa : positive) :
  (N.pos pa <= 9)%N ->
  Pos.of_uint (decimal (N.pos pa) l) = N.pos (Pos.of_uint_acc l pa)
  /\ Decimal.unorm (decimal (N.pos pa) l) = decimal (N.pos pa) l
  /\ NilZero.string_of_uint (decimal (N.pos pa) l)
     = NilEmpty.string_of_uint (decimal (N.pos pa) l).
Proof.
  intros H. apply digit_cases in H. simpl in H.
  repeat (destruct H as [H|H];
          [try discriminate; injection H as <-; repeat split|]).
  destruct H.
Qed.

(** [String(n)] for a number of four digits. *)
Lemma String_of_year (n : N) :
  (1000 <= n <= 9999)%N -> String_of n = fourDigits n.
Proof.
  intros Hn. unfold fourDigits, String_of.
  set (a := (n / 1000)%N). set (b := ((n / 100) mod 10)%N).
  set (c := ((n / 10) mod 10)%N). set (d := (n mod 10)%N).
  assert (Hd : (n = 1000 * a + 100 * b + 10 * c + d
                /\ 1 <= a <= 9 /\ b <= 9 /\ c <= 9 /\ d <= 9)%N).
  { subst a b c d. zify. Z.to_euclidean_division_equations. lia. }
  destruct Hd as (En & Ha & Hb & Hc & Hd).
  destruct a as [|pa]; [lia|].
  destruct (@of_uint_decimal
              (decimal b (decimal c (decimal d Decimal.Nil))) pa (proj2 Ha))
    as (Hof & Hnorm & Hstr).
  assert (Hto : N.to_uint n
                = decimal (N.pos pa)
                    (decimal b (decimal c (decimal d Decimal.Nil)))).
  { rewrite <- Hnorm, <- DecimalN.Unsigned.to_of. f_equal.
    unfold N.of_uint. rewrite Hof.
    destruct (b + 10 * N.pos pa)%N as [|p1] eqn:E1; [lia|].
    destruct (c + 10 * N.pos p1)%N as [|p2] eqn:E2; [lia|].
    destruct (d + 10 * N.pos p2)%N as [|p3] eqn:E3; [lia|].
    rewrite (@of_uint_acc_decimal b _ pa p1 Hb (eq_sym E1)).
    rewrite (@of_uint_acc_decimal c _ p1 p2 Hc (eq_sym E2)).
    rewrite (@of_uint_acc_decimal d _ p2 p3 Hd (eq_sym E3)).
    cbn [Pos.of_uint_acc]. lia. }
  rewrite Hto, Hstr.
  rewrite !string_of_decimal by lia. reflexivity.
Qed.

Lemma bytes_of_string_inj (a b : string) :
  bytes_of_string a = bytes_of_string b -> a = b.
Proof.
  revert b. induction a as [|x a IH]; intros [|y b] H; try discriminate;
    [reflexivity|].
  simpl in H. injection H as Hxy Hab. f_equal; [|now apply IH].
  rewrite <- (ascii_N_embedding x), <- (ascii_N_embedding y). now f_equal.
Qed.

Lemma to_uint_nonnil (n : N) : N.to_uint n <> Decimal.Nil.
Proof.
  destruct n as [|p]; [discriminate|]. apply DecimalPos.Unsigned.to_uint_nonnil.
Qed.

Lemma String_of_inj (n m : N) : String_of n = String_of m -> n = m.
Proof.
  unfold String_of. intros H. apply bytes_of_string_inj in H.
  apply DecimalN.Unsigned.to_uint_inj.
  pose proof (NilZero.usu (N.to_uint n) (to_uint_nonnil n)) as Hn.
  pose proof (NilZero.usu (N.to_uint m) (to_uint_nonnil m)) as Hm.
  rewrite H in Hn. congruence.
Qed.

End RecordFacts.

Section RecordFields.
Import JS Shared Notions RecordFacts Inputs.

(** X4: the preview of a record has at most 33 code units and starts as
    the text does; it is the text when that has at most 30 code units, and
    the first 30 code units followed by three dots otherwise; the full text
    is kept as it is. *)
Theorem preview_of_record (now : Date) (text : str) :
  length (tr_preview (createTranscription now text)) <= PREVIEW_LENGTH + 3
  /\ firstn PREVIEW_LENGTH (tr_preview (createTranscription now text))
     = firstn PREVIEW_LENGTH text
  /\ (length text <= PREVIEW_LENGTH ->
      tr_preview (createTranscription now text) = text)
  /\ (PREVIEW_LENGTH < length text ->
      tr_preview (createTranscription now text)
      = firstn PREVIEW_LENGTH text ++ lit "..."
      /\ length (tr_preview (createTranscription now text)) = PREVIEW_LENGTH + 3)
  /\ tr_fullText (createTranscription now text) = text.
Proof.
  unfold createTranscription. cbv zeta. cbn [tr_preview tr_fullText].
  unfold substring. rewrite Nat.sub_0_r. cbn [skipn].
  destruct (Nat.ltb_spec PREVIEW_LENGTH (length text)) as [Hlong|Hshort].
  - split; [|split; [|split; [|split]]].
    + rewrite length_app, length_firstn.
      change (length (lit "...")) with 3. lia.
    + rewrite firstn_app, length_firstn.
      replace (PREVIEW_LENGTH - Nat.min PREVIEW_LENGTH (length text)) with 0 by lia.
      rewrite firstn_firstn, Nat.min_id. cbn [firstn]. apply app_nil_r.
    + lia.
    + intros _. split; [reflexivity|].
      rewrite length_app, length_firstn.
      change (length (lit "...")) with 3. lia.
    + reflexivity.
  - split; [lia|]. split; [reflexivity|]. split; [reflexivity|].
    split; [lia|reflexivity].
Qed.

(** X5: for a date of a four-digit year the date text has 16 code units:
    the year on four digits, the month, counted from 1, the day, the hours
    and the minutes on two digits each, zero-padded, separated by [/], [/],
    a space and [:]. *)
Theorem formatDate_digits (d : Date) :
  (1000 <= getFullYear d <= 9999)%N ->
  (getMonth d <= 11)%N -> (getDate d <= 31)%N ->
  (getHours d <= 23)%N -> (getMinutes d <= 59)%N ->
  formatDate d
  = fourDigits (getFullYear d) ++ lit "/" ++ twoDigits (getMonth d + 1)
    ++ lit "/" ++ twoDigits (getDate d) ++ lit " " ++ twoDigits (getHours d)
    ++ lit ":" ++ twoDigits (getMinutes d)
  /\ length (formatDate d) = 16.
Proof.
  intros Hy Hm Hd Hh Hmin.
  assert (E : formatDate d
              = fourDigits (getFullYear d) ++ lit "/" ++ twoDigits (getMonth d + 1)
                ++ lit "/" ++ twoDigits (getDate d) ++ lit " "
                ++ twoDigits (getHours d) ++ lit ":" ++ twoDigits (getMinutes d)).
  { unfold formatDate. cbv zeta.
    rewrite (String_of_year Hy).
    rewrite !padStart2_digits by lia. reflexivity. }
  split; [exact E|]. rewrite E. reflexivity.
Qed.

Lemma formatDate_digits_witness :
  formatDate noon = lit "2026/11/03 12:00" /\ length (formatDate noon) = 16.
Proof.
  replace (lit "2026/11/03 12:00")
    with (fourDigits (getFullYear noon) ++ lit "/" ++ twoDigits (getMonth noon + 1)
          ++ lit "/" ++ twoDigits (getDate noon) ++ lit " "
          ++ twoDigits (getHours noon) ++ lit ":" ++ twoDigits (getMinutes noon))
    by (vm_compute; reflexivity).
  apply (@formatDate_digits noon); vm_compute; try discriminate;
    split; discriminate.
Defined.

(** X6: the identifier of a record is [ts_] followed by the decimal digits
    of the time in milliseconds, so two records have the same identifier
    exactly when they were made in the same millisecond, whatever their
    texts. *)
Theorem record_id_of_time (d1 d2 : Date) (t1 t2 : str) :
  tr_id (createTranscription d1 t1) = tr_id (createTranscription d2 t2)
  <-> getTime d1 = getTime d2.
Proof.
  unfold createTranscription. cbv zeta. cbn [tr_id]. split.
  - intros H. apply app_inv_head in H. now apply String_of_inj.
  - intros H. now rewrite H.
Qed.

End RecordFields.

(** ** The list of records and its mirror in the store *)

Module ListFacts.
Import JS Shared Records Notions.

Lemma findIndex_none (A : Type) (p : A -> bool) (l : list A) :
  findIndex p l = None <-> forall x, In x l -> p x = false.
Proof.
  induction l as [|x l IH]; simpl.
  - split; [intros _ y []|reflexivity].
  - destruct (p x) eqn:E.
    + split; [discriminate|]. intros H. specialize (H x (or_introl eq_refl)). congruence.
    + destruct (findIndex p l) as [i|].
      * split; [discriminate|]. intros H. exfalso.
        assert (Hn : Some i = None) by (apply IH; intros y Hy; apply H; now right).
        discriminate.
      * split; [|reflexivity]. intros _ y [<-|Hy]; [assumption|].
        now apply (proj1 IH).
Qed.

(** The record found is the first one that passes the test; taking it
    out leaves the records that fail the test when no other passes. *)
Lemma splice1_found (A : Type) (p : A -> bool) (l : list A) (i : nat) :
  findIndex p l = Some i ->
  S (length (splice1 i l)) = length l
  /\ (forall x, In x (splice1 i l) -> In x l)
  /\ (forall x, In x l -> p x = false -> In x (splice1 i l))
  /\ filter (fun x => negb (p x)) (firstn i l) = firstn i l
  /\ exists x, nth_error l i = Some x /\ p x = true.
Proof.
  revert i. induction l as [|x l IH]; intros i; [discriminate|]. simpl.
  destruct (p x) eqn:E.
  - intros H. injection H as <-. unfold splice1. simpl.
    split; [reflexivity|]. split; [auto|]. split.
    + intros y [<-|Hy] Hp; [congruence|assumption].
    + split; [reflexivity|]. exists x. auto.
  - destruct (findIndex p l) as [j|]; [|discriminate].
    intros H. injection H as <-.
    destruct (IH j eq_refl) as (Hlen & Hin & Hkeep & Hfirst & y & Hy & Hpy).
    change (splice1 (S j) (x :: l)) with (x :: splice1 j l).
    change (firstn (S j) (x :: l)) with (x :: firstn j l).
    split; [simpl; now rewrite Hlen|]. split; [|split; [|split]].
    + intros z [<-|Hz]; [now left|]. right. now apply Hin.
    + intros z [<-|Hz] Hp; [now left|]. right. now apply Hkeep.
    + simpl. rewrite E. simpl. now rewrite Hfirst.
    + exists y. auto.
Qed.

(** The record found has only records that fail the test before it, and
    taking it out leaves what is before and what is after. *)
Lemma splice1_first (A : Type) (p : A -> bool) (l : list A) (i : nat) :
  findIndex p l = Some i ->
  exists before x after,
    l = before ++ x :: after
    /\ length before = i
    /\ p x = true
    /\ (forall y, In y before -> p y = false)
    /\ splice1 i l = before ++ after.
Proof.
  revert i. induction l as [|x l IH]; intros i; [discriminate|]. simpl.
  destruct (p x) eqn:E.
  - intros H. injection H as <-. exists [], x, l.
    split; [reflexivity|]. split; [reflexivity|]. split; [exact E|].
    split; [intros y []|reflexivity].
  - destruct (findIndex p l) as [j|]; [|discriminate].
    intros H. injection H as <-.
    destruct (IH j eq_refl) as (before & y & after & -> & Hlen & Hy & Hbefore & Hs).
    exists (x :: before), y, after.
    split; [reflexivity|]. split; [simpl; now rewrite Hlen|]. split; [exact Hy|].
    split.
    + intros z [<-|Hz]; [exact E|now apply Hbefore].
    + change (splice1 (S j) (x :: before ++ y :: after))
        with (x :: splice1 j (before ++ y :: after)).
      now rewrite Hs.
Qed.

Lemma splice1_filter (id : str) (l : list Transcription) (i : nat) :
  NoDup (map tr_id l) ->
  findIndex (fun t => eqb (tr_id t) id) l = Some i ->
  splice1 i l = filter (fun t => negb (eqb (tr_id t) id)) l.
Proof.
  revert i. induction l as [|x l IH]; intros i Hnd; [discriminate|].
  simpl in Hnd. apply NoDup_cons_iff in Hnd. destruct Hnd as [Hx Hnd].
  simpl. destruct (eqb (tr_id x) id) eqn:E.
  - intros H. injection H as <-. unfold splice1. simpl.
    apply (reflect_iff _ _ (JSFacts.eqb_spec _ _)) in E.
    symmetry. apply forallb_filter_id. apply forallb_forall.
    intros y Hy. apply negb_true_iff.
    destruct (JSFacts.eqb_spec (tr_id y) id) as [Ey|]; [|reflexivity].
    exfalso. apply Hx. rewrite E, <- Ey. now apply in_map.
  - destruct (findIndex _ l) as [j|]; [|discriminate].
    intros H. injection H as <-.
    change (splice1 (S j) (x :: l)) with (x :: splice1 j l).
    cbn [negb]. f_equal. now apply IH.
Qed.

Lemma navigateToDetail_head (r : Transcription) (st : State) :
  hd_error (transcriptions st) = Some r ->
  navigateToDetail (tr_id r) st = set_view detail (Some (tr_id r)) st.
Proof.
  unfold navigateToDetail. destruct (transcriptions st) as [|x l]; [discriminate|].
  intros H. injection H as ->. simpl. now rewrite JSFacts.eqb_refl.
Qed.

(** The two ways in which [handleTranscriptionResult] of the local client
    ends. *)
Lemma local_handler_cases (now : Date) (text : str) (st : State) :
  let r := createTranscription now
             (processKeywords st (LocalApp.cleanText (trim text))) in
  (LocalApp.cleanText (trim text) = []
   /\ exists msg,
        LocalApp.handleTranscriptionResult now text st
        = updateStatus ready TAP_TO_RECORD
            (showToast msg warning (set_isProcessing false st)))
  \/ (LocalApp.cleanText (trim text) <> []
      /\ LocalApp.handleTranscriptionResult now text st
         = updateStatus ready TAP_TO_RECORD
             (showToast (lit "認識が完了しました") success
                (set_view detail (Some (tr_id r))
                   (LocalApp.saveTranscriptions
                      (set_transcriptions (r :: transcriptions st)
                         (set_isProcessing false st)))))).
Proof.
  intros r. unfold LocalApp.handleTranscriptionResult. cbv zeta.
  destruct (trim text) as [|c t] eqn:Et.
  - left. split; [reflexivity|]. eexists. reflexivity.
  - destruct (LocalApp.cleanText (c :: t)) as [|d cleaned] eqn:Ec.
    + left. split; [reflexivity|]. eexists. reflexivity.
    + right. split; [discriminate|]. fold r.
      rewrite (@navigateToDetail_head r); [reflexivity|].
      unfold LocalApp.saveTranscriptions.
      destruct (setTranscriptions _ _); reflexivity.
Qed.

Lemma groq_handler_cases (now : Date) (text : str) (st : State) :
  let r := createTranscription now
             (processKeywords st (GroqApp.filterHallucinations (trim text))) in
  (GroqApp.filterHallucinations (trim text) = []
   /\ exists msg,
        GroqApp.handleTranscriptionResult now text st
        = updateStatus ready TAP_TO_RECORD
            (showToast msg warning (set_isProcessing false st)))
  \/ (GroqApp.filterHallucinations (trim text) <> []
      /\ GroqApp.handleTranscriptionResult now text st
         = updateStatus ready TAP_TO_RECORD
             (showToast (lit "認識が完了しました") success
                (set_view detail (Some (tr_id r))
                   (GroqApp.saveTranscriptions
                      (set_transcriptions (r :: transcriptions st)
                         (set_isProcessing false st)))))).
Proof.
  intros r. unfold GroqApp.handleTranscriptionResult. cbv zeta.
  destruct (trim text) as [|c t] eqn:Et.
  - left. split; [reflexivity|]. eexists. reflexivity.
  - destruct (GroqApp.filterHallucinations (c :: t)) as [|d cleaned] eqn:Ec.
    + left. split; [reflexivity|]. eexists. reflexivity.
    + right. split; [discriminate|]. fold r.
      rewrite (@navigateToDetail_head r); [reflexivity|].
      unfold GroqApp.saveTranscriptions.
      destruct (setTranscriptions _ _); reflexivity.
Qed.

End ListFacts.

Section RecordList.
Import JS Shared Records Notions ListFacts Inputs.

Lemma transcriptions_saved (st : State) :
  transcriptions (LocalApp.saveTranscriptions st) = transcriptions st
  /\ transcriptions (GroqApp.saveTranscriptions st) = transcriptions st.
Proof.
  unfold LocalApp.saveTranscriptions, GroqApp.saveTranscriptions.
  destruct (setTranscriptions _ _); split; reflexivity.
Qed.

Lemma transcriptions_deleted (id : str) (st : State) :
  transcriptions (deleteTranscription id st)
  = match findIndex (fun t => eqb (tr_id t) id) (transcriptions st) with
    | Some i => splice1 i (transcriptions st)
    | None => transcriptions st
    end.
Proof.
  unfold deleteTranscription.
  destruct (findIndex _ (transcriptions st)) as [i|]; [|reflexivity].
  cbv zeta. cbn [transcriptions showToast].
  now rewrite (proj1 (transcriptions_saved _)).
Qed.

Lemma findIndex_id (id : str) (l : list Transcription) :
  findIndex (fun t => eqb (tr_id t) id) l = None <-> ~ In id (map tr_id l).
Proof.
  rewrite findIndex_none. split.
  - intros H Hin. apply in_map_iff in Hin. destruct Hin as (t & E & Ht).
    specialize (H t Ht). cbv beta in H. rewrite E, JSFacts.eqb_refl in H.
    discriminate.
  - intros H t Ht. destruct (JSFacts.eqb_spec (tr_id t) id) as [E|]; [|reflexivity].
    exfalso. apply H. rewrite <- E. now apply in_map.
Qed.

Lemma deleteTranscription_keeps (id : str) (st : State) (t : Transcription) :
  In t (transcriptions st) -> tr_id t <> id ->
  In t (transcriptions (deleteTranscription id st)).
Proof.
  intros Ht Hid. rewrite transcriptions_deleted.
  destruct (findIndex _ (transcriptions st)) as [i|] eqn:E; [|assumption].
  apply (splice1_found _ _ E); [assumption|].
  destruct (JSFacts.eqb_spec (tr_id t) id); [contradiction|reflexivity].
Qed.

(** X7: [deleteTranscription] takes out the first record that has the
    identifier and no other: with an identifier that no record has the
    state is left as it is, with no toast; otherwise the list is one
    record shorter and keeps every record of another identifier; when the
    identifiers of the list are distinct, the list that is left is the one
    without the records of that identifier, which is what
    [deleteCurrentTranscription] of the remote client computes with
    [filter]. In every case the record taken out is the first one with the
    identifier: the list is some records without the identifier, then a
    record that has it, then the rest, and what is left is the records
    before it followed by the rest, in their order, so that a later record
    with the same identifier stays. *)
Theorem deleteTranscription_first (id : str) (st : State) :
  (~ In id (map tr_id (transcriptions st)) -> deleteTranscription id st = st)
  /\ (In id (map tr_id (transcriptions st)) ->
      S (length (transcriptions (deleteTranscription id st)))
      = length (transcriptions st))
  /\ (forall t, In t (transcriptions st) -> tr_id t <> id ->
                In t (transcriptions (deleteTranscription id st)))
  /\ (forall t, In t (transcriptions (deleteTranscription id st)) ->
                In t (transcriptions st))
  /\ (NoDup (map tr_id (transcriptions st)) ->
      transcriptions (deleteTranscription id st)
      = filter (fun t => negb (eqb (tr_id t) id)) (transcriptions st)
      /\ transcriptions (deleteCurrentTranscription st)
         = transcriptions (deleteCurrentTranscriptionGroq st))
  /\ (In id (map tr_id (transcriptions st)) ->
      exists before t after,
        transcriptions st = before ++ t :: after
        /\ tr_id t = id
        /\ ~ In id (map tr_id before)
        /\ transcriptions (deleteTranscription id st) = before ++ after).
Proof.
  assert (Hfilter : forall id',
             NoDup (map tr_id (transcriptions st)) ->
             transcriptions (deleteTranscription id' st)
             = filter (fun t => negb (eqb (tr_id t) id')) (transcriptions st)).
  { intros id' Hnd. rewrite transcriptions_deleted.
    destruct (findIndex _ (transcriptions st)) as [i|] eqn:E.
    - now apply splice1_filter.
    - symmetry. apply forallb_filter_id. apply forallb_forall. intros t Ht.
      rewrite findIndex_none in E. now rewrite (E t Ht). }
  split; [|split; [|split; [|split; [|split]]]].
  - intros Hno. apply findIndex_id in Hno. unfold deleteTranscription.
    now rewrite Hno.
  - intros Hin. rewrite transcriptions_deleted.
    destruct (findIndex _ (transcriptions st)) as [i|] eqn:E.
    + now apply (splice1_found _ _ E).
    + apply findIndex_id in E. contradiction.
  - intros t Ht Hid. now apply deleteTranscription_keeps.
  - intros t. rewrite transcriptions_deleted.
    destruct (findIndex _ (transcriptions st)) as [i|] eqn:E; [|trivial].
    now apply (splice1_found _ _ E).
  - intros Hnd. split; [now apply Hfilter|].
    unfold deleteCurrentTranscription, deleteCurrentTranscriptionGroq.
    destruct (currentTranscriptionId st) as [[|c cur]|]; try reflexivity.
    cbv zeta. cbn [navigateToHome set_view transcriptions showToast].
    rewrite (proj2 (transcriptions_saved _)). cbn [transcriptions set_transcriptions].
    now apply Hfilter.
  - intros Hin. rewrite transcriptions_deleted.
    destruct (findIndex _ (transcriptions st)) as [i|] eqn:E.
    + destruct (splice1_first _ _ E) as (before & t & after & El & _ & Ht & Hb & Hs).
      exists before, t, after. split; [exact El|].
      split; [now destruct (JSFacts.eqb_spec (tr_id t) id)|].
      split; [|exact Hs].
      intros Hid. apply in_map_iff in Hid. destruct Hid as (y & Ey & Hy).
      specialize (Hb y Hy). cbv beta in Hb.
      rewrite Ey, JSFacts.eqb_refl in Hb. discriminate.
    + apply findIndex_id in E. contradiction.
Qed.

(** Two records with one identifier: the first one goes, the second one
    stays. *)
Example deleteTranscription_duplicate :
  map tr_fullText
    (transcriptions
       (deleteTranscription (lit "1")
          (set_transcriptions
             [ {| tr_id := lit "1"; tr_date := []; tr_preview := []; tr_fullText := lit "a" |};
               {| tr_id := lit "2"; tr_date := []; tr_preview := []; tr_fullText := lit "b" |};
               {| tr_id := lit "1"; tr_date := []; tr_preview := []; tr_fullText := lit "c" |} ]
             st0)))
  = [lit "b"; lit "c"].
Proof. vm_compute. reflexivity. Qed.

Lemma saved_when_writable (st : State) :
  writable (localStorage st) = true ->
  writable (localStorage (LocalApp.saveTranscriptions st)) = true
  /\ mirrored (LocalApp.saveTranscriptions st)
  /\ writable (localStorage (GroqApp.saveTranscriptions st)) = true
  /\ mirrored (GroqApp.saveTranscriptions st).
Proof.
  intros Hw. unfold LocalApp.saveTranscriptions, GroqApp.saveTranscriptions,
    setTranscriptions, mirrored. rewrite Hw. simpl. auto.
Qed.

(** X8: when the store accepts writes and holds the list of records, it
    still does after every function that changes the list, in both
    clients: the result handler, [deleteTranscription] and the two
    [deleteCurrentTranscription]; so [loadTranscriptions] gives the list
    back. *)
Theorem store_mirrors_records (now : Date) (text id : str) (st : State) :
  writable (localStorage st) = true ->
  mirrored st ->
  (forall st',
      In st' [ LocalApp.handleTranscriptionResult now text st;
               GroqApp.handleTranscriptionResult now text st;
               deleteTranscription id st;
               deleteCurrentTranscription st;
               deleteCurrentTranscriptionGroq st ] ->
      writable (localStorage st') = true
      /\ mirrored st'
      /\ transcriptions (loadTranscriptions st') = transcriptions st').
Proof.
  intros Hw Hm.
  assert (Hload : forall st', mirrored st' ->
                   transcriptions (loadTranscriptions st') = transcriptions st').
  { intros st' H. unfold loadTranscriptions, mirrored in *. simpl. now rewrite H. }
  assert (Hdel : forall id',
             writable (localStorage (deleteTranscription id' st)) = true
             /\ mirrored (deleteTranscription id' st)).
  { intros id'. unfold deleteTranscription.
    destruct (findIndex _ (transcriptions st)) as [i|]; [|now split].
    cbv zeta.
    destruct (@saved_when_writable
                (set_transcriptions (splice1 i (transcriptions st)) st) Hw)
      as (H1 & H2 & _).
    split; [exact H1|exact H2]. }
  assert (Hall : forall st',
             writable (localStorage st') = true /\ mirrored st' ->
             writable (localStorage st') = true /\ mirrored st'
             /\ transcriptions (loadTranscriptions st') = transcriptions st').
  { intros st' [H1 H2]. split; [exact H1|]. split; [exact H2|]. now apply Hload. }
  intros st' Hin. apply Hall. clear Hall Hload.
  simpl in Hin. destruct Hin as [<-|[<-|[<-|[<-|[<-|[]]]]]].
  - destruct (local_handler_cases now text st) as [(_ & msg & ->)|(_ & ->)].
    + now split.
    + destruct (@saved_when_writable
                  (set_transcriptions
                     (createTranscription now
                        (processKeywords st (LocalApp.cleanText (trim text)))
                      :: transcriptions st) (set_isProcessing false st)) Hw)
        as (H1 & H2 & _).
      split; [exact H1|exact H2].
  - destruct (groq_handler_cases now text st) as [(_ & msg & ->)|(_ & ->)].
    + now split.
    + destruct (@saved_when_writable
                  (set_transcriptions
                     (createTranscription now
                        (processKeywords st (GroqApp.filterHallucinations (trim text)))
                      :: transcriptions st) (set_isProcessing false st)) Hw)
        as (_ & _ & H1 & H2).
      split; [exact H1|exact H2].
  - apply Hdel.
  - unfold deleteCurrentTranscription.
    destruct (currentTranscriptionId st) as [[|c cur]|]; try now split.
    apply (Hdel (c :: cur)).
  - unfold deleteCurrentTranscriptionGroq.
    destruct (currentTranscriptionId st) as [[|c cur]|]; try now split.
    cbv zeta.
    destruct (@saved_when_writable
                (set_transcriptions
                   (filter (fun t => negb (eqb (tr_id t) (c :: cur)))
                      (transcriptions st)) st) Hw)
      as (_ & _ & H1 & H2).
    split; [exact H1|exact H2].
Qed.

Lemma store_mirrors_records_witness :
  mirrored (LocalApp.handleTranscriptionResult noon (lit "会議は3時からです")
              savedOnce).
Proof.
  apply (@store_mirrors_records noon (lit "会議は3時からです") [] savedOnce eq_refl).
  - vm_compute. reflexivity.
  - left. reflexivity.
Defined.

End RecordList.

Section RecordView.
Import JS Shared Records Notions ListFacts Inputs.

(** X9: when the store refuses the write, a transcript that survives the
    filter is recorded and shown all the same and the store is left as it
    was; the local client reports the failure in a toast, before the toast
    of success, and the remote client shows the toast of success only. *)
Theorem save_failure_keeps_record (now : Date) (text : str) (st : State) :
  writable (localStorage st) = false ->
  (LocalApp.cleanText (trim text) <> [] ->
   let st' := LocalApp.handleTranscriptionResult now text st in
   localStorage st' = localStorage st
   /\ length (transcriptions st') = S (length (transcriptions st))
   /\ currentView st' = detail
   /\ toasts st'
      = (lit "認識が完了しました", success)
        :: (lit "保存に失敗しました", error) :: toasts st)
  /\ (GroqApp.filterHallucinations (trim text) <> [] ->
      let st' := GroqApp.handleTranscriptionResult now text st in
      localStorage st' = localStorage st
      /\ length (transcriptions st') = S (length (transcriptions st))
      /\ currentView st' = detail
      /\ toasts st' = (lit "認識が完了しました", success) :: toasts st).
Proof.
  intros Hw. split.
  - intros Hkept st'. subst st'.
    destruct (local_handler_cases now text st) as [(E & _)|(_ & ->)];
      [contradiction|].
    unfold LocalApp.saveTranscriptions, setTranscriptions.
    cbn [localStorage set_transcriptions set_isProcessing].
    rewrite Hw. repeat split.
  - intros Hkept st'. subst st'.
    destruct (groq_handler_cases now text st) as [(E & _)|(_ & ->)];
      [contradiction|].
    unfold GroqApp.saveTranscriptions, setTranscriptions.
    cbn [localStorage set_transcriptions set_isProcessing].
    rewrite Hw. repeat split.
Qed.

Lemma save_failure_keeps_record_witness :
  toasts (LocalApp.handleTranscriptionResult noon (lit "会議は3時からです") fullStore)
  = [(lit "認識が完了しました", success); (lit "保存に失敗しました", error)].
Proof.
  apply (proj1 (@save_failure_keeps_record noon (lit "会議は3時からです")
                  fullStore eq_refl)).
  vm_compute. discriminate.
Defined.

Lemma viewConsistent_same (st st' : State) :
  currentView st' = currentView st ->
  currentTranscriptionId st' = currentTranscriptionId st ->
  transcriptions st' = transcriptions st ->
  viewConsistent st -> viewConsistent st'.
Proof.
  unfold viewConsistent. intros -> -> ->. trivial.
Qed.

(** X10: the detail view is always open on a record of the list: if that
    holds before, it holds after the result handler of either client,
    after [navigateToDetail] and [navigateToHome], after both
    [deleteCurrentTranscription], and after [deleteTranscription] of
    another record than the one shown; and a transcript that survives the
    filter opens the detail view on the record made from it. *)
Theorem detail_view_on_a_record (now : Date) (text id : str) (st : State) :
  viewConsistent st ->
  viewConsistent (LocalApp.handleTranscriptionResult now text st)
  /\ viewConsistent (GroqApp.handleTranscriptionResult now text st)
  /\ viewConsistent (navigateToDetail id st)
  /\ viewConsistent (navigateToHome st)
  /\ viewConsistent (deleteCurrentTranscription st)
  /\ viewConsistent (deleteCurrentTranscriptionGroq st)
  /\ (currentTranscriptionId st <> Some id ->
      viewConsistent (deleteTranscription id st))
  /\ (LocalApp.cleanText (trim text) <> [] ->
      currentTranscriptionId (LocalApp.handleTranscriptionResult now text st)
      = Some (tr_id (createTranscription now
                       (processKeywords st (LocalApp.cleanText (trim text))))))
  /\ (GroqApp.filterHallucinations (trim text) <> [] ->
      currentTranscriptionId (GroqApp.handleTranscriptionResult now text st)
      = Some (tr_id (createTranscription now
                       (processKeywords st
                          (GroqApp.filterHallucinations (trim text)))))).
Proof.
  intros Hv.
  split; [|split; [|split; [|split; [|split; [|split; [|split; [|split]]]]]]].
  - destruct (local_handler_cases now text st) as [(_ & msg & ->)|(_ & ->)].
    + exact Hv.
    + unfold viewConsistent.
      cbn [currentTranscriptionId currentView transcriptions updateStatus
             showToast set_view].
      split; [reflexivity|].
      rewrite (proj1 (transcriptions_saved _)). left. reflexivity.
  - destruct (groq_handler_cases now text st) as [(_ & msg & ->)|(_ & ->)].
    + exact Hv.
    + unfold viewConsistent.
      cbn [currentTranscriptionId currentView transcriptions updateStatus
             showToast set_view].
      split; [reflexivity|].
      rewrite (proj2 (transcriptions_saved _)). left. reflexivity.
  - unfold navigateToDetail.
    destruct (find _ (transcriptions st)) as [t|] eqn:E; [|exact Hv].
    apply find_some in E. destruct E as [Hin E].
    apply (reflect_iff _ _ (JSFacts.eqb_spec _ _)) in E.
    unfold viewConsistent. simpl. split; [reflexivity|].
    rewrite <- E. now apply in_map.
  - reflexivity.
  - unfold deleteCurrentTranscription.
    destruct (currentTranscriptionId st) as [[|c cur]|] eqn:E;
      [exact Hv|reflexivity|exact Hv].
  - unfold deleteCurrentTranscriptionGroq.
    destruct (currentTranscriptionId st) as [[|c cur]|] eqn:E;
      [exact Hv|reflexivity|exact Hv].
  - intros Hother. unfold viewConsistent in *.
    assert (Hcur : currentTranscriptionId (deleteTranscription id st)
                   = currentTranscriptionId st
                   /\ currentView (deleteTranscription id st) = currentView st).
    { unfold deleteTranscription, LocalApp.saveTranscriptions.
      destruct (findIndex _ _); [|now split].
      cbv zeta. destruct (setTranscriptions _ _); now split. }
    destruct Hcur as [-> ->].
    destruct (currentTranscriptionId st) as [cur|]; [|exact Hv].
    destruct Hv as [Hd Hin]. split; [exact Hd|].
    apply in_map_iff in Hin. destruct Hin as (t & Et & Ht).
    apply in_map_iff. exists t. split; [exact Et|].
    apply deleteTranscription_keeps; [exact Ht|].
    intros E. apply Hother. congruence.
  - intros Hkept.
    destruct (local_handler_cases now text st) as [(E & _)|(_ & ->)];
      [contradiction|reflexivity].
  - intros Hkept.
    destruct (groq_handler_cases now text st) as [(E & _)|(_ & ->)];
      [contradiction|reflexivity].
Qed.

Lemma detail_view_on_a_record_witness :
  viewConsistent
    (LocalApp.handleTranscriptionResult noon (lit "会議は3時からです") st0).
Proof.
  refine (proj1 (@detail_view_on_a_record noon (lit "会議は3時からです") [] st0 _)).
  reflexivity.
Defined.

End RecordView.

(** ** The corrector and the records *)

Module CorrectorFacts.
Import JS Shared Spec Notions TrimFacts.

Lemma sameCase_length (s t : str) : sameCase s t -> length s = length t.
Proof.
  unfold sameCase. intros H. apply (f_equal (@length _)) in H.
  now rewrite !length_map in H.
Qed.

Lemma sameCase_skipn (s t : str) (j : nat) :
  sameCase s t -> sameCase (skipn j s) (skipn j t).
Proof.
  unfold sameCase. intros H. now rewrite <- !skipn_map, H.
Qed.

Lemma stamp_pending (w p s : str) :
  length p <= length s -> firstn (length p) (stamp w p s) = p.
Proof.
  revert s. induction p as [|d p IH]; intros s Hlen; [reflexivity|].
  destruct s as [|c s]; [simpl in Hlen; lia|].
  simpl. f_equal. apply IH. simpl in Hlen. lia.
Qed.

(** The leftmost occurrence of [w] up to case is written as [w], and the
    text before it is kept. *)
Lemma stamp_first (w s : str) (i : nat) :
  w <> [] ->
  startsWithCI w (skipn i s) = true ->
  (forall j, j < i -> startsWithCI w (skipn j s) = false) ->
  firstn i (stamp w [] s) = firstn i s
  /\ firstn (length w) (skipn i (stamp w [] s)) = w.
Proof.
  intros Hw. revert s. induction i as [|i IH]; intros s Hat Hbefore.
  - split; [reflexivity|]. cbn [skipn] in *.
    destruct w as [|x w]; [contradiction|].
    destruct s as [|c s]; [discriminate|].
    cbn [stamp]. rewrite Hat. cbn [length firstn]. f_equal.
    apply stamp_pending.
    pose proof (@startsWithCI_length (x :: w) (c :: s) Hat) as Hlen.
    simpl in Hlen. lia.
  - destruct s as [|c s].
    + destruct w; [contradiction|discriminate].
    + pose proof (Hbefore 0 ltac:(lia)) as H0. cbn [skipn] in H0.
      cbn [stamp]. rewrite H0. cbn [skipn firstn].
      destruct (IH s) as [H1 H2].
      * exact Hat.
      * intros j Hj. apply (Hbefore (S j)). lia.
      * split; [now rewrite H1|exact H2].
Qed.

Lemma splitOn_piece (cls : unit -> bool) (x : str) :
  forallb (fun c => negb (cls c)) x = true -> splitOn cls x = [x].
Proof.
  induction x as [|c x IH]; [reflexivity|]. simpl.
  intros H. apply andb_true_iff in H. destruct H as [Hc Hx].
  apply negb_true_iff in Hc. rewrite Hc, (IH Hx). reflexivity.
Qed.

Lemma splitOn_sep (cls : unit -> bool) (x rest : str) (c : unit) :
  forallb (fun c => negb (cls c)) x = true -> cls c = true ->
  splitOn cls (x ++ c :: rest) = x :: splitOn cls rest.
Proof.
  intros Hx Hc. induction x as [|d x IH]; simpl.
  - now rewrite Hc.
  - simpl in Hx. apply andb_true_iff in Hx. destruct Hx as [Hd Hx].
    apply negb_true_iff in Hd. rewrite Hd, (IH Hx). reflexivity.
Qed.

(** The pieces of a prompt between its commas. *)
Lemma splitOn_join (pre w : str) (ws : list str) :
  forallb (fun c => negb (c =? chr ",")%N) pre = true ->
  Forall (fun w => forallb (fun c => negb (c =? chr ",")%N) w = true) (w :: ws) ->
  splitOn (fun c => (c =? chr ",")%N) (pre ++ join (lit ", ") (w :: ws))
  = (pre ++ w) :: map (fun x => chr " " :: x) ws.
Proof.
  revert pre w. induction ws as [|w2 ws IH]; intros pre w Hpre Hall.
  - change (join (lit ", ") [w]) with w. apply splitOn_piece.
    rewrite forallb_app. apply andb_true_intro. split; [exact Hpre|].
    inversion Hall as [|? ? Hw _]. exact Hw.
  - change (join (lit ", ") (w :: w2 :: ws))
      with (w ++ lit ", " ++ join (lit ", ") (w2 :: ws)).
    change (lit ", " ++ join (lit ", ") (w2 :: ws))
      with (chr "," :: [chr " "] ++ join (lit ", ") (w2 :: ws)).
    rewrite app_assoc. rewrite splitOn_sep.
    + rewrite IH; [reflexivity|reflexivity|now inversion Hall].
    + rewrite forallb_app. apply andb_true_intro. split; [exact Hpre|].
      inversion Hall as [|? ? Hw _]. exact Hw.
    + reflexivity.
Qed.

Lemma trim_after_space (w : str) :
  w <> [] -> trim w = w -> trim (chr " " :: w) = w.
Proof.
  intros Hw Ht. destruct (trim_ends w) as [Hs He]. rewrite Ht in Hs, He.
  unfold trim.
  assert (E : dropWhile isSpace (chr " " :: w) = dropWhile isSpace w).
  { unfold dropWhile. cbn [span]. change (isSpace (chr " ")) with true.
    cbv iota. now destruct (span isSpace w). }
  rewrite E, (dropWhile_id isSpace w Hs). now apply dropWhileEnd_id.
Qed.

End CorrectorFacts.

Section Corrector.
Import JS Shared Spec Notions TrimFacts CorrectorFacts ListFacts Inputs.

(** X14: with keywords without [$] the corrector changes the case of
    letters and nothing else, so every record that a result handler adds
    holds the filtered transcript up to case and has from three code units
    up to the code units of the transcript received. *)
Theorem recorded_text_bounds (now : Date) (text : str) (st : State) :
  Forall (fun k => dollarFree (kw_word k)) (keywords st) ->
  (forall t, sameCase (processKeywords st t) t)
  /\ (forall r,
      In r (transcriptions (LocalApp.handleTranscriptionResult now text st)) ->
      In r (transcriptions st)
      \/ (sameCase (tr_fullText r) (LocalApp.cleanText (trim text))
          /\ 3 <= length (tr_fullText r) <= length text))
  /\ (forall r,
      In r (transcriptions (GroqApp.handleTranscriptionResult now text st)) ->
      In r (transcriptions st)
      \/ (sameCase (tr_fullText r) (GroqApp.filterHallucinations (trim text))
          /\ 3 <= length (tr_fullText r) <= length text)).
Proof.
  intros Hfree.
  assert (Hsame : forall t, sameCase (processKeywords st t) t).
  { intros t. rewrite processKeywords_replaceAll. apply replaceAll_sameCase.
    apply Forall_map. exact Hfree. }
  split; [exact Hsame|]. split.
  - intros r Hr.
    destruct (local_handler_cases now text st) as [(_ & msg & E)|(Hkept & E)];
      rewrite E in Hr; cbn [transcriptions updateStatus showToast set_view] in Hr.
    + left. exact Hr.
    + rewrite (proj1 (transcriptions_saved _)) in Hr. destruct Hr as [<-|Hr].
      * right. cbn [tr_fullText createTranscription].
        split; [apply Hsame|]. rewrite (sameCase_length (Hsame _)).
        pose proof (length_cleanText (trim text)).
        pose proof (LengthFacts.length_trim text).
        destruct (proj1 (filtered_floor (trim text))); [contradiction|lia].
      * left. exact Hr.
  - intros r Hr.
    destruct (groq_handler_cases now text st) as [(_ & msg & E)|(Hkept & E)];
      rewrite E in Hr; cbn [transcriptions updateStatus showToast set_view] in Hr.
    + left. exact Hr.
    + rewrite (proj2 (transcriptions_saved _)) in Hr. destruct Hr as [<-|Hr].
      * right. cbn [tr_fullText createTranscription].
        split; [apply Hsame|]. rewrite (sameCase_length (Hsame _)).
        pose proof (length_filterHallucinations (trim text)).
        pose proof (LengthFacts.length_trim text).
        destruct (proj2 (filtered_floor (trim text))); [contradiction|lia].
      * left. exact Hr.
Qed.

Lemma recorded_text_bounds_witness :
  sameCase
    (processKeywords (withKeywords [lit "VoiceScribe"] []) (lit "using VOICESCRIBE"))
    (lit "using VOICESCRIBE").
Proof.
  refine (proj1 (@recorded_text_bounds noon [] (withKeywords [lit "VoiceScribe"] []) _) _).
  apply Forall_forall. intros k Hk.
  destruct Hk as [<-|[]]; intros H; vm_compute in H;
    repeat (destruct H as [H|H]; [discriminate|]); exact H.
Defined.

(** X15: the keyword registered last has the last word: where the text
    holds it first, up to case, the corrected text has it in the spelling
    registered, whatever the other keywords did there, as long as no
    keyword has a [$]. *)
Theorem last_keyword_spelling (st : State) (ks : list Keyword) (k : Keyword)
    (text : str) (i : nat) :
  keywords st = ks ++ [k] ->
  Forall (fun k => dollarFree (kw_word k)) (keywords st) ->
  kw_word k <> [] ->
  startsWithCI (kw_word k) (skipn i text) = true ->
  (forall j, j < i -> startsWithCI (kw_word k) (skipn j text) = false) ->
  firstn (length (kw_word k)) (skipn i (processKeywords st text)) = kw_word k.
Proof.
  intros Eks Hfree Hw Hat Hbefore.
  rewrite Eks in Hfree. apply Forall_app in Hfree. destruct Hfree as [Hks Hk].
  inversion Hk as [|? ? Hkfree _]. subst.
  unfold processKeywords. rewrite Eks, fold_left_app. cbn [fold_left].
  set (s := fold_left _ ks text).
  assert (Hs : sameCase s text).
  { subst s.
    pose proof (@processKeywords_replaceAll (set_keywords ks st) text) as E.
    unfold processKeywords in E. cbn [keywords set_keywords] in E. rewrite E.
    apply replaceAll_sameCase. apply Forall_map. exact Hks. }
  rewrite (replaceKeyword_stamp s Hkfree).
  apply stamp_first; [exact Hw| |].
  - rewrite (startsWithCI_sameCase (kw_word k) (sameCase_skipn i Hs)). exact Hat.
  - intros j Hj.
    rewrite (startsWithCI_sameCase (kw_word k) (sameCase_skipn j Hs)).
    now apply Hbefore.
Qed.

Lemma last_keyword_spelling_witness :
  firstn 11
    (skipn 6
       (processKeywords (withKeywords [lit "voice"; lit "VoiceScribe"] [])
          (lit "using VOICESCRIBE")))
  = lit "VoiceScribe".
Proof.
  apply (@last_keyword_spelling
           (withKeywords [lit "voice"; lit "VoiceScribe"] [])
           [{| kw_id := 1; kw_word := lit "voice" |}]
           {| kw_id := 2; kw_word := lit "VoiceScribe" |}
           (lit "using VOICESCRIBE") 6).
  - reflexivity.
  - apply Forall_forall. intros k Hk.
    destruct Hk as [<-|[<-|[]]]; intros H; vm_compute in H;
      repeat (destruct H as [H|H]; [discriminate|]); exact H.
  - discriminate.
  - vm_compute. reflexivity.
  - intros j Hj.
    do 6 (destruct j as [|j]; [vm_compute; reflexivity|]). lia.
Defined.

(** The keywords that the worker finds in the prompt of the client. *)
Lemma promptKeywords_prompt (st : State) :
  Forall (fun k => kw_word k <> [] /\ trim (kw_word k) = kw_word k
                   /\ ~ In (chr ",") (kw_word k)) (keywords st) ->
  Worker.promptKeywords (keywordPrompt st) = map kw_word (keywords st).
Proof.
  intros Hks. unfold Worker.promptKeywords, keywordPrompt.
  assert (Hws : Forall (fun w => w <> [] /\ trim w = w /\ ~ In (chr ",") w)
                  (map kw_word (keywords st)))
    by (apply Forall_map; exact Hks).
  destruct (map kw_word (keywords st)) as [|w ws]; [reflexivity|].
  assert (Hcomma : Forall
                     (fun w => forallb (fun c => negb (c =? chr ",")%N) w = true)
                     (w :: ws)).
  { eapply Forall_impl; [|exact Hws]. intros x (_ & _ & Hx).
    apply forallb_forall. intros c Hc. apply negb_true_iff, N.eqb_neq.
    intros ->. contradiction. }
  pose proof (@splitOn_join [] w ws eq_refl Hcomma) as E.
  cbn [app] in E. rewrite E. cbn [map].
  inversion Hws as [|? ? (Hw & Htw & _) Hrest]. subst.
  rewrite Htw. cbn [filter].
  destruct w as [|c w]; [contradiction|]. cbn [length Nat.leb]. f_equal.
  clear E Hcomma Hws. induction Hrest as [|x l (Hx & Htx & _) _ IH];
    [reflexivity|].
  cbn [map filter]. rewrite (trim_after_space Hx Htx).
  destruct x as [|d x]; [contradiction|]. cbn [length Nat.leb]. f_equal.
  exact IH.
Qed.

Lemma corrections_of_keywords (ks : list Keyword) (text : str) :
  fold_left (fun correctedText keyword => replaceKeyword keyword correctedText)
    (map kw_word ks) text
  = fold_left (fun processed keyword => replaceKeyword (kw_word keyword) processed)
      ks text.
Proof.
  revert text. induction ks as [|k l IH]; intros t; [reflexivity|].
  simpl. apply IH.
Qed.

(** X16: the worker reads the keywords back from the prompt that the
    client sends: when no keyword is empty, has white space at an end or
    holds a comma, the prompt splits into the keywords, in their order,
    and [applyKeywordCorrections] of the worker is [processKeywords] of
    the client. *)
Theorem worker_reads_prompt (st : State) (text : str) :
  Forall (fun k => kw_word k <> [] /\ trim (kw_word k) = kw_word k
                   /\ ~ In (chr ",") (kw_word k)) (keywords st) ->
  Worker.promptKeywords (keywordPrompt st) = map kw_word (keywords st)
  /\ Worker.applyKeywordCorrections text (keywordPrompt st)
     = processKeywords st text.
Proof.
  intros Hks. split; [now apply promptKeywords_prompt|].
  unfold Worker.applyKeywordCorrections, processKeywords.
  rewrite (@promptKeywords_prompt st Hks). apply corrections_of_keywords.
Qed.

Lemma worker_reads_prompt_witness :
  Worker.promptKeywords
    (keywordPrompt (withKeywords [lit "VoiceScribe"; lit "Groq API"] []))
  = [lit "VoiceScribe"; lit "Groq API"].
Proof.
  refine (proj1 (@worker_reads_prompt
                   (withKeywords [lit "VoiceScribe"; lit "Groq API"] []) [] _)).
  apply Forall_forall. intros k Hk.
  destruct Hk as [<-|[<-|[]]];
    (split; [discriminate|]; split; [vm_compute; reflexivity|]);
    intros H; vm_compute in H;
    repeat (destruct H as [H|H]; [discriminate|]); exact H.
Defined.

End Corrector.

(** ** The two versions of [normalizeAudio] *)

Module NormalizeFacts.
Import Audio Spec AudioFacts.
Local Open Scope Q_scope.

Lemma Math_max_peak (x : Q) (w : list Q) :
  MainApp.Math_max (map Qabs (x :: w)) = Some (peakFrom (Qabs x) w).
Proof.
  unfold MainApp.Math_max. simpl. generalize (Qabs x).
  induction w as [|y w IH]; intros m; [reflexivity|]. simpl. apply IH.
Qed.

Lemma Qltb_comp (a a' b : Q) : a == a' -> Qltb a b = Qltb a' b.
Proof.
  intros E. destruct (Qltb a' b) eqn:H.
  - apply Qltb_lt. apply Qltb_lt in H. now rewrite E.
  - apply Qltb_ge. apply Qltb_ge in H. now rewrite E.
Qed.

(** Two running maxima that start from equal numbers end on the same
    sample, or stay where they started. *)
Lemma peakFrom_start (m m' : Q) (w : list Q) :
  m == m' ->
  peakFrom m w = peakFrom m' w \/ (peakFrom m w = m /\ peakFrom m' w = m').
Proof.
  intros E. induction w as [|x w IH]; [now right|].
  unfold peakFrom in *. simpl. rewrite (Qltb_comp (Qabs x) E).
  destruct (Qltb m' (Qabs x)); [now left|exact IH].
Qed.

Lemma peak_tests (M M' : Q) :
  M == M' ->
  Qle_bool M 1 = Qle_bool M' 1
  /\ Qle_bool (1 # 10) M = Qle_bool (1 # 10) M'
  /\ Qltb M (1 # 1000) = Qltb M' (1 # 1000).
Proof.
  intros E. split; [|split].
  - destruct (Qle_bool M' 1) eqn:H.
    + apply Qle_bool_iff. apply Qle_bool_iff in H. now rewrite E.
    + apply not_true_iff_false. apply not_true_iff_false in H.
      rewrite Qle_bool_iff in *. now rewrite E.
  - destruct (Qle_bool (1 # 10) M') eqn:H.
    + apply Qle_bool_iff. apply Qle_bool_iff in H. now rewrite E.
    + apply not_true_iff_false. apply not_true_iff_false in H.
      rewrite Qle_bool_iff in *. now rewrite E.
  - now apply Qltb_comp.
Qed.

(** The two versions agree on what the engine accepts. *)
Lemma normalize_agree (fitsCall : nat -> bool) (w : list Q) :
  MainApp.normalizeAudio fitsCall w
  = if fitsCall (length w) then Some (LocalApp.normalizeAudio w) else None.
Proof.
  unfold MainApp.normalizeAudio, MainApp.spread. rewrite length_map.
  destruct (fitsCall (length w)); [|reflexivity].
  destruct w as [|x w]; [reflexivity|].
  rewrite Math_max_peak.
  assert (Hwrap : forall (b1 b2 : bool) (a c : list Q),
             (if b1 then Some a else if b2 then Some a else Some c)
             = Some (if b1 then a else if b2 then a else c)).
  { intros [|] [|]; reflexivity. }
  cbv zeta. rewrite Hwrap. f_equal. symmetry.
  unfold LocalApp.normalizeAudio. cbv zeta.
  fold (peakFrom 0 (x :: w)).
  change (peakFrom 0 (x :: w))
    with (peakFrom (if Qltb 0 (Qabs x) then Qabs x else 0) w).
  destruct (Qltb 0 (Qabs x)) eqn:Hx; [reflexivity|].
  apply Qltb_ge in Hx. pose proof (Qabs_nonneg x) as Hx'.
  assert (E : 0 == Qabs x) by lra.
  destruct (peakFrom_start w E) as [->|[-> ->]]; [reflexivity|].
  destruct (peak_tests E) as (<- & <- & <-). reflexivity.
Qed.

Lemma wellScaled_tests (w : list Q) :
  wellScaled w ->
  Qle_bool (peakFrom 0 w) 1 && Qle_bool (1 # 10) (peakFrom 0 w) = true.
Proof.
  intros [Hall Hex]. destruct (peakFrom_spec w 0) as (H0 & Hle & Hmax).
  apply andb_true_iff. rewrite !Qle_bool_iff. split.
  - destruct Hmax as [->|Hmax]; [lra|].
    apply Exists_exists in Hmax. destruct Hmax as (x & Hx & ->).
    rewrite Forall_forall in Hall. now apply Hall.
  - apply Exists_exists in Hex. destruct Hex as (x & Hx & H).
    rewrite Forall_forall in Hle. specialize (Hle x Hx). cbv beta in Hle. lra.
Qed.

Lemma normalize_fixed (w : list Q) :
  wellScaled w -> LocalApp.normalizeAudio w = w.
Proof.
  intros H. unfold LocalApp.normalizeAudio. cbv zeta. fold (peakFrom 0 w).
  now rewrite (wellScaled_tests H).
Qed.

(** What [normalizeAudio] returns: its argument, or a waveform whose peak
    is 0.95. *)
Lemma normalize_shape (w : list Q) :
  (LocalApp.normalizeAudio w = w
   /\ (wellScaled w \/ Forall (fun x => Qabs x < 1 # 1000) w))
  \/ (Forall (fun y => Qabs y <= 95 # 100) (LocalApp.normalizeAudio w)
      /\ Exists (fun y => Qabs y == 95 # 100) (LocalApp.normalizeAudio w)).
Proof.
  unfold LocalApp.normalizeAudio. cbv zeta. fold (peakFrom 0 w).
  destruct (peakFrom_spec w 0) as (H0 & Hle & Hmax).
  destruct (Qle_bool (peakFrom 0 w) 1 && Qle_bool (1 # 10) (peakFrom 0 w)) eqn:Htest.
  - left. split; [reflexivity|]. left.
    apply andb_true_iff in Htest. rewrite !Qle_bool_iff in Htest.
    destruct Htest as [H1 H2]. split.
    + eapply Forall_impl; [|exact Hle]. intros x Hx. simpl in Hx. lra.
    + destruct Hmax as [E|Hmax]; [rewrite E in H2; lra|].
      eapply Exists_impl; [|exact Hmax]. intros x Hx. simpl in Hx.
      now rewrite <- Hx.
  - destruct (Qltb (peakFrom 0 w) (1 # 1000)) eqn:Hsil.
    + left. split; [reflexivity|]. right. apply Qltb_lt in Hsil.
      eapply Forall_impl; [|exact Hle]. intros x Hx. simpl in Hx. lra.
    + right. apply Qltb_ge in Hsil.
      assert (Hex : Exists (fun x => peakFrom 0 w == Qabs x) w).
      { destruct Hmax as [E|Hmax]; [rewrite E in Hsil; lra|].
        eapply Exists_impl; [|exact Hmax]. intros x Hx. simpl in Hx.
        now rewrite <- Hx. }
      pose proof (normalize_cases Hle Hex Hsil) as Hc. cbv zeta in Hc.
      rewrite Htest in Hc. apply Qltb_ge in Hsil. rewrite Hsil in Hc.
      destruct Hc as (_ & _ & Hc). apply Hc.
      intros Hw. apply wellScaled_tests in Hw. congruence.
Qed.

Lemma length_normalize (w : list Q) :
  length (LocalApp.normalizeAudio w) = length w.
Proof.
  unfold LocalApp.normalizeAudio. cbv zeta.
  destruct (_ && _); [reflexivity|]. destruct (Qltb _ _); [reflexivity|].
  apply length_map.
Qed.

Lemma normalize_unit (w : list Q) :
  Forall (fun y => Qabs y <= 1) (LocalApp.normalizeAudio w).
Proof.
  destruct (normalize_shape w) as [[-> [[H _]|H]]|[H _]].
  - exact H.
  - eapply Forall_impl; [|exact H]. intros x Hx. simpl in Hx. lra.
  - eapply Forall_impl; [|exact H]. intros x Hx. simpl in Hx. lra.
Qed.

(** An audible waveform is audible after [normalizeAudio]. *)
Lemma normalize_audible (w : list Q) :
  audible w -> audible (LocalApp.normalizeAudio w).
Proof.
  intros Hw. destruct (normalize_shape w) as [[-> _]|[_ H]]; [exact Hw|].
  eapply Exists_impl; [|exact H]. intros y Hy. simpl in Hy. rewrite Hy. lra.
Qed.

End NormalizeFacts.

Section NormaliseTwice.
Import Audio Spec AudioFacts NormalizeFacts.
Local Open Scope Q_scope.

(** X17: the two versions of [normalizeAudio]. The [Math.max] of
    [src/main.js] spreads the waveform into an argument list: it throws when
    the engine does not accept that many arguments, and returns what the
    loop of the local-Whisper client returns when it does. The loop keeps
    the number of samples, returns samples in [-1, 1] for every input,
    silent ones included, and is idempotent: a waveform that it has scaled
    has its peak at 0.95 and is returned as it is the second time. So is
    the version of [src/main.js] on what it returns. *)
Theorem normalizeAudio_twice (fitsCall : nat -> bool) (w : list Q) :
  MainApp.normalizeAudio fitsCall w
  = (if fitsCall (length w) then Some (LocalApp.normalizeAudio w) else None)
  /\ length (LocalApp.normalizeAudio w) = length w
  /\ Forall (fun y => Qabs y <= 1) (LocalApp.normalizeAudio w)
  /\ LocalApp.normalizeAudio (LocalApp.normalizeAudio w) = LocalApp.normalizeAudio w
  /\ (forall out,
      MainApp.normalizeAudio fitsCall w = Some out ->
      MainApp.normalizeAudio fitsCall out = Some out).
Proof.
  assert (Hidem : LocalApp.normalizeAudio (LocalApp.normalizeAudio w)
                  = LocalApp.normalizeAudio w).
  { destruct (normalize_shape w) as [[E _]|[Hall Hex]].
    - now rewrite !E.
    - apply normalize_fixed. split.
      + eapply Forall_impl; [|exact Hall]. intros y Hy. simpl in Hy. lra.
      + eapply Exists_impl; [|exact Hex]. intros y Hy. simpl in Hy.
        rewrite Hy. lra. }
  split; [apply normalize_agree|]. split; [apply length_normalize|].
  split; [apply normalize_unit|]. split; [exact Hidem|].
  intros out. rewrite (normalize_agree fitsCall w).
  destruct (fitsCall (length w)) eqn:Hfit; [|discriminate].
  intros H; injection H as <-.
  now rewrite normalize_agree, length_normalize, Hfit, Hidem.
Qed.

End NormaliseTwice.

(** ** The silence gate and the messages posted *)

Module GateFacts.
Import Audio Spec AudioFacts.
Local Open Scope Q_scope.

Lemma square_abs (x : Q) : x * x == Qabs x * Qabs x.
Proof.
  apply Qabs_case; intros H; [reflexivity|]. ring.
Qed.

Lemma count_succ (n : nat) :
  inject_Z (Z.of_nat (S n)) == inject_Z (Z.of_nat n) + 1.
Proof.
  rewrite Nat2Z.inj_succ. unfold Z.succ. rewrite inject_Z_plus. reflexivity.
Qed.

(** The sum of squares of samples below [t], and of samples from [t] on. *)
Lemma squares_below (t : Q) (w : list Q) (a : Q) :
  0 < t -> Forall (fun x => Qabs x < t) w ->
  fold_left (fun sum x => sum + x * x) w a
  <= a + inject_Z (Z.of_nat (length w)) * (t * t).
Proof.
  intros Ht Hall. revert a. induction Hall as [|x w Hx Hall IH]; intros a.
  - cbn [fold_left length]. change (inject_Z (Z.of_nat 0)) with 0. lra.
  - cbn [fold_left]. eapply Qle_trans; [apply IH|].
    cbn [length]. rewrite count_succ, (square_abs x).
    pose proof (Qabs_nonneg x) as H0.
    assert (Hsq : Qabs x * Qabs x <= t * t) by nra.
    lra.
Qed.

Lemma squares_above (t : Q) (w : list Q) (a : Q) :
  0 <= t -> Forall (fun x => t <= Qabs x) w ->
  a + inject_Z (Z.of_nat (length w)) * (t * t)
  <= fold_left (fun sum x => sum + x * x) w a.
Proof.
  intros Ht Hall. revert a. induction Hall as [|x w Hx Hall IH]; intros a.
  - cbn [fold_left length]. change (inject_Z (Z.of_nat 0)) with 0. lra.
  - cbn [fold_left]. eapply Qle_trans; [|apply IH].
    cbn [length]. rewrite count_succ, (square_abs x).
    assert (Hsq : t * t <= Qabs x * Qabs x) by nra.
    lra.
Qed.

Lemma count_pos (n : nat) : 0 < inject_Z (Z.of_nat (S n)).
Proof.
  change 0 with (inject_Z 0). rewrite <- Zlt_Qlt. lia.
Qed.

(** A waveform below the threshold everywhere does not pass the gate. *)
Lemma gate_rejects_faint (t : Q) (w : list Q) :
  0 < t -> w <> [] -> Forall (fun x => Qabs x < t) w ->
  root_lt (calculateRMS w) t = true.
Proof.
  intros Ht Hw Hall. destruct w as [|x w]; [contradiction|].
  unfold calculateRMS, root_lt. apply Qltb_lt.
  apply Qlt_shift_div_r; [apply count_pos|].
  inversion Hall as [|? ? Hx Hrest]. subst. cbn [fold_left].
  eapply Qle_lt_trans; [apply squares_below; eassumption|].
  cbn [length]. rewrite count_succ, (square_abs x).
  pose proof (Qabs_nonneg x) as H0.
  assert (Hsq : Qabs x * Qabs x < t * t) by nra.
  lra.
Qed.

Lemma gate_passes_loud (t : Q) (w : list Q) :
  0 <= t -> Forall (fun x => t <= Qabs x) w ->
  root_lt (calculateRMS w) t = false.
Proof.
  intros Ht Hall. destruct w as [|x w]; [reflexivity|].
  unfold calculateRMS, root_lt. apply Qltb_ge.
  apply Qle_shift_div_l; [apply count_pos|].
  pose proof (@squares_above t (x :: w) 0 Ht Hall) as H. lra.
Qed.

(** A waveform that passes the gate has a sample at the threshold or
    above. *)
Lemma gate_passes_audible (w : list Q) :
  w <> [] -> root_lt (calculateRMS w) (1 # 1000) = false -> audible w.
Proof.
  intros Hw Hpass.
  assert (Hdec : forall x : Q, {Qabs x < 1 # 1000} + {~ Qabs x < 1 # 1000}).
  { intros x. destruct (Qlt_le_dec (Qabs x) (1 # 1000)) as [H|H];
      [left; exact H|right; now apply Qle_not_lt]. }
  destruct (Forall_Exists_dec (fun x => Qabs x < 1 # 1000) Hdec w) as [Hall|Hex].
  - rewrite (@gate_rejects_faint (1 # 1000) w) in Hpass;
      [discriminate|reflexivity|assumption|assumption].
  - eapply Exists_impl; [|exact Hex]. intros x Hx. simpl in Hx.
    now apply Qnot_lt_le.
Qed.

End GateFacts.

Section Gate.
Import JS Audio Shared Spec Notions AudioFacts NormalizeFacts GateFacts Inputs.
Local Open Scope Q_scope.

(** X18: the silence gate compares the root mean square with 0.001, so
    a recording that is not empty and has every sample below 0.001 in
    absolute value is rejected, one with every sample at 0.001 or above
    passes, and one that passes has a sample at 0.001 or above. *)
Theorem silence_gate_sound (w : list Q) :
  w <> [] ->
  (Forall (fun x => Qabs x < 1 # 1000) w ->
   root_lt (calculateRMS w) (1 # 1000) = true)
  /\ (Forall (fun x => 1 # 1000 <= Qabs x) w ->
      root_lt (calculateRMS w) (1 # 1000) = false)
  /\ (root_lt (calculateRMS w) (1 # 1000) = false -> audible w).
Proof.
  intros Hw. split; [|split].
  - intros Hall. now apply gate_rejects_faint.
  - intros Hall. apply gate_passes_loud; [discriminate|assumption].
  - intros Hpass. now apply gate_passes_audible.
Qed.

Lemma silence_gate_sound_witness :
  root_lt (calculateRMS [1 # 2000; -(1 # 5000)]) (1 # 1000) = true.
Proof.
  refine (proj1 (@silence_gate_sound [1 # 2000; -(1 # 5000)] _) _).
  - discriminate.
  - repeat constructor.
Defined.

Variable fitsCall : nat -> bool.
Variable decodeAudioData : list (list N) -> option AudioBuffer.
Variable startRendering : AudioBuffer -> Graph -> nat -> option (list Q).

(** X19: [processAudioData] of either client ends in one of two ways,
    whatever the platform does: whatever the decoder and the offline
    context return or throw, and whatever argument lists the engine
    accepts in [normalizeAudio] of [src/main.js], whose exception ends in
    the error toast. Either one message is posted to the
    worker: it carries the keyword prompt, its samples are not empty, lie
    in [-1, 1] and are not all below 0.001, no toast is shown and the
    client is left busy. Or nothing is posted: one toast, a warning or an
    error, is shown and the status is the ready one. The records, the
    keywords, the store and the view are never touched. *)
Theorem audio_step_outcome (st st' : State) :
  In st' [ LocalApp.processAudioData decodeAudioData startRendering st;
           MainApp.processAudioData fitsCall decodeAudioData startRendering st ] ->
  audioOutcome st st'
  /\ transcriptions st' = transcriptions st
  /\ keywords st' = keywords st
  /\ localStorage st' = localStorage st
  /\ currentView st' = currentView st
  /\ currentTranscriptionId st' = currentTranscriptionId st.
Proof.
  assert (Hidle : forall msg type (b : bool) (s : State),
             (type = warning \/ type = error) ->
             outbox s = outbox st -> toasts s = toasts st ->
             (audioChunks st <> [] -> b = false) ->
             audioOutcome st
               (updateStatus ready TAP_TO_RECORD
                  (set_isProcessing b (showToast msg type s)))).
  { intros msg type b s Ht Ho Hto Hb. right.
    cbn [outbox toasts statusDot statusText isProcessing updateStatus
           set_isProcessing showToast].
    split; [exact Ho|]. split; [|auto].
    exists (msg, type). rewrite Hto. auto. }
  assert (Hpost : forall pcm (s : State),
             pcm <> [] -> Forall (fun y => Qabs y <= 1) pcm -> audible pcm ->
             outbox s = outbox st -> toasts s = toasts st ->
             keywords s = keywords st ->
             isProcessing s = true -> statusDot s = processing ->
             audioOutcome st
               (postMessage {| audioData := pcm; prompt := keywordPrompt s |} s)).
  { intros pcm s H1 H2 H3 Ho Hto Hk Hp Hs. left.
    exists {| audioData := pcm; prompt := keywordPrompt s |}.
    cbn [outbox toasts statusDot isProcessing postMessage audioData prompt].
    rewrite Ho. unfold keywordPrompt. rewrite Hk. auto 10. }
  intros Hin. simpl in Hin. destruct Hin as [<-|[<-|[]]].
  - unfold LocalApp.processAudioData.
    destruct (audioChunks st) as [|chunk chunks] eqn:Ech.
    + split; [|repeat split]. right.
      cbn [outbox toasts statusDot statusText isProcessing updateStatus showToast].
      split; [reflexivity|]. split; [eexists; split; [reflexivity|now left]|].
      split; [reflexivity|]. split; [reflexivity|]. intros H. now contradiction H.
    + cbv zeta. cbn [audioChunks updateStatus set_isProcessing]. rewrite Ech.
      destruct (decodeAudioData (chunk :: chunks)) as [buf|].
      2: { split; [|repeat split]. apply Hidle; auto. }
      destruct (LocalApp.resample startRendering buf) as [|x pcm] eqn:Epcm.
      { split; [|repeat split]. apply Hidle; auto. }
      destruct (root_lt (calculateRMS (x :: pcm)) (1 # 1000)) eqn:Egate.
      { split; [|repeat split]. apply Hidle; auto. }
      cbn [hasWorker updateStatus set_isProcessing].
      destruct (hasWorker st).
      2: { split; [|repeat split]. apply Hidle; auto. }
      split; [|repeat split].
      apply Hpost; try reflexivity.
      * intros E. apply (f_equal (@length _)) in E.
        rewrite length_normalize in E. discriminate.
      * apply normalize_unit.
      * apply normalize_audible. apply gate_passes_audible; [discriminate|exact Egate].
  - unfold MainApp.processAudioData.
    destruct (audioChunks st) as [|chunk chunks] eqn:Ech.
    + split; [|repeat split]. right.
      cbn [outbox toasts statusDot statusText isProcessing updateStatus showToast].
      split; [reflexivity|]. split; [eexists; split; [reflexivity|now left]|].
      split; [reflexivity|]. split; [reflexivity|]. intros H. now contradiction H.
    + cbv zeta. cbn [audioChunks updateStatus set_isProcessing]. rewrite Ech.
      destruct (decodeAudioData (chunk :: chunks)) as [buf|].
      2: { split; [|repeat split]. apply Hidle; auto. }
      destruct (MainApp.resampleTo16kHzMono fitsCall startRendering buf)
        as [[|x pcm]|] eqn:Epcm.
      { split; [|repeat split]. apply Hidle; auto. }
      2: { split; [|repeat split]. apply Hidle; auto. }
      destruct (root_lt (calculateRMS (x :: pcm)) (1 # 1000)) eqn:Egate.
      { split; [|repeat split]. apply Hidle; auto. }
      cbn [hasWorker updateStatus set_isProcessing].
      destruct (hasWorker st).
      2: { split; [|repeat split]. apply Hidle; auto. }
      split; [|repeat split].
      apply Hpost; try reflexivity.
      * discriminate.
      * unfold MainApp.resampleTo16kHzMono in Epcm.
        destruct (startRendering _ _ _) as [raw|]; [|discriminate].
        rewrite normalize_agree in Epcm.
        destruct (fitsCall (length raw)); [|discriminate].
        injection Epcm as Epcm. rewrite <- Epcm. apply normalize_unit.
      * apply gate_passes_audible; [discriminate|exact Egate].
Qed.

End Gate.

Lemma audio_step_outcome_witness :
  Notions.audioOutcome Inputs.st0
    (LocalApp.processAudioData (Inputs.decodeTo Inputs.threeFrames)
       Inputs.renderFirstChannel Inputs.st0).
Proof.
  refine (proj1 (@audio_step_outcome Inputs.engine (Inputs.decodeTo Inputs.threeFrames)
                   Inputs.renderFirstChannel Inputs.st0 _ _)).
  left. reflexivity.
Defined.

(** ** The samples of the manual resampler *)

Module InterpolationFacts.
Import Audio AudioFacts ResampleFacts.
Local Open Scope Q_scope.

Lemma nth_bounded (M : Q) (l : list Q) (i : nat) :
  0 <= M -> Forall (fun x => Qabs x <= M) l -> Qabs (nth i l 0) <= M.
Proof.
  intros HM Hall. destruct (Nat.lt_ge_cases i (length l)) as [Hi|Hi].
  - rewrite Forall_forall in Hall. apply Hall. now apply nth_In.
  - rewrite nth_overflow by assumption. exact HM.
Qed.

(** A sample between two samples of the source is bounded as they are. *)
Lemma between_bounded (M a c f : Q) :
  Qabs a <= M -> Qabs c <= M -> 0 <= f -> f <= 1 ->
  Qabs (a * (1 - f) + c * f) <= M.
Proof.
  rewrite !Qabs_Qle_condition. intros [Ha1 Ha2] [Hc1 Hc2] Hf0 Hf1.
  split; nra.
Qed.

Lemma fraction_bounds (x : Q) :
  0 <= x - inject_Z (Math_floor x) /\ x - inject_Z (Math_floor x) <= 1.
Proof.
  unfold Math_floor. pose proof (Qfloor_le x) as H1.
  pose proof (Qlt_floor x) as H2. rewrite inject_Z_plus in H2.
  change (inject_Z 1) with 1 in H2. split; lra.
Qed.

(** The sample of index [i] that the manual resampler returns when the
    rates differ. *)
Lemma nth_resampleManually (b : AudioBuffer) (target : Q) (i : nat) :
  Qeq_bool (sampleRate b) target = false ->
  (i < length (LocalApp.resampleManually b target))%nat ->
  nth i (LocalApp.resampleManually b target) 0
  = let srcIndex := inject_Z (Z.of_nat i) * (sampleRate b / target) in
    let srcFloor := Z.to_nat (Math_floor srcIndex) in
    let srcCeil := Nat.min (srcFloor + 1) (length (LocalApp.monoMix b) - 1) in
    let fraction := srcIndex - inject_Z (Math_floor srcIndex) in
    nth srcFloor (LocalApp.monoMix b) 0 * (1 - fraction)
    + nth srcCeil (LocalApp.monoMix b) 0 * fraction.
Proof.
  unfold LocalApp.resampleManually. cbv zeta. intros E. rewrite E.
  rewrite length_map, length_seq. intros Hi.
  set (f := fun i : nat => _).
  rewrite (nth_indep _ 0 (f O)) by (rewrite length_map, length_seq; exact Hi).
  rewrite map_nth, seq_nth by exact Hi. reflexivity.
Qed.

End InterpolationFacts.

Section Interpolation.
Import Audio AudioFacts ResampleFacts InterpolationFacts Inputs.
Local Open Scope Q_scope.

(** X20: the manual resampler never overshoots: when the samples of the
    first two channels are bounded by [M] in absolute value, so are those
    of the mono mix and those of the resampled waveform, each of which
    lies between two samples of the mix. *)
Theorem manual_resample_bounded (b : AudioBuffer) (target M : Q) :
  0 < sampleRate b -> 0 < target -> 0 <= M ->
  Forall (fun x => Qabs x <= M) (getChannelData b 0) ->
  Forall (fun x => Qabs x <= M) (getChannelData b 1) ->
  Forall (fun x => Qabs x <= M) (LocalApp.monoMix b)
  /\ Forall (fun y => Qabs y <= M) (LocalApp.resampleManually b target).
Proof.
  intros _ _ HM H0 H1.
  assert (Hmix : Forall (fun x => Qabs x <= M) (LocalApp.monoMix b)).
  { unfold LocalApp.monoMix. destruct (numberOfChannels b =? 1)%nat; [exact H0|].
    cbv zeta. apply Forall_map. apply Forall_forall. intros i _.
    pose proof (nth_bounded i HM H0) as Ha.
    pose proof (nth_bounded i HM H1) as Hc.
    apply Qabs_Qle_condition in Ha. apply Qabs_Qle_condition in Hc.
    apply Qabs_Qle_condition. split.
    - apply Qle_shift_div_l; lra.
    - apply Qle_shift_div_r; lra. }
  split; [exact Hmix|].
  unfold LocalApp.resampleManually. cbv zeta.
  destruct (Qeq_bool (sampleRate b) target); [exact Hmix|].
  apply Forall_map. apply Forall_forall. intros i _.
  apply between_bounded; try (now apply nth_bounded); apply fraction_bounds.
Qed.

Lemma manual_resample_bounded_witness :
  Forall (fun y => Qabs y <= 1 # 2)
    (LocalApp.resampleManually threeFrames (8000 # 1)).
Proof.
  refine (proj2 (@manual_resample_bounded threeFrames (8000 # 1) (1 # 2)
                   eq_refl eq_refl _ _ _)).
  - discriminate.
  - repeat constructor; discriminate.
  - constructor.
Defined.

(** X21: when the source rate is the target rate times a whole number [r]
    of two or more, the manual resampler keeps one sample of the mono mix
    out of [r] and drops the others: the sample of index [i] is the one
    of index [r * i] of the mix, no neighbour being mixed in, and there are
    as many samples as [r] goes into the frames. *)
Theorem manual_resample_decimates (b : AudioBuffer) (target : Q) (r i : nat) :
  0 < target -> (2 <= r)%nat ->
  sampleRate b == inject_Z (Z.of_nat r) * target ->
  length (LocalApp.resampleManually b target)
  = (length (LocalApp.monoMix b) / r)%nat
  /\ ((i < length (LocalApp.resampleManually b target))%nat ->
      nth i (LocalApp.resampleManually b target) 0
      == nth (r * i) (LocalApp.monoMix b) 0).
Proof.
  intros Ht Hr Hrate.
  assert (Hr2 : 2 <= inject_Z (Z.of_nat r)).
  { change 2 with (inject_Z 2). rewrite <- Zle_Qle. lia. }
  assert (Hne : Qeq_bool (sampleRate b) target = false).
  { destruct (Qeq_bool (sampleRate b) target) eqn:E; [|reflexivity].
    apply Qeq_bool_iff in E. rewrite Hrate in E. nra. }
  assert (Hratio : sampleRate b / target == inject_Z (Z.of_nat r)).
  { rewrite Hrate. field. lra. }
  split.
  - unfold LocalApp.resampleManually. cbv zeta. rewrite Hne.
    rewrite length_map, length_seq. unfold Math_floor.
    rewrite (Qfloor_comp _ (inject_Z (Z.of_nat (length (LocalApp.monoMix b)))
                            / inject_Z (Z.of_nat r))).
    + rewrite <- Zdiv_Qdiv, <- Nat2Z.inj_div. apply Nat2Z.id.
    + now rewrite Hratio.
  - intros Hi. rewrite (nth_resampleManually b target Hne Hi). cbv zeta.
    assert (Hidx : inject_Z (Z.of_nat i) * (sampleRate b / target)
                   == inject_Z (Z.of_nat (r * i))).
    { rewrite Hratio, Nat2Z.inj_mul, inject_Z_mult. ring. }
    assert (Hfl : Math_floor (inject_Z (Z.of_nat i) * (sampleRate b / target))
                  = Z.of_nat (r * i)).
    { unfold Math_floor. rewrite (Qfloor_comp _ _ Hidx). apply Qfloor_Z. }
    rewrite Hfl, Nat2Z.id, Hidx. ring.
Qed.

Lemma manual_resample_decimates_witness :
  length (LocalApp.resampleManually fiveFrames TARGET_SAMPLE_RATE)
  = (length (LocalApp.monoMix fiveFrames) / 3)%nat.
Proof.
  refine (proj1 (@manual_resample_decimates fiveFrames TARGET_SAMPLE_RATE 3 0
                   eq_refl _ _)).
  - apply le_S, le_n.
  - reflexivity.
Defined.

End Interpolation.

(** ** The text that the worker returns *)

Module WorkerFacts.
Import JS Shared Spec Notions LengthFacts.

Lemma length_replaceUnits (unit1 : str -> option nat) (min skip : nat) (s : str) :
  length (Worker.replaceUnits unit1 min skip s) <= length s - skip.
Proof.
  revert skip. induction s as [|c s IH]; intros skip; [simpl; lia|].
  cbn [Worker.replaceUnits]. destruct skip as [|k].
  - destruct (Worker.unitsFrom (length (c :: s)) unit1 (c :: s)) as [n m].
    destruct ((min <=? n) && (1 <=? m)).
    + specialize (IH (m - 1)). simpl. lia.
    + specialize (IH 0). simpl in *. lia.
  - specialize (IH k). simpl. lia.
Qed.

Lemma length_replaceUnits0 (unit1 : str -> option nat) (min : nat) (s : str) :
  length (Worker.replaceUnits unit1 min 0 s) <= length s.
Proof.
  pose proof (length_replaceUnits unit1 min 0 s). lia.
Qed.

Lemma length_removeHallucinationPatterns (text : str) :
  length (Worker.removeHallucinationPatterns text) <= length text.
Proof.
  unfold Worker.removeHallucinationPatterns.
  destruct text as [|c t]; [simpl; lia|]. cbv zeta.
  eapply Nat.le_trans; [apply length_trim|].
  eapply Nat.le_trans.
  { unfold Worker.removeDynamicRepetitions.
    match goal with |- context [if ?b then _ else _] => destruct b end;
      [apply Nat.le_refl|].
    pose proof (length_loopReplace 3 30 0) as H.
    eapply Nat.le_trans; [apply H|]. rewrite Nat.sub_0_r. apply Nat.le_refl. }
  eapply Nat.le_trans.
  { match goal with |- context [if ?b then _ else _] => destruct b end;
      [apply Nat.le_0_l|apply Nat.le_refl]. }
  repeat (eapply Nat.le_trans; [apply length_replaceUnits0|]).
  destruct (Worker.includesCI (c :: t) _); cbn [length];
    match goal with |- context [if ?b then _ else _] => destruct b end;
    simpl; lia.
Qed.

Lemma replaceKeyword_nil (w : str) : replaceKeyword w [] = [].
Proof.
  unfold replaceKeyword. now destruct w.
Qed.

Lemma applyKeywordCorrections_nil (prompt : str) :
  Worker.applyKeywordCorrections [] prompt = [].
Proof.
  unfold Worker.applyKeywordCorrections.
  induction (Worker.promptKeywords prompt) as [|w ws IH]; [reflexivity|].
  simpl. now rewrite replaceKeyword_nil.
Qed.

(** The code units of the pieces of a text are code units of the text. *)
Lemma in_splitOn (cls : unit -> bool) (s p : str) (c : unit) :
  In p (splitOn cls s) -> In c p -> In c s.
Proof.
  revert p. induction s as [|d s IH]; intros p.
  - simpl. intros [<-|[]] [].
  - simpl. destruct (cls d).
    + intros [<-|Hp] Hc; [destruct Hc|]. right. now apply (IH p).
    + destruct (splitOn cls s) as [|q qs] eqn:E.
      * intros [<-|[]] [<-|[]]. now left.
      * intros [<-|Hp] Hc.
        -- destruct Hc as [<-|Hc]; [now left|]. right. apply (IH q); [now left|assumption].
        -- right. apply (IH p); [now right|assumption].
Qed.

Lemma in_dropWhile (cls : unit -> bool) (s : str) (c : unit) :
  In c (dropWhile cls s) -> In c s.
Proof.
  unfold dropWhile. rewrite <- (span_app cls s) at 2.
  intros H. apply in_or_app. now right.
Qed.

Lemma in_trim (s : str) (c : unit) : In c (trim s) -> In c s.
Proof.
  unfold trim, dropWhileEnd. intros H. apply in_rev in H.
  apply in_dropWhile in H. apply in_rev in H. now apply in_dropWhile in H.
Qed.

Lemma promptKeywords_dollarFree (prompt : str) :
  dollarFree prompt -> Forall dollarFree (Worker.promptKeywords prompt).
Proof.
  intros Hfree. unfold Worker.promptKeywords. apply Forall_forall.
  intros w Hw. apply filter_In in Hw. destruct Hw as [Hw _].
  apply in_map_iff in Hw. destruct Hw as (p & <- & Hp).
  intros Hin. apply Hfree. apply in_trim in Hin.
  eapply in_splitOn; eassumption.
Qed.

End WorkerFacts.

Section WorkerText.
Import JS Shared Spec Notions LengthFacts WorkerFacts CorrectorFacts.

(** X22: one of the two closing phrases anywhere in the transcript, in
    any case, makes the worker discard the whole transcript, whatever else
    was said and whatever the keywords are. *)
Theorem worker_discards_whole_text (text prompt : str) :
  Worker.includesCI text (lit "ご視聴ありがとうございました") = true
  \/ Worker.includesCI text (lit "チャンネル登録") = true ->
  Worker.removeHallucinationPatterns text = []
  /\ Worker.transcribeResult text prompt = [].
Proof.
  intros H.
  assert (E : Worker.removeHallucinationPatterns text = []).
  { unfold Worker.removeHallucinationPatterns.
    destruct text as [|c t]; [reflexivity|]. cbv zeta.
    destruct (Worker.includesCI (c :: t) (lit "ご視聴ありがとうございました"));
      [reflexivity|].
    destruct H as [H|H]; [discriminate|]. now rewrite H. }
  split; [exact E|].
  unfold Worker.transcribeResult. cbv zeta. rewrite E.
  destruct (trim prompt); [reflexivity|].
  now rewrite applyKeywordCorrections_nil.
Qed.

Lemma worker_discards_whole_text_witness :
  Worker.transcribeResult
    (lit "明日の会議は十時からです。チャンネル登録お願いします") (lit "会議")
  = [].
Proof.
  refine (proj2 (@worker_discards_whole_text
                   (lit "明日の会議は十時からです。チャンネル登録お願いします")
                   (lit "会議") _)).
  right. vm_compute. reflexivity.
Defined.

(** X23: the worker never lengthens a transcript: what
    [removeHallucinationPatterns] returns has at most the code units of
    its argument, and so has the text of the result when the keyword
    prompt has no [$]. *)
Theorem worker_never_lengthens (text prompt : str) :
  length (Worker.removeHallucinationPatterns text) <= length text
  /\ (dollarFree prompt ->
      length (Worker.transcribeResult text prompt) <= length text).
Proof.
  split; [apply length_removeHallucinationPatterns|].
  intros Hfree. unfold Worker.transcribeResult. cbv zeta.
  eapply Nat.le_trans; [apply length_trim|].
  destruct (trim prompt); [apply length_removeHallucinationPatterns|].
  unfold Worker.applyKeywordCorrections.
  pose proof (@replaceAll_sameCase (Worker.promptKeywords prompt)
                (Worker.removeHallucinationPatterns text)
                (promptKeywords_dollarFree Hfree)) as Hs.
  unfold replaceAll in Hs. rewrite (sameCase_length Hs).
  apply length_removeHallucinationPatterns.
Qed.

End WorkerText.

(** ** The word count of [hasRepetitionLoop] *)

Module WordLoopFacts.
Import JS.

Lemma splitRuns_word (cls : unit -> bool) (w rest p : str) (l : list str) :
  forallb (fun c => negb (cls c)) w = true ->
  splitRuns cls false rest = p :: l ->
  splitRuns cls false (w ++ rest) = (w ++ p) :: l.
Proof.
  intros Hw Hrest. induction w as [|c w IH]; [exact Hrest|].
  simpl in Hw. apply andb_true_iff in Hw. destruct Hw as [Hc Hw].
  apply negb_true_iff in Hc. simpl. rewrite Hc, (IH Hw). reflexivity.
Qed.

Lemma splitRuns_start (cls : unit -> bool) (c : unit) (s : str) :
  cls c = false -> splitRuns cls true (c :: s) = splitRuns cls false (c :: s).
Proof.
  intros Hc. simpl. now rewrite Hc.
Qed.

(** A word written [n] times with [、] in between splits into [n] times
    the word. *)
Lemma splitRuns_repeat (w : str) (n : nat) :
  w <> [] ->
  forallb (fun c => negb (LocalApp.isWordBreak c)) w = true ->
  splitRuns LocalApp.isWordBreak false (join (lit "、") (repeat w (S n)))
  = repeat w (S n).
Proof.
  intros Hne Hw. induction n as [|n IH].
  - change (join (lit "、") (repeat w 1)) with w.
    rewrite <- (app_nil_r w) at 1.
    rewrite (@splitRuns_word LocalApp.isWordBreak w [] [] [] Hw eq_refl).
    now rewrite app_nil_r.
  - change (join (lit "、") (repeat w (S (S n))))
      with (w ++ chr "、" :: join (lit "、") (repeat w (S n))).
    rewrite (@splitRuns_word LocalApp.isWordBreak w _ [] (repeat w (S n)) Hw).
    + now rewrite app_nil_r.
    + cbn [splitRuns]. change (LocalApp.isWordBreak (chr "、")) with true.
      cbv iota. f_equal.
      transitivity (splitRuns LocalApp.isWordBreak false
                      (join (lit "、") (repeat w (S n)))); [|exact IH].
      destruct w as [|c w']; [contradiction|].
      simpl in Hw. apply andb_true_iff in Hw. destruct Hw as [Hc _].
      apply negb_true_iff in Hc.
      cbn [repeat join]. destruct (repeat _ n); now apply splitRuns_start.
Qed.

Lemma bump_again (w : str) (i k : nat) :
  fold_left (fun m x => LocalApp.bump x m) (repeat w k) [(w, LocalApp.Num i)]
  = [(w, LocalApp.Num (k + i))].
Proof.
  revert i. induction k as [|k IH]; intros i; [reflexivity|].
  cbn [repeat fold_left LocalApp.bump]. rewrite JSFacts.eqb_refl, IH.
  do 3 f_equal. lia.
Qed.

Lemma wordCounts_repeat (w : str) (n : nat) :
  existsb (eqb w) LocalApp.protoKeys = false ->
  LocalApp.wordCounts (repeat w (S n)) = [(w, LocalApp.Num (S n))].
Proof.
  intros Hkey. unfold LocalApp.wordCounts.
  cbn [repeat fold_left LocalApp.bump]. rewrite Hkey, bump_again.
  do 3 f_equal. lia.
Qed.

End WordLoopFacts.

Section WordLoop.
Import JS WordLoopFacts.

(** X24: the word count of [hasRepetitionLoop] rejects a word written
    three times or more with [、] in between, when the text has six code
    units at least and the word does not name a property that every object
    inherits: [cleanText] returns the empty string. *)
Theorem word_loop_rejected (w : str) (n : nat) :
  w <> [] ->
  forallb (fun c => negb (LocalApp.isWordBreak c)) w = true ->
  existsb (eqb w) LocalApp.protoKeys = false ->
  3 <= n ->
  6 <= length (join (lit "、") (repeat w n)) ->
  LocalApp.hasRepetitionLoop (join (lit "、") (repeat w n)) = true
  /\ LocalApp.cleanText (join (lit "、") (repeat w n)) = [].
Proof.
  intros Hne Hw Hkey Hn Hlen.
  assert (Hloop : LocalApp.hasRepetitionLoop (join (lit "、") (repeat w n)) = true).
  { unfold LocalApp.hasRepetitionLoop.
    destruct (Nat.ltb_spec (length (join (lit "、") (repeat w n))) 6); [lia|].
    match goal with |- (if ?b then _ else _) = _ => destruct b end; [reflexivity|].
    cbv zeta. destruct n as [|n]; [lia|].
    rewrite (@splitRuns_repeat w n Hne Hw).
    assert (Hwords : filter (fun x => 0 <? length x) (repeat w (S n))
                     = repeat w (S n)).
    { apply forallb_filter_id. apply forallb_forall. intros x Hx.
      apply repeat_spec in Hx. subst x. destruct w; [contradiction|reflexivity]. }
    rewrite Hwords, repeat_length, (@wordCounts_repeat w n Hkey).
    destruct (Nat.leb_spec 3 (S n)); [|lia].
    cbn [existsb snd LocalApp.dominates].
    destruct (Nat.leb_spec 3 (S n)); [|lia].
    destruct (Nat.leb_spec (7 * S n) (10 * S n)); [reflexivity|lia]. }
  split; [exact Hloop|].
  unfold LocalApp.cleanText, LocalApp.cleanStages.
  destruct (join (lit "、") (repeat w n)) as [|c t] eqn:E; [reflexivity|].
  now rewrite Hloop.
Qed.

Lemma word_loop_rejected_witness :
  LocalApp.cleanText (lit "じゃあ、じゃあ、じゃあ") = [].
Proof.
  refine (proj2 (@word_loop_rejected (lit "じゃあ") 3 _ eq_refl eq_refl _ _)).
  - discriminate.
  - apply le_n.
  - vm_compute. repeat constructor.
Defined.

End WordLoop.

(** ** The sentences that stage 3 drops *)

Module SentenceFacts.
Import JS Notions LengthFacts.

(** [w] occurs in [s]. *)
Lemma includes_spec (s w : str) :
  includes s w = true <-> exists a b, s = a ++ w ++ b.
Proof.
  induction s as [|c s IH].
  - simpl. rewrite orb_false_r. split.
    + intros H. apply JSFacts.startsWith_spec in H.
      exists [], []. destruct w; [reflexivity|discriminate].
    + intros (a & b & E). symmetry in E. apply app_eq_nil in E.
      destruct E as [_ E]. apply app_eq_nil in E. destruct E as [-> _]. reflexivity.
  - cbn [includes]. rewrite orb_true_iff, IH. split.
    + intros [H|(a & b & E)].
      * exists [], (skipn (length w) (c :: s)).
        apply (LoopFacts.startsWith_split _ _ H).
      * exists (c :: a), b. now rewrite E.
    + intros (a & b & E). destruct a as [|d a].
      * left. simpl in E. rewrite E. apply JSFacts.startsWith_app.
      * right. injection E as _ E. now exists a, b.
Qed.

Lemma includes_inside (s w a b : str) :
  includes s w = true -> includes (a ++ s ++ b) w = true.
Proof.
  rewrite !includes_spec. intros (a' & b' & ->).
  exists (a ++ a'), (b' ++ b). now rewrite <- !app_assoc.
Qed.

(** An occurrence of [w] in a text is on one side of a code unit that
    [w] does not hold. *)
Lemma occurrence_side (u v a w b : str) (c : unit) :
  w <> [] -> ~ In c w ->
  u ++ c :: v = a ++ w ++ b ->
  (exists b', u = a ++ w ++ b') \/ (exists a', v = a' ++ w ++ b).
Proof.
  intros Hne Hc E. apply app_eq_app in E. destruct E as [l [[Eu E]|[Ea E]]].
  - apply app_eq_app in E. destruct E as [l' [[Ew E]|[El E]]].
    + destruct l' as [|d l'].
      * left. exists []. rewrite app_nil_r in *. now subst.
      * exfalso. injection E as <- _. apply Hc. rewrite Ew.
        apply in_or_app. right. now left.
    + left. exists l'. now subst.
  - destruct l as [|d l].
    + exfalso. simpl in E. destruct w as [|x w]; [contradiction|].
      injection E as <- _. apply Hc. now left.
    + right. injection E as _ E. now exists l.
Qed.

Lemma occurrence_in_join (c : unit) (w : str) (l : list str) :
  w <> [] -> ~ In c w ->
  includes (join [c] l) w = true -> exists p, In p l /\ includes p w = true.
Proof.
  intros Hne Hc. induction l as [|x l IH].
  - simpl. rewrite orb_false_r. intros H.
    apply JSFacts.startsWith_spec in H. destruct w; [contradiction|discriminate].
  - destruct l as [|y l].
    + simpl. intros H. exists x. auto.
    + change (join [c] (x :: y :: l)) with (x ++ c :: join [c] (y :: l)).
      intros H. apply includes_spec in H. destruct H as (a & b & E).
      destruct (@occurrence_side x (join [c] (y :: l)) a w b c Hne Hc E)
        as [(b' & Ex)|(a' & Ej)].
      * exists x. split; [now left|]. apply includes_spec. now exists a, b'.
      * destruct IH as (p & Hp & Hw).
        -- apply includes_spec. now exists a', b.
        -- exists p. split; [now right|assumption].
Qed.

(** The pieces of a text are parts of it. *)
Lemma piece_inside (cls : unit -> bool) (s p : str) :
  In p (splitOn cls s) -> exists a b, s = a ++ p ++ b.
Proof.
  revert p. induction s as [|c s IH]; intros p.
  - simpl. intros [<-|[]]. now exists [], [].
  - simpl. destruct (cls c).
    + intros [<-|Hp].
      * now exists [], (c :: s).
      * destruct (IH p Hp) as (a & b & ->). now exists (c :: a), b.
    + destruct (splitOn cls s) as [|q qs] eqn:E.
      * intros [<-|[]]. exists [], s. reflexivity.
      * intros [<-|Hp].
        -- destruct (IH q (or_introl eq_refl)) as (a & b & Es).
           (* the first piece starts the text *)
           assert (Hq : exists b', s = q ++ b').
           { clear IH Es a b. revert q qs E.
             induction s as [|d s IHs]; intros q qs E.
             - simpl in E. injection E as <- _. now exists [].
             - simpl in E. destruct (cls d).
               + injection E as <- _. now exists (d :: s).
               + destruct (splitOn cls s) as [|q' qs'] eqn:E'.
                 * injection E as <- _. exists s. reflexivity.
                 * injection E as <- _.
                   destruct (IHs q' qs' eq_refl) as (b' & ->).
                   now exists b'. }
           destruct Hq as (b' & ->). now exists [], b'.
        -- destruct (IH p (or_intror Hp)) as (a & b & ->).
           now exists (c :: a), b.
Qed.

Lemma dropWhile_inside (cls : unit -> bool) (s : str) :
  exists a, s = a ++ dropWhile cls s.
Proof.
  exists (fst (span cls s)). symmetry. apply span_app.
Qed.

Lemma stripMaru_inside (s : str) :
  exists a b, s = a ++ LocalApp.stripMaru s ++ b.
Proof.
  unfold LocalApp.stripMaru.
  destruct (dropWhile_inside (LocalApp.isChar "。") s) as [a Ea].
  destruct (TrimFacts.dropWhileEnd_start (LocalApp.isChar "。")
              (dropWhile (LocalApp.isChar "。") s)) as [b Eb].
  exists a, b. rewrite <- Eb. exact Ea.
Qed.

(** After the sentences of [word] are dropped the text does not hold
    [word], and holds no phrase that it did not hold before. *)
Lemma dropSentences_excludes (s word w : str) :
  w <> [] -> ~ In (chr "。") w ->
  w = word \/ includes s w = false ->
  includes (LocalApp.dropSentences s word) w = false.
Proof.
  intros Hne Hmaru Hw. unfold LocalApp.dropSentences.
  destruct (includes s word) eqn:Hin.
  - apply not_true_iff_false. intros H.
    destruct (stripMaru_inside
                (join (lit "。")
                   (filter (fun x => negb (includes x word))
                      (splitOn LocalApp.isSentenceEnd s)))) as (a & b & E).
    apply (@includes_inside _ _ a b) in H. rewrite <- E in H.
    apply (@occurrence_in_join _ _ _ Hne Hmaru) in H.
    destruct H as (p & Hp & Hpw). apply filter_In in Hp.
    destruct Hp as [Hp Hkeep]. apply negb_true_iff in Hkeep.
    destruct Hw as [->|Hw]; [congruence|].
    destruct (@piece_inside _ _ _ Hp) as (a' & b' & Es).
    apply (@includes_inside _ _ a' b') in Hpw. rewrite <- Es in Hpw. congruence.
  - destruct Hw as [->|Hw]; assumption.
Qed.

End SentenceFacts.

Section Sentences.
Import JS Notions SentenceFacts.

Lemma dropAll_excludes (ws : list str) (s w : str) :
  w <> [] -> ~ In (chr "。") w ->
  In w ws \/ includes s w = false ->
  includes (fold_left LocalApp.dropSentences ws s) w = false.
Proof.
  intros Hne Hmaru. revert s. induction ws as [|x ws IH]; intros s Hw.
  - destruct Hw as [[]|Hw]. exact Hw.
  - cbn [fold_left]. apply IH. destruct Hw as [[->|Hw]|Hw].
    + right. apply dropSentences_excludes; auto.
    + now left.
    + right. apply dropSentences_excludes; auto.
Qed.

Lemma plain_phrases (ws : list str) :
  forallb (fun w => (1 <=? length w) && negb (existsb (N.eqb (chr "。")) w)) ws
  = true ->
  Forall (fun w => w <> [] /\ ~ In (chr "。") w) ws.
Proof.
  intros H. apply Forall_forall. intros w Hw.
  rewrite forallb_forall in H. specialize (H w Hw).
  apply andb_true_iff in H. destruct H as [H1 H2]. split.
  - intros ->. discriminate.
  - intros Hin. apply negb_true_iff in H2.
    apply not_true_iff_false in H2. apply H2. apply existsb_exists.
    exists (chr "。"). split; [assumption|apply N.eqb_refl].
Qed.

(** X25: the loop of stage 3 does what it is there for: after it the text
    holds none of the phrases of the list, in the case in which they are
    listed, for the list of [cleanText] and for the list of
    [filterHallucinations]. The text that [cleanText] returns can hold
    one all the same: stage 4, which comes after, joins what is left of a
    repetition to what follows it. *)
Theorem blacklist_stage_removes (cleaned : str) :
  Forall
    (fun w =>
       includes (LocalApp.stripBlacklisted LocalApp.blacklistWords cleaned) w = false)
    LocalApp.blacklistWords
  /\ Forall
       (fun w =>
          includes (fold_left LocalApp.dropSentences GroqApp.HALLUCINATION_WORDS cleaned) w
          = false)
       GroqApp.HALLUCINATION_WORDS
  /\ In (lit "いいね") LocalApp.blacklistWords
  /\ LocalApp.cleanText (lit "今日はいい い いねと言った") = lit "今日はいいねと言った".
Proof.
  split; [|split; [|split]].
  - pose proof (@plain_phrases LocalApp.blacklistWords eq_refl) as HP.
    rewrite Forall_forall in *. intros w Hw. destruct (HP w Hw) as [Hne Hmaru].
    unfold LocalApp.stripBlacklisted. apply dropAll_excludes; auto.
  - pose proof (@plain_phrases GroqApp.HALLUCINATION_WORDS eq_refl) as HP.
    rewrite Forall_forall in *. intros w Hw. destruct (HP w Hw) as [Hne Hmaru].
    apply dropAll_excludes; auto.
  - vm_compute. tauto.
  - vm_compute. reflexivity.
Qed.

End Sentences.

(** ** The transcription API *)

Section ApiHandler.
Import JS Api.

Variable create : GroqParams -> GroqResult.

(** X26: the API handler answers with one of four status codes; it calls
    Groq once at most, and only for a [POST] request whose form holds an
    audio file with a path, always with the same model, language and
    format; the temporary file is deleted exactly when Groq returns, so it
    is left behind when Groq throws; the text is sent back with status 200
    and the message of the exception with status 500; and the [prompt]
    field of the form is never read. *)
Theorem api_handler_outcomes (req : Request) :
  In (status (response (handler create req))) [200; 400; 405; 500]%N
  /\ (forall q, In q (asked (handler create req)) ->
      asked (handler create req) = [q]
      /\ method req = lit "POST"
      /\ file q <> []
      /\ model q = lit "whisper-large-v3"
      /\ language q = lit "ja"
      /\ response_format q = lit "json"
      /\ (exists audioFile prompt,
             form req = Parsed (Some audioFile) prompt
             /\ orElse (filepath audioFile) (path audioFile) = Some (file q))
      /\ match create q with
         | Threw message =>
             unlinked (handler create req) = []
             /\ response (handler create req)
                = {| status := 500%N;
                     payload :=
                       Failed (orDefault (Some message) (lit "Transcription failed")) |}
         | Transcribed text =>
             unlinked (handler create req) = [file q]
             /\ response (handler create req)
                = {| status := 200%N; payload := Succeeded (orDefault text []) |}
         end)
  /\ (asked (handler create req) = [] -> unlinked (handler create req) = [])
  /\ (forall t, payload (response (handler create req)) = Succeeded t ->
                asked (handler create req) <> [])
  /\ (forall m audioFile prompt prompt',
         handler create {| method := m; form := Parsed audioFile prompt |}
         = handler create {| method := m; form := Parsed audioFile prompt' |}).
Proof.
  split; [|split; [|split; [|split]]].
  - unfold handler. cbv zeta.
    destruct (eqb (method req) (lit "OPTIONS")); [simpl; tauto|].
    destruct (negb (eqb (method req) (lit "POST"))); [simpl; tauto|].
    destruct (form req) as [message|[audioFile|] prompt]; try (simpl; tauto).
    destruct (orElse _ _) as [[|c p]|]; try (simpl; tauto).
    destruct (create _); simpl; tauto.
  - intros q. unfold handler. cbv zeta.
    destruct (eqb (method req) (lit "OPTIONS")); [intros []|].
    destruct (JSFacts.eqb_spec (method req) (lit "POST")) as [Em|]; [|intros []].
    cbn [negb].
    destruct (form req) as [message|[audioFile|] prompt]; try (intros []).
    destruct (orElse (filepath audioFile) (path audioFile)) as [[|c p]|] eqn:Ep;
      try (intros []).
    destruct (create _) as [message|text] eqn:Ec; intros Hin;
      cbn [asked In] in Hin; destruct Hin as [<-|[]]; rewrite Ec;
      cbn [asked unlinked response file model language response_format];
      (split; [reflexivity|]); (split; [assumption|]);
      (split; [discriminate|]); (split; [reflexivity|]);
      (split; [reflexivity|]); (split; [reflexivity|]);
      (split; [|split; reflexivity]);
      exists audioFile, prompt; (split; [reflexivity|assumption]).
  - unfold handler. cbv zeta.
    destruct (eqb (method req) (lit "OPTIONS")); [reflexivity|].
    destruct (negb (eqb (method req) (lit "POST"))); [reflexivity|].
    destruct (form req) as [message|[audioFile|] prompt]; try reflexivity.
    destruct (orElse _ _) as [[|c p]|]; try reflexivity.
    destruct (create _); discriminate.
  - intros t. unfold handler. cbv zeta.
    destruct (eqb (method req) (lit "OPTIONS")); [discriminate|].
    destruct (negb (eqb (method req) (lit "POST"))); [discriminate|].
    destruct (form req) as [message|[audioFile|] prompt]; try discriminate.
    destruct (orElse _ _) as [[|c p]|]; try discriminate.
    destruct (create _); discriminate.
  - reflexivity.
Qed.

End ApiHandler.

(** ** The remote client *)

Section RemoteClient.
Import JS Shared Notions ListFacts Inputs.

Lemma saved_remote (st : State) :
  outbox (GroqApp.saveTranscriptions st) = outbox st
  /\ keywords (GroqApp.saveTranscriptions st) = keywords st
  /\ toasts (GroqApp.saveTranscriptions st) = toasts st.
Proof.
  unfold GroqApp.saveTranscriptions. destruct (setTranscriptions _ _); auto.
Qed.

(** What [handleTranscriptionResult] of the remote client leaves of the
    fields that it does not own. *)
Lemma remote_handler_rest (now : Date) (text : str) (st : State) :
  outbox (GroqApp.handleTranscriptionResult now text st) = outbox st
  /\ keywords (GroqApp.handleTranscriptionResult now text st) = keywords st
  /\ statusDot (GroqApp.handleTranscriptionResult now text st) = ready
  /\ statusText (GroqApp.handleTranscriptionResult now text st) = TAP_TO_RECORD
  /\ isProcessing (GroqApp.handleTranscriptionResult now text st) = false.
Proof.
  destruct (groq_handler_cases now text st) as [(_ & msg & ->)|(_ & ->)].
  - repeat split.
  - cbn [outbox keywords statusDot statusText isProcessing updateStatus
           showToast set_view].
    destruct (saved_remote
                (set_transcriptions
                   (createTranscription now
                      (processKeywords st (GroqApp.filterHallucinations (trim text)))
                    :: transcriptions st) (set_isProcessing false st)))
      as (-> & -> & _).
    repeat split. unfold GroqApp.saveTranscriptions.
    destruct (setTranscriptions _ _); reflexivity.
Qed.

Variable fetch : Remote.FormData -> Remote.FetchOutcome.

(** X27: [processAudioData] of the remote client ends in the ready state
    whatever [fetch] does, with nothing posted to a worker and the
    keywords as they were. It hands a text to the result handler only when
    the response is ok and its body has [success] and a text that is not
    empty; in every other case, a network error, a status that is not ok,
    a body that is not JSON, it shows one toast, a warning or an error,
    and leaves the records, the store and the view as they were. *)
Theorem remote_step_outcome (now : Date) (st : State) :
  outbox (Remote.processAudioData fetch now st) = outbox st
  /\ keywords (Remote.processAudioData fetch now st) = keywords st
  /\ statusDot (Remote.processAudioData fetch now st) = ready
  /\ statusText (Remote.processAudioData fetch now st) = TAP_TO_RECORD
  /\ (audioChunks st <> [] ->
      isProcessing (Remote.processAudioData fetch now st) = false)
  /\ ((exists status text e,
          audioChunks st <> []
          /\ fetch (Remote.formData st)
             = Remote.Responded true status (Remote.Json true text e)
          /\ text <> []
          /\ Remote.processAudioData fetch now st
             = GroqApp.handleTranscriptionResult now text
                 (updateStatus processing (lit "AIで文字起こし中...")
                    (set_isProcessing true st)))
      \/ (transcriptions (Remote.processAudioData fetch now st) = transcriptions st
          /\ localStorage (Remote.processAudioData fetch now st) = localStorage st
          /\ currentView (Remote.processAudioData fetch now st) = currentView st
          /\ exists t,
               toasts (Remote.processAudioData fetch now st) = t :: toasts st
               /\ (snd t = warning \/ snd t = error))).
Proof.
  unfold Remote.processAudioData.
  destruct (audioChunks st) as [|chunk chunks] eqn:Ech.
  { repeat split; try reflexivity; [intros H; now contradiction H|].
    right. repeat split. eexists. split; [reflexivity|now left]. }
  cbv zeta.
  change (Remote.formData (updateStatus processing (lit "AIで文字起こし中...")
                             (set_isProcessing true st)))
    with (Remote.formData st).
  assert (Hfailed : forall message,
             let st' :=
               updateStatus ready TAP_TO_RECORD
                 (set_isProcessing false
                    (showToast message error
                       (updateStatus processing (lit "AIで文字起こし中...")
                          (set_isProcessing true st)))) in
             transcriptions st' = transcriptions st
             /\ localStorage st' = localStorage st
             /\ currentView st' = currentView st
             /\ exists t, toasts st' = t :: toasts st
                          /\ (snd t = warning \/ snd t = error)).
  { intros message. repeat split. eexists. split; [reflexivity|now right]. }
  destruct (fetch (Remote.formData st)) as [message|[|] status [message|succeeded text e]].
  - repeat split; try reflexivity. right. apply Hfailed.
  - repeat split; try reflexivity. right. apply Hfailed.
  - destruct (succeeded && (1 <=? length text)) eqn:Etest.
    + apply andb_true_iff in Etest. destruct Etest as [-> Hlen].
      destruct (remote_handler_rest now text
                  (updateStatus processing (lit "AIで文字起こし中...")
                     (set_isProcessing true st))) as (H1 & H2 & H3 & H4 & H5).
      split; [exact H1|]. split; [exact H2|]. split; [exact H3|].
      split; [exact H4|]. split; [intros _; exact H5|].
      left. exists status, text, e. split; [discriminate|]. split; [reflexivity|].
      split; [|reflexivity]. intros ->. discriminate.
    + repeat split; try reflexivity. right. repeat split.
      eexists. split; [reflexivity|now left].
  - repeat split; try reflexivity. right. apply Hfailed.
  - repeat split; try reflexivity. right. apply Hfailed.
Qed.

End RemoteClient.

Section EndToEnd.
Import JS Shared Notions Inputs.

Variable noJson : str.
Variable create : Api.GroqParams -> Api.GroqResult.
Variable receive : Remote.FormData -> Api.Request.

(** X28: the remote client in front of the API. When the handler does
    not call Groq, or Groq throws, no record is made and the client shows
    a toast of error that ends with the message that the handler sent, for
    an exception of Groq its message; when Groq returns no text the client
    shows the warning that nothing was recognised; and when Groq returns a
    text, that text, as Groq gave it, goes to the result handler. *)
Theorem remote_end_to_end (now : Date) (st : State) :
  audioChunks st <> [] ->
  match Api.asked (Api.handler create (receive (Remote.formData st))) with
  | [] =>
      transcriptions (Remote.processAudioData (Remote.viaApi noJson create receive) now st)
      = transcriptions st
      /\ exists message,
           toasts (Remote.processAudioData (Remote.viaApi noJson create receive) now st)
           = (lit "文字起こしに失敗しました: " ++ message, error) :: toasts st
  | q :: _ =>
      match create q with
      | Api.Threw message =>
          transcriptions (Remote.processAudioData (Remote.viaApi noJson create receive) now st)
          = transcriptions st
          /\ toasts (Remote.processAudioData (Remote.viaApi noJson create receive) now st)
             = (lit "文字起こしに失敗しました: "
                  ++ Api.orDefault (Some message) (lit "Transcription failed"), error)
               :: toasts st
      | Api.Transcribed None | Api.Transcribed (Some []) =>
          transcriptions (Remote.processAudioData (Remote.viaApi noJson create receive) now st)
          = transcriptions st
          /\ toasts (Remote.processAudioData (Remote.viaApi noJson create receive) now st)
             = (lit "音声を認識できませんでした", warning) :: toasts st
      | Api.Transcribed (Some text) =>
          Remote.processAudioData (Remote.viaApi noJson create receive) now st
          = GroqApp.handleTranscriptionResult now text
              (updateStatus processing (lit "AIで文字起こし中...")
                 (set_isProcessing true st))
      end
  end.
Proof.
  intros Hch. unfold Remote.processAudioData.
  destruct (audioChunks st) as [|chunk chunks] eqn:Ech; [contradiction|].
  cbv zeta.
  change (Remote.formData (updateStatus processing (lit "AIで文字起こし中...")
                             (set_isProcessing true st)))
    with (Remote.formData st).
  unfold Remote.viaApi, Api.handler. cbv zeta.
  destruct (eqb (Api.method (receive (Remote.formData st))) (lit "OPTIONS")).
  { split; [reflexivity|]. eexists. reflexivity. }
  destruct (negb (eqb (Api.method (receive (Remote.formData st))) (lit "POST"))).
  { split; [reflexivity|]. eexists. reflexivity. }
  destruct (Api.form (receive (Remote.formData st)))
    as [message|[audioFile|] prompt].
  - destruct message; (split; [reflexivity|]); eexists; reflexivity.
  - destruct (Api.orElse (Api.filepath audioFile) (Api.path audioFile))
      as [[|c p]|].
    + split; [reflexivity|]. eexists. reflexivity.
    + destruct (create _) as [message|[[|d text]|]] eqn:Ec;
        cbn [Api.asked]; rewrite Ec.
      * destruct message; split; reflexivity.
      * split; reflexivity.
      * reflexivity.
      * split; reflexivity.
    + split; [reflexivity|]. eexists. reflexivity.
  - split; [reflexivity|]. eexists. reflexivity.
Qed.

End EndToEnd.

Lemma remote_end_to_end_witness :
  Shared.transcriptions
    (Remote.processAudioData (Remote.viaApi [] Inputs.refuses Inputs.upload)
       Inputs.noon Inputs.st0)
  = Shared.transcriptions Inputs.st0
  /\ Shared.toasts
       (Remote.processAudioData (Remote.viaApi [] Inputs.refuses Inputs.upload)
          Inputs.noon Inputs.st0)
     = (JS.lit "文字起こしに失敗しました: "
          ++ Api.orDefault (Some (JS.lit "Rate limit reached"))
               (JS.lit "Transcription failed"), Shared.error)
       :: Shared.toasts Inputs.st0.
Proof.
  apply (@remote_end_to_end [] Inputs.refuses Inputs.upload Inputs.noon Inputs.st0).
  discriminate.
Defined.

(** ** The keywords that are registered *)

Section KeywordInput.
Import JS Shared Notions TrimFacts Inputs.

(** X29: the keywords are stored trimmed: if no keyword is empty or has
    white space at an end, this still holds after [addKeyword] of either
    client and after [deleteKeyword]. When the store refuses the write,
    [addKeyword] has put the new keyword in the list all the same, and
    then stops: the input is not cleared, no toast is shown and the store
    is as before. *)
Theorem keywords_stay_trimmed (now id : N) (st : State) :
  wordsTrimmed st ->
  wordsTrimmed (MainApp.addKeyword now st)
  /\ wordsTrimmed (GroqApp.addKeyword now st)
  /\ wordsTrimmed (deleteKeyword id st)
  /\ (writable (localStorage st) = false ->
      trim (keywordInput st) <> [] ->
      existsb (fun k => eqb (toLowerCase (kw_word k))
                          (toLowerCase (trim (keywordInput st)))) (keywords st)
      = false ->
      keywords (MainApp.addKeyword now st)
      = keywords st ++ [{| kw_id := now; kw_word := trim (keywordInput st) |}]
      /\ keywordInput (MainApp.addKeyword now st) = keywordInput st
      /\ toasts (MainApp.addKeyword now st) = toasts st
      /\ localStorage (MainApp.addKeyword now st) = localStorage st).
Proof.
  intros Hst.
  assert (Hnew : forall c input,
             trim (keywordInput st) = c :: input ->
             Forall (fun k => kw_word k <> [] /\ trim (kw_word k) = kw_word k)
               (keywords st ++ [{| kw_id := now; kw_word := c :: input |}])).
  { intros c input E. apply Forall_app. split; [exact Hst|].
    constructor; [|constructor]. cbn [kw_word]. split; [discriminate|].
    rewrite <- E. apply trim_trim. }
  split; [|split; [|split]].
  - unfold MainApp.addKeyword, wordsTrimmed.
    destruct (trim (keywordInput st)) as [|c input] eqn:E; [exact Hst|].
    destruct (existsb _ (keywords st)); [exact Hst|].
    unfold saveKeywords. cbn [keywords localStorage set_keywords].
    destruct (setKeywords _ _); cbn [keywords showToast set_keywordInput
                                          set_localStorage set_keywords];
      now apply Hnew.
  - unfold GroqApp.addKeyword, wordsTrimmed.
    destruct (trim (keywordInput st)) as [|c input] eqn:E; [exact Hst|].
    destruct (existsb _ (keywords st)); [exact Hst|].
    unfold saveKeywords. cbn [keywords localStorage set_keywords].
    destruct (setKeywords _ _); cbn [keywords showToast set_keywordInput
                                          set_localStorage set_keywords];
      now apply Hnew.
  - unfold deleteKeyword, wordsTrimmed, saveKeywords.
    cbn [keywords localStorage set_keywords].
    destruct (setKeywords _ _); cbn [keywords set_localStorage set_keywords];
      apply Forall_forall; intros k Hk; apply filter_In in Hk;
      destruct Hk as [Hk _]; unfold wordsTrimmed in Hst;
      rewrite Forall_forall in Hst; now apply Hst.
  - intros Hw Hin Hdup. unfold MainApp.addKeyword.
    destruct (trim (keywordInput st)) as [|c input] eqn:E; [contradiction|].
    rewrite Hdup. unfold saveKeywords, setKeywords.
    cbn [keywords localStorage set_keywords]. rewrite Hw. repeat split.
Qed.

Lemma keywords_stay_trimmed_witness :
  wordsTrimmed (MainApp.addKeyword 7 (withKeywords [lit "Groq API"] (lit "  Whisper ")))
  /\ map kw_word
       (keywords (MainApp.addKeyword 7 (withKeywords [lit "Groq API"] (lit "  Whisper "))))
     = [lit "Groq API"; lit "Whisper"].
Proof.
  split; [|vm_compute; reflexivity].
  refine (proj1 (@keywords_stay_trimmed 7 0
                   (withKeywords [lit "Groq API"] (lit "  Whisper ")) _)).
  constructor; [|constructor]. split; [discriminate|vm_compute; reflexivity].
Defined.

End KeywordInput.

(** ** The worker in front of the first client *)

Module SpaceFacts.
Import JS Shared Spec Notions LengthFacts TrimFacts CorrectorFacts.

Lemma space_ranges (c : unit) :
  isSpace c = true ->
  (9 <= c <= 13 \/ c = 32 \/ c = 160 \/ c = 5760 \/ 8192 <= c <= 8202
   \/ c = 8232 \/ c = 8233 \/ c = 8239 \/ c = 8287 \/ c = 12288 \/ c = 65279)%N.
Proof.
  intros H. unfold isSpace in H.
  apply orb_true_iff in H. destruct H as [H|H];
    [apply orb_true_iff in H; destruct H as [H|H]|].
  - unfold inRange in H. apply andb_true_iff in H.
    rewrite !N.leb_le in H. lia.
  - unfold oneOf in H.
    repeat (apply orb_true_iff in H; destruct H as [H|H];
            [apply N.eqb_eq in H; lia|]).
    discriminate.
  - unfold inRange in H. apply andb_true_iff in H.
    rewrite !N.leb_le in H. lia.
Qed.

(** White space lies below the letters, between them, or above them. *)
Lemma space_apart (c : unit) :
  isSpace c = true -> (c <= 32 \/ c = 160 \/ 5760 <= c)%N.
Proof.
  intros H. apply space_ranges in H. lia.
Qed.

Lemma space_in_ranges (y : unit) :
  isSpace y = true ->
  exists l h, In (l, h) spaceRanges /\ (l <= y <= h)%N.
Proof.
  intros H. apply space_ranges in H. unfold spaceRanges.
  destruct H as [H|[H|[H|[H|[H|[H|[H|[H|[H|[H|H]]]]]]]]]].
  - exists 0x09%N, 0x0D%N. split; [simpl; auto 20|lia].
  - exists 0x20%N, 0x20%N. split; [simpl; auto 20|lia].
  - exists 0xA0%N, 0xA0%N. split; [simpl; auto 20|lia].
  - exists 0x1680%N, 0x1680%N. split; [simpl; auto 20|lia].
  - exists 0x2000%N, 0x200A%N. split; [simpl; auto 20|lia].
  - exists 0x2028%N, 0x2029%N. split; [simpl; auto 20|lia].
  - exists 0x2028%N, 0x2029%N. split; [simpl; auto 20|lia].
  - exists 0x202F%N, 0x202F%N. split; [simpl; auto 20|lia].
  - exists 0x205F%N, 0x205F%N. split; [simpl; auto 20|lia].
  - exists 0x3000%N, 0x3000%N. split; [simpl; auto 20|lia].
  - exists 0xFEFF%N, 0xFEFF%N. split; [simpl; auto 20|lia].
Qed.

Lemma spaceFree_sound (a b y : unit) :
  spaceFree a b = true -> (a <= y <= b)%N -> isSpace y = false.
Proof.
  intros H Hy. destruct (isSpace y) eqn:E; [|reflexivity]. exfalso.
  apply space_in_ranges in E. destruct E as (l & h & Hin & Hr).
  unfold spaceFree in H. rewrite forallb_forall in H.
  specialize (H _ Hin). cbn [fst snd] in H.
  apply orb_true_iff in H. rewrite !N.ltb_lt in H. lia.
Qed.

(** What a case table gives: the code unit itself, or the image that a
    row has for it. *)
Lemma caseLookup_cases (rows : list (N * N * N * N)) (c : unit) :
  caseLookup rows c = c
  \/ exists lo hi step to,
       In (lo, hi, step, to) rows
       /\ (lo <= c <= hi)%N
       /\ caseLookup rows c = (to + (c - lo))%N.
Proof.
  induction rows as [|[[[lo hi] step] to] rows IH]; [now left|].
  cbn [caseLookup].
  destruct (inRange lo hi c && ((c - lo) mod step =? 0)%N) eqn:E.
  - right. exists lo, hi, step, to. split; [now left|]. split; [|reflexivity].
    apply andb_true_iff in E. destruct E as [E _]. unfold inRange in E.
    apply andb_true_iff in E. rewrite !N.leb_le in E. exact E.
  - destruct IH as [IH|(lo' & hi' & step' & to' & Hin & Hc & IH)]; [now left|].
    right. exists lo', hi', step', to'. split; [now right|]. now split.
Qed.

(** No row of the upper case table has white space among the code units
    that it maps, or among their images. *)
Lemma upperCase_spaces (lo hi step to : N) :
  In (lo, hi, step, to) upperCaseTable ->
  spaceFree lo hi = true /\ spaceFree to (to + (hi - lo)) = true.
Proof.
  assert (H : forallb
                (fun row =>
                   match row with
                   | (lo, hi, _, to) =>
                       spaceFree lo hi && spaceFree to (to + (hi - lo))
                   end) upperCaseTable = true) by (vm_compute; reflexivity).
  rewrite forallb_forall in H. intros Hin. specialize (H _ Hin). cbv beta iota in H.
  now apply andb_true_iff in H.
Qed.

(** White space has no case, and nothing else has white space for its
    canonical form. *)
Lemma canonicalize_fixes_space (c : unit) :
  isSpace c = true -> canonicalize c = c.
Proof.
  intros Hc. unfold canonicalize. cbv zeta.
  destruct (caseLookup_cases upperCaseTable c)
    as [E|(lo & hi & step & to & Hin & Hr & _)].
  - rewrite E. now destruct (_ && _).
  - apply upperCase_spaces in Hin. destruct Hin as [Hdom _].
    rewrite (spaceFree_sound Hdom Hr) in Hc. discriminate.
Qed.

Lemma canonicalize_to_space (x : unit) :
  isSpace (canonicalize x) = true -> canonicalize x = x.
Proof.
  unfold canonicalize. cbv zeta.
  destruct ((128 <=? x)%N && (caseLookup upperCaseTable x <? 128)%N);
    [reflexivity|].
  destruct (caseLookup_cases upperCaseTable x)
    as [E|(lo & hi & step & to & Hin & Hr & E)]; [now rewrite E|].
  intros Hs. apply upperCase_spaces in Hin. destruct Hin as [_ Him].
  rewrite E in Hs. rewrite (@spaceFree_sound to (to + (hi - lo))%N) in Hs;
    [discriminate|exact Him|lia].
Qed.

(** A code unit that is white space up to case is white space. *)
Lemma canonicalize_space (x c : unit) :
  isSpace c = true -> canonicalize x = canonicalize c -> isSpace x = true.
Proof.
  intros Hc E. rewrite (canonicalize_fixes_space _ Hc) in E.
  assert (Hx : canonicalize x = x).
  { apply canonicalize_to_space. now rewrite E. }
  rewrite Hx in E. now rewrite E.
Qed.

Lemma span_run (cls : unit -> bool) (s : str) :
  forallb cls (fst (span cls s)) = true.
Proof.
  induction s as [|c s IH]; [reflexivity|]. simpl.
  destruct (cls c) eqn:E; [|reflexivity].
  destruct (span cls s) as [r t]. simpl in *. now rewrite E.
Qed.

(** A text is its trimmed part between two runs of white space. *)
Lemma trim_parts (s : str) :
  exists a b, s = a ++ trim s ++ b
              /\ forallb isSpace a = true /\ forallb isSpace b = true.
Proof.
  exists (fst (span isSpace s)),
         (rev (fst (span isSpace (rev (dropWhile isSpace s))))).
  split; [|split].
  - unfold trim, dropWhileEnd.
    rewrite <- rev_app_distr. unfold dropWhile at 2.
    rewrite span_app, rev_involutive. unfold dropWhile.
    symmetry. apply span_app.
  - apply span_run.
  - apply forallb_forall. intros c Hc. apply in_rev in Hc.
    pose proof (span_run isSpace (rev (dropWhile isSpace s))) as H.
    rewrite forallb_forall in H. now apply H.
Qed.

Lemma dropWhile_keeps (cls : unit -> bool) (s : str) (c : unit) :
  In c s -> cls c = false -> In c (dropWhile cls s).
Proof.
  unfold dropWhile. intros Hin Hc. induction s as [|d s IH]; [destruct Hin|].
  simpl. destruct (cls d) eqn:Ed.
  - destruct (span cls s) as [r t]. simpl in *.
    destruct Hin as [->|Hin]; [congruence|]. now apply IH.
  - exact Hin.
Qed.

Lemma trim_keeps_start (c : unit) (s : str) :
  isSpace c = false -> trim (c :: s) <> [].
Proof.
  intros Hc. unfold trim. rewrite (dropWhile_id isSpace (c :: s) Hc).
  unfold dropWhileEnd. intros E.
  assert (Hin : In c (dropWhile isSpace (rev (c :: s)))).
  { apply dropWhile_keeps; [|exact Hc]. apply in_rev. rewrite rev_involutive.
    now left. }
  apply in_rev in Hin. rewrite E in Hin. destruct Hin.
Qed.

(** A word that does not start with white space is not found at a white
    space. *)
Lemma stamp_after_spaces (w a s : str) :
  startsIn isSpace w = false -> forallb isSpace a = true ->
  stamp w [] (a ++ s) = a ++ stamp w [] s.
Proof.
  intros Hw Ha. induction a as [|c a IH]; [reflexivity|].
  simpl in Ha. apply andb_true_iff in Ha. destruct Ha as [Hc Ha].
  cbn [app stamp].
  destruct w as [|x w]; [cbn [startsWithCI]; f_equal; now apply IH|].
  assert (Hno : startsWithCI (x :: w) (c :: a ++ s) = false).
  { cbn [startsWithCI].
    destruct (N.eqb_spec (canonicalize x) (canonicalize c)) as [E|]; [|reflexivity].
    apply (canonicalize_space _ _ Hc) in E. simpl in Hw. congruence. }
  rewrite Hno. f_equal. now apply IH.
Qed.

(** A word that does not end with white space does not reach into a run
    of white space. *)
Lemma startsWithCI_before_spaces (w0 : str) (x : unit) (s b : str) :
  isSpace x = false -> forallb isSpace b = true ->
  startsWithCI (w0 ++ [x]) (s ++ b) = startsWithCI (w0 ++ [x]) s.
Proof.
  intros Hx Hb. revert s. induction w0 as [|y w0 IH]; intros s.
  - destruct s as [|c s].
    + destruct b as [|c b]; [reflexivity|]. cbn [app startsWithCI].
      simpl in Hb. apply andb_true_iff in Hb. destruct Hb as [Hc _].
      destruct (N.eqb_spec (canonicalize x) (canonicalize c)) as [E|]; [|reflexivity].
      apply (canonicalize_space _ _ Hc) in E. congruence.
    + reflexivity.
  - destruct s as [|c s].
    + destruct b as [|c b]; [reflexivity|]. cbn [app startsWithCI].
      simpl in Hb. apply andb_true_iff in Hb. destruct Hb as [_ Hb'].
      specialize (IH []). cbn [app] in IH.
      assert (Hnil : startsWithCI (w0 ++ [x]) [] = false) by now destruct w0.
      assert (Hb2 : startsWithCI (w0 ++ [x]) b = false).
      { clear IH. revert Hb'. generalize b. clear - Hx.
        induction w0 as [|z w0 IHw]; intros b Hb.
        - destruct b as [|c b]; [reflexivity|]. cbn [app startsWithCI].
          simpl in Hb. apply andb_true_iff in Hb. destruct Hb as [Hc _].
          destruct (N.eqb_spec (canonicalize x) (canonicalize c)) as [E|];
            [|reflexivity].
          apply (canonicalize_space _ _ Hc) in E. congruence.
        - destruct b as [|c b]; [reflexivity|]. cbn [app startsWithCI].
          simpl in Hb. apply andb_true_iff in Hb. destruct Hb as [_ Hb].
          rewrite (IHw b Hb). apply andb_false_r. }
      rewrite Hb2. apply andb_false_r.
    + cbn [app startsWithCI]. now rewrite IH.
Qed.

Lemma stamp_before_spaces (w0 : str) (x : unit) (p s b : str) :
  isSpace x = false -> forallb isSpace b = true ->
  startsIn isSpace (w0 ++ [x]) = false ->
  length p <= length s ->
  stamp (w0 ++ [x]) p (s ++ b) = stamp (w0 ++ [x]) p s ++ b.
Proof.
  intros Hx Hb Hs. revert p. induction s as [|c s IH]; intros p Hp.
  - destruct p; [|simpl in Hp; lia]. cbn [app].
    pose proof (@stamp_after_spaces (w0 ++ [x]) b [] Hs Hb) as E.
    rewrite app_nil_r in E. rewrite E. cbn [stamp app]. apply app_nil_r.
  - cbn [app stamp]. destruct p as [|d p].
    + pose proof (@startsWithCI_before_spaces w0 x (c :: s) b Hx Hb) as E.
      cbn [app] in E. rewrite E.
      destruct (startsWithCI (w0 ++ [x]) (c :: s)) eqn:Hat.
      * destruct (w0 ++ [x]) as [|y w] eqn:Ew; [now destruct w0|].
        cbn [app]. f_equal. apply IH.
        apply startsWithCI_length in Hat. simpl in Hat. lia.
      * cbn [app]. f_equal. apply IH. simpl. lia.
    + cbn [app]. f_equal. apply IH. simpl in Hp. lia.
Qed.

Lemma replaceKeyword_spaces (w a s b : str) :
  plain w -> forallb isSpace a = true -> forallb isSpace b = true ->
  replaceKeyword w (a ++ s ++ b) = a ++ replaceKeyword w s ++ b.
Proof.
  intros (Hfree & Hne & Htrim) Ha Hb.
  destruct (trim_ends w) as [Hs He]. rewrite Htrim in Hs, He.
  rewrite !(@replaceKeyword_stamp _ _ Hfree).
  rewrite (@stamp_after_spaces _ _ _ Hs Ha). f_equal.
  assert (Hlast : exists w0 x, w = w0 ++ [x] /\ isSpace x = false).
  { unfold endsIn in He. destruct (rev w) as [|x r] eqn:Er.
    - apply (f_equal (@rev _)) in Er. rewrite rev_involutive in Er. contradiction.
    - exists (rev r), x. split; [|exact He].
      apply (f_equal (@rev _)) in Er. rewrite rev_involutive in Er. exact Er. }
  destruct Hlast as (w0 & x & -> & Hx).
  apply stamp_before_spaces; auto. simpl. lia.
Qed.

Lemma replaceAll_spaces (ws : list str) (a s b : str) :
  Forall plain ws -> forallb isSpace a = true -> forallb isSpace b = true ->
  replaceAll ws (a ++ s ++ b) = a ++ replaceAll ws s ++ b.
Proof.
  intros Hws Ha Hb. revert s. induction Hws as [|w ws Hw Hws IH]; intros s;
    [reflexivity|].
  unfold replaceAll in *. cbn [fold_left].
  rewrite (@replaceKeyword_spaces _ _ _ _ Hw Ha Hb). apply IH.
Qed.

(** A text that the corrector leaves as it is is left so when trimmed. *)
Lemma replaceAll_trim (ws : list str) (z : str) :
  Forall plain ws -> replaceAll ws z = z -> replaceAll ws (trim z) = trim z.
Proof.
  intros Hws Hz. destruct (trim_parts z) as (a & b & E & Ha & Hb).
  rewrite E in Hz at 1. rewrite (@replaceAll_spaces _ _ _ _ Hws Ha Hb) in Hz.
  rewrite E in Hz at 2. apply app_inv_head in Hz. now apply app_inv_tail in Hz.
Qed.

End SpaceFacts.

Section FirstPipeline.
Import JS Shared Spec Notions TrimFacts CorrectorFacts SpaceFacts Inputs.

Lemma replaceAll_twice (ws : list str) (y : str) :
  Forall dollarFree ws -> replaceAll ws (replaceAll ws y) = replaceAll ws y.
Proof.
  intros Hws. pose proof (replaceAll_sameCase y Hws) as Hc.
  apply replaceAll_between; try assumption.
  - unfold sameCase in *. now symmetry.
  - apply between_refl. symmetry. now apply sameCase_length.
Qed.

(** X30: the worker of [src/worker.js] in front of the first client,
    with keywords that are not empty, are trimmed and hold neither a comma
    nor a [$]: the text that the worker returns is the model's text after
    [removeHallucinationPatterns] and the corrector, trimmed; the
    corrector of the client, which runs on it again, leaves it as it is;
    so an empty text makes no record, and any other text is recorded as
    the worker returned it. *)
Theorem first_client_pipeline (now : Date) (raw : str) (st : State) :
  Forall (fun k => plain (kw_word k) /\ ~ In (chr ",") (kw_word k)) (keywords st) ->
  Worker.transcribeResult raw (keywordPrompt st)
  = trim (processKeywords st (Worker.removeHallucinationPatterns raw))
  /\ processKeywords st (trim (Worker.transcribeResult raw (keywordPrompt st)))
     = Worker.transcribeResult raw (keywordPrompt st)
  /\ (Worker.transcribeResult raw (keywordPrompt st) = [] ->
      idleAfter st
        (FirstClient.handleTranscriptionResult now
           (Worker.transcribeResult raw (keywordPrompt st)) st))
  /\ (Worker.transcribeResult raw (keywordPrompt st) <> [] ->
      transcriptions
        (FirstClient.handleTranscriptionResult now
           (Worker.transcribeResult raw (keywordPrompt st)) st)
      = createTranscription now (Worker.transcribeResult raw (keywordPrompt st))
        :: transcriptions st).
Proof.
  intros Hks.
  assert (Hplain : Forall plain (map kw_word (keywords st))).
  { apply Forall_map. eapply Forall_impl; [|exact Hks]. now intros k [H _]. }
  assert (Hfree : Forall dollarFree (map kw_word (keywords st))).
  { eapply Forall_impl; [|exact Hplain]. now intros w [H _]. }
  assert (Hclean : Forall (fun k => kw_word k <> [] /\ trim (kw_word k) = kw_word k
                                    /\ ~ In (chr ",") (kw_word k)) (keywords st)).
  { eapply Forall_impl; [|exact Hks]. intros k [(_ & H1 & H2) H3]. auto. }
  set (y := Worker.removeHallucinationPatterns raw).
  assert (E1 : Worker.transcribeResult raw (keywordPrompt st)
               = trim (processKeywords st y)).
  { unfold Worker.transcribeResult. cbv zeta. fold y. f_equal.
    destruct (keywords st) as [|k ks] eqn:Eks.
    - unfold keywordPrompt, processKeywords. rewrite Eks. reflexivity.
    - assert (Hprompt : trim (keywordPrompt st) <> []).
      { unfold keywordPrompt. rewrite Eks.
        inversion Hclean as [|? ? (Hne & Htrim & _) _]. subst.
        destruct (trim_ends (kw_word k)) as [Hs _]. rewrite Htrim in Hs.
        cbn [map]. destruct (kw_word k) as [|c w]; [contradiction|].
        cbn [join]. destruct (map kw_word ks); now apply trim_keeps_start. }
      destruct (trim (keywordPrompt st)); [contradiction|].
      unfold Worker.applyKeywordCorrections, processKeywords.
      rewrite <- Eks in Hclean. rewrite (@promptKeywords_prompt st Hclean).
      rewrite Eks. apply corrections_of_keywords. }
  assert (E2 : processKeywords st (trim (Worker.transcribeResult raw (keywordPrompt st)))
               = Worker.transcribeResult raw (keywordPrompt st)).
  { rewrite E1, trim_trim, !processKeywords_replaceAll.
    apply replaceAll_trim; [exact Hplain|]. now apply replaceAll_twice. }
  split; [exact E1|]. split; [exact E2|].
  revert E2. generalize (Worker.transcribeResult raw (keywordPrompt st)).
  intros text E2. unfold FirstClient.handleTranscriptionResult. cbv zeta. split.
  - intros ->. cbn [trim dropWhile dropWhileEnd span rev snd app]. repeat split.
  - intros Hne.
    change (processKeywords (set_isProcessing false st) (trim text))
      with (processKeywords st (trim text)).
    rewrite E2. destruct (trim text) as [|c t] eqn:Et.
    + exfalso. apply Hne. rewrite <- E2.
      unfold processKeywords. clear. induction (keywords st) as [|k ks IH];
        [reflexivity|]. cbn [fold_left]. now rewrite WorkerFacts.replaceKeyword_nil.
    + cbn [transcriptions updateStatus showToast].
      rewrite transcriptions_navigateToDetail.
      now rewrite (proj1 (transcriptions_saved _)).
Qed.

Lemma first_client_pipeline_witness :
  Worker.transcribeResult (lit " groq apiの会議は3時からです。 ")
    (keywordPrompt (withKeywords [lit "Groq API"; lit "3時"] []))
  = trim (processKeywords (withKeywords [lit "Groq API"; lit "3時"] [])
            (Worker.removeHallucinationPatterns (lit " groq apiの会議は3時からです。 "))).
Proof.
  refine (proj1 (@first_client_pipeline noon (lit " groq apiの会議は3時からです。 ")
                   (withKeywords [lit "Groq API"; lit "3時"] []) _)).
  apply Forall_forall. intros k Hk.
  destruct Hk as [<-|[<-|[]]];
    (split; [split; [|split; [discriminate|vm_compute; reflexivity]]|]);
    intros H; vm_compute in H;
    repeat (destruct H as [H|H]; [discriminate|]); exact H.
Defined.

End FirstPipeline.
